(** * Liar's Poker: the rule engine of [liars]

    A shallow embedding of [liars/action.py], [liars/number.py],
    [liars/game.py] and [liars/naive_player.py], and the properties of the
    rule engine: claim validation, the raise rule, the digit-count model,
    turn sequencing and the resolution of a round, and of the example
    player playing under it.

    Python integers are [Z]; NumPy's fixed-width integers are [Z] with the
    wrap-around written out; Python floats are the primitive doubles.
    Exceptions are values of [exn]; a computation that can raise returns a
    [result].  Loops that need not terminate take a fuel argument and
    answer [OutOfFuel] when it runs out. *)

From Stdlib Require Import ZArith Lia Ascii String.
From Stdlib Require Floats.
From stdpp Require Import base option list gmap.

Local Open Scope Z_scope.

(** ** Exceptions and results *)

(** The messages of the exceptions the sources raise, by the place that
    raises them. *)
Inductive message : Type :=
  | NotExactlyOneTag      (* action.py:26 *)
  | BetCountMissing       (* action.py:33 *)
  | BetDigitMissing       (* action.py:35 *)
  | BetCountTooSmall      (* action.py:37 *)
  | BetDigitOutOfRange    (* action.py:39 *)
  | ActionAfterTerminal   (* action.py:57 *)
  | InvalidRaise          (* action.py:62 *)
  | FirstMoveNotBet       (* game.py:121 *)
  | InvalidLiteral        (* int() on a character that is no digit *)
  | EmptyRange.           (* numpy.random.randint with low >= high *)

Inductive exn : Type :=
  | ValueError (m : message)
  | RuntimeError (m : message)
  | TypeError
  | IndexError
  | StopIteration.

Inductive result (A : Type) : Type :=
  | Ret (a : A)
  | Raise (e : exn)
  | OutOfFuel.
Arguments Ret {A} a.
Arguments Raise {A} e.
Arguments OutOfFuel {A}.

#[global] Instance result_ret : MRet result := fun A a => Ret a.
#[global] Instance result_bind : MBind result := fun A B f m =>
  match m with
  | Ret a => f a
  | Raise e => Raise e
  | OutOfFuel => OutOfFuel
  end.

Definition returns {A} (r : result A) : Prop := exists a, r = Ret a.

(** ** action.py *)

Module action.

Record Action : Type := mkAction {
  is_exact : bool;
  is_bullshit : bool;
  is_bet : bool;
  count : option Z;
  digit : option Z
}.

(** [Action.__post_init__]: the checks run by the dataclass constructor. *)
Definition post_init (self : Action) : result unit :=
  if negb (Z.b2z (is_exact self) + Z.b2z (is_bullshit self) + Z.b2z (is_bet self) =? 1)
  then Raise (ValueError NotExactlyOneTag)
  else if is_bet self then
    match count self, digit self with
    | None, _ => Raise (ValueError BetCountMissing)
    | Some _, None => Raise (ValueError BetDigitMissing)
    | Some c, Some d =>
        if c <=? 0 then Raise (ValueError BetCountTooSmall)
        else if negb ((0 <=? d) && (d <=? 9)) then Raise (ValueError BetDigitOutOfRange)
        else Ret tt
    end
  else Ret tt.

(** [Action(...)]: build the record, then validate it. *)
Definition new (is_exact is_bullshit is_bet : bool) (count digit : option Z)
  : result Action :=
  let self := mkAction is_exact is_bullshit is_bet count digit in
  _ ← post_init self; Ret self.

Definition make_bet (count digit : Z) : result Action :=
  new false false true (Some count) (Some digit).

Definition make_bullshit : result Action := new false true false None None.

Definition make_exact : result Action := new true false false None None.

(** Python's [>] on two attributes that may be [None]. *)
Definition py_gt (x y : option Z) : result bool :=
  match x, y with
  | Some a, Some b => Ret (b <? a)
  | _, _ => Raise TypeError
  end.

(** [ensure_valid_raise(bet, previous_bet)].  The value returned is Python's
    [True] ([Some true]) or [None]. *)
Definition ensure_valid_raise (bet : Action) (previous_bet : option Action)
  : result (option bool) :=
  match previous_bet with
  | None => Ret (Some true)
  | Some previous_bet =>
      if negb (is_bet previous_bet) then Raise (ValueError ActionAfterTerminal)
      else
        higher_digit ← py_gt (digit bet) (digit previous_bet);
        raised ← (if higher_digit : bool then Ret true
                  else py_gt (count bet) (count previous_bet));
        if negb raised then Raise (ValueError InvalidRaise) else Ret None
  end.

(** [GameResult]: 1 is a win, 0 is a loss, and -1 is a tie. *)
Definition Win : Z := 1.
Definition Loss : Z := 0.
Definition Tie : Z := -1.

(** An action that went through the constructor. *)
Definition valid (a : Action) : Prop := post_init a = Ret tt.

(** A well-formed bet: a validated action whose tag is [Bet]. *)
Definition well_formed_bet (a : Action) : Prop := valid a /\ is_bet a = true.

End action.
Import action.

(** ** number.py *)

Module number.

Definition NUM_DIGITS : Z := 8.

(** The decimal digits of a non-negative integer, most significant first. *)
Fixpoint decimal_digits (fuel : nat) (x : Z) (acc : list Z) : list Z :=
  match fuel with
  | O => acc
  | S fuel => if x <? 10 then x :: acc
              else decimal_digits fuel (x / 10) (x mod 10 :: acc)
  end.

Definition digits_of (x : Z) : list Z :=
  decimal_digits (S (Z.to_nat (Z.log2 x))) x [].

Definition digit_char (d : Z) : ascii := ascii_of_nat (48 + Z.to_nat d).

(** [format(x, "0wd")]: the sign, then the digits padded with zeros on the
    left up to [width] characters in all. *)
Definition format_0d (width : Z) (x : Z) : list ascii :=
  let sign := if x <? 0 then ["-"%char] else [] in
  let ds := digits_of (Z.abs x) in
  let pad := (Z.to_nat width - length sign - length ds)%nat in
  sign ++ replicate pad "0"%char ++ map digit_char ds.

Definition to_str (number : Z) : string :=
  string_of_list_ascii (format_0d NUM_DIGITS number).

(** [int(ch)] on a one-character string. *)
Definition int_of_char (ch : ascii) : result Z :=
  let n := Z.of_nat (nat_of_ascii ch) in
  if (48 <=? n) && (n <=? 57) then Ret (n - 48)
  else Raise (ValueError InvalidLiteral).

(** Addition on [numpy.uint8]. *)
Definition uint8_add (a b : Z) : Z := (a + b) mod 2 ^ 8.

(** Indexing a one-dimensional array with a Python integer: negative
    indices count from the end. *)
Definition np_index (a : list Z) (i : Z) : result Z :=
  let len := Z.of_nat (length a) in
  let j := if i <? 0 then i + len else i in
  if (0 <=? j) && (j <? len) then
    match a !! Z.to_nat j with
    | Some x => Ret x
    | None => Raise IndexError
    end
  else Raise IndexError.

(** [counts[digit] += 1] on a [uint8] array. *)
Definition np_incr (counts : list Z) (i : Z) : result (list Z) :=
  c ← np_index counts i;
  let len := Z.of_nat (length counts) in
  let j := if i <? 0 then i + len else i in
  Ret (<[Z.to_nat j := uint8_add c 1]> counts).

Definition to_counts (number : Z) : result (list Z) :=
  foldl (fun acc ch => counts ← acc; d ← int_of_char ch; np_incr counts d)
        (Ret (replicate 10 0))
        (list_ascii_of_string (to_str number)).

(** Addition on the accumulator of [numpy.sum] over [uint8]: the platform's
    unsigned integer, 64 bits wide. *)
Definition uint64_add (a b : Z) : Z := (a + b) mod 2 ^ 64.

(** [numpy.sum(rows, axis=0)] on a list of [uint8] vectors of one length.
    On an empty list NumPy answers a scalar, which cannot be indexed; the
    empty vector stands for it. *)
Definition np_sum_axis0 (rows : list (list Z)) : list Z :=
  match rows with
  | [] => []
  | r :: rs => foldl (zip_with uint64_add) r rs
  end.

(** The round's ground truth, [game.py:99]. *)
Definition total_digit_counts (numbers : list Z) : result (list Z) :=
  rows ← mapM to_counts numbers; Ret (np_sum_axis0 rows).

Definition sum_entries (v : list Z) : Z := foldr Z.add 0 v.

Definition is_digit (d : Z) : Prop := 0 <= d <= 9.

(** A vector of digit counts of one number. *)
Definition counts_of_number (v : list Z) : Prop :=
  length v = 10%nat /\ Forall (Z.le 0) v /\ sum_entries v = 8.

End number.
Import number.

(** ** The collaborators of the engine *)

(** What lies outside the rule engine: NumPy's global random generator, the
    system timer, and whatever the players remember.  [Ext] is the state of
    all of it; a call to a collaborator reads and updates that state. *)
Class World : Type := {
  Ext : Type;
  Time : Type;
  (** [numpy.random.randint(low, high)] for [low < high]. *)
  randint : Z -> Z -> Ext -> Z * Ext;
  (** [timeit.default_timer()]. *)
  default_timer : Ext -> Time;
  (** Subtraction of two readings of the timer. *)
  time_sub : Time -> Time -> Time
}.

(** ** player_interface.py *)

Module player_interface.
Section player_interface.
Context `{World}.

(** [(player_id, duration, action)]. *)
Definition MoveRecord : Type := Z * Time * Action.
Definition GameState : Type := list MoveRecord.

(** The four methods of [PlayerInterface].  A player is an object of the
    outside world: its methods act on [Ext].  By the contract of the
    interface they return, and the engine's log is not mutated by them. *)
Record PlayerInterface : Type := {
  setup : Ext -> Ext;
  start_game : Z -> Z -> Z -> Ext -> Ext;
  make_move : GameState -> Ext -> Action * Ext;
  end_game : Z -> GameState -> list Z -> Ext -> Ext
}.

End player_interface.
End player_interface.
Import player_interface.

(** ** game.py *)

Module game.
Section game.
Context `{World}.

(** What one call of [Game.play] did, kept for the statements below; the
    method itself returns [winner_idx] only. *)
Record Round : Type := mkRound {
  numbers : list Z;
  first_idx : Z;
  (** the value of [np.random.randint(len(players))], when it was called *)
  first_draw : option Z;
  total_counts : list Z;
  game_state : GameState;
  winner_idx : Z;
  (** the [result] passed to [end_game] of player 0, 1, ... *)
  results : list Z
}.

(** The mutable state: the number of items [self.player_generator] has
    yielded so far, the outside world, and the rounds played. *)
Record State : Type := mkState {
  gen : nat;
  ext : Ext;
  rounds : list Round
}.

Definition M (A : Type) : Type := State -> result (A * State).

#[global] Instance M_ret : MRet M := fun A a s => Ret (a, s).
#[global] Instance M_bind : MBind M := fun A B f m s =>
  match m s with
  | Ret (a, s') => f a s'
  | Raise e => Raise e
  | OutOfFuel => OutOfFuel
  end.

Definition raise {A} (e : exn) : M A := fun _ => Raise e.
Definition out_of_fuel {A} : M A := fun _ => OutOfFuel.
Definition lift {A} (r : result A) : M A := fun s =>
  match r with
  | Ret a => Ret (a, s)
  | Raise e => Raise e
  | OutOfFuel => OutOfFuel
  end.

(** A call into the outside world. *)
Definition call {A} (f : Ext -> A * Ext) : M A := fun s =>
  let '(a, e) := f (ext s) in Ret (a, mkState (gen s) e (rounds s)).
Definition call_ (f : Ext -> Ext) : M unit := call (fun e => (tt, f e)).

Definition record_round (r : Round) : M unit := fun s =>
  Ret (tt, mkState (gen s) (ext s) (rounds s ++ [r])).

(** [np.random.randint(low, high)]. *)
Definition np_random_randint (low high : Z) : M Z :=
  if low <? high then call (randint low high)
  else raise (ValueError EmptyRange).

(** [number.get_random_number]. *)
Definition get_random_number : M Z := np_random_randint 0 (10 ^ NUM_DIGITS).

(** The [while] loop of [number.get_random_numbers]. *)
Fixpoint get_random_numbers_loop (fuel : nat) (n : Z) (numbers : gset Z)
  : M (gset Z) :=
  match fuel with
  | O => out_of_fuel
  | S fuel =>
      if Z.of_nat (size numbers) <? n then
        x ← get_random_number;
        get_random_numbers_loop fuel n ({[x]} ∪ numbers)
      else mret numbers
  end.

(** [number.get_random_numbers].  [list(numbers)] lists the set in an order
    of CPython's choosing; [elements] stands for it. *)
Definition get_random_numbers (fuel : nat) (n : Z) : M (list Z) :=
  numbers ← get_random_numbers_loop fuel n ∅;
  mret (elements numbers).

(** [with ExecutionTime() as t: body]. *)
Definition timed {A} (body : M A) : M (Time * A) := fun s =>
  let start_time := default_timer (ext s) in
  match body s with
  | Ret (a, s') => Ret ((time_sub (default_timer (ext s')) start_time, a), s')
  | Raise e => Raise e
  | OutOfFuel => OutOfFuel
  end.

(** [for idx, x in enumerate(l): body idx x], counting from [idx]. *)
Fixpoint for_enumerate {A B} (body : Z -> A -> M B) (idx : Z) (l : list A)
  : M (list B) :=
  match l with
  | [] => mret []
  | x :: l =>
      b ← body idx x;
      bs ← for_enumerate body (idx + 1) l;
      mret (b :: bs)
  end.

(** [l[idx]] on a Python list, for [idx >= 0]. *)
Definition py_index {A} (l : list A) (idx : Z) : result A :=
  match l !! Z.to_nat idx with
  | Some x => Ret x
  | None => Raise IndexError
  end.

Variable players : list PlayerInterface.

Definition n_players : Z := Z.of_nat (length players).

(** [next(self.player_generator)] on [itertools.cycle(enumerate(players))]:
    the k-th item yielded is player [k mod n]; an empty cycle stops at
    once. *)
Definition next_player : M (Z * PlayerInterface) := fun s =>
  let idx := (gen s mod length players)%nat in
  match players !! idx with
  | Some player => Ret ((Z.of_nat idx, player), mkState (S (gen s)) (ext s) (rounds s))
  | None => Raise StopIteration
  end.

(** [game.py:77-80]. *)
Definition start_games (numbers : list Z) : M (list unit) :=
  for_enumerate (fun idx player =>
      number ← lift (py_index numbers idx);
      call_ (start_game player number idx n_players))
    0 players.

(** [game.py:88-91]: cycle the generator until the next player it yields is
    [first_idx]. *)
Fixpoint fast_forward (fuel : nat) (first_idx : Z) : M unit :=
  match fuel with
  | O => out_of_fuel
  | S fuel =>
      '(idx, player) ← next_player;
      if (idx + 1) mod n_players =? first_idx then mret tt
      else fast_forward fuel first_idx
  end.

(** [total_counts[prev_action.digit]].  A bet has both attributes
    ([post_init]); the [None] cases below cannot arise from a constructed
    action and are given an error. *)
Definition actual_count (total_counts : list Z) (prev_action : Action)
  : result Z :=
  match digit prev_action with
  | Some d => np_index total_counts d
  | None => Raise TypeError
  end.

(** [prev_action.count == total_counts[prev_action.digit]]. *)
Definition exact_is_right (total_counts : list Z) (prev_action : Action)
  : result bool :=
  actual ← actual_count total_counts prev_action;
  match count prev_action with
  | Some c => Ret (c =? actual)
  | None => Raise TypeError
  end.

(** [prev_action.count > total_counts[prev_action.digit]]. *)
Definition bullshit_is_right (total_counts : list Z) (prev_action : Action)
  : result bool :=
  actual ← actual_count total_counts prev_action;
  match count prev_action with
  | Some c => Ret (actual <? c)
  | None => Raise TypeError
  end.

(** [game.py:105-109]: the next player is asked for a move, and timed. *)
Definition next_move (game_state : GameState) : M MoveRecord :=
  '(idx, player) ← next_player;
  '(elapsed, action) ← timed (call (make_move player game_state));
  mret (idx, elapsed, action).

(** The core game loop, [game.py:104-139].  [prev] holds [prev_idx] and
    [prev_action], which are set together. *)
Fixpoint game_loop (fuel : nat) (total_counts : list Z)
    (game_state : GameState) (prev : option (Z * Action)) : M (GameState * Z) :=
  match fuel with
  | O => out_of_fuel
  | S fuel =>
      '(idx, elapsed, action) ← next_move game_state;
      let game_state := game_state ++ [(idx, elapsed, action)] in
      if is_bet action then
        _ ← lift (ensure_valid_raise action (snd <$> prev));
        game_loop fuel total_counts game_state (Some (idx, action))
      else
        match prev with
        | None => raise (RuntimeError FirstMoveNotBet)
        | Some (prev_idx, prev_action) =>
            if is_exact action then
              right ← lift (exact_is_right total_counts prev_action);
              mret (game_state, if right : bool then -1 else prev_idx)
            else
              right ← lift (bullshit_is_right total_counts prev_action);
              mret (game_state, if right : bool then idx else prev_idx)
        end
  end.

(** The result sent to player [idx], [game.py:145-150]. *)
Definition result_for (winner_idx idx : Z) : Z :=
  if winner_idx =? -1 then -1
  else if winner_idx =? idx then 1
  else 0.

(** [game.py:144-155]; answers the results in the order sent. *)
Definition notify (winner_idx : Z) (game_state : GameState) (numbers : list Z)
  : M (list Z) :=
  for_enumerate (fun idx player =>
      let result := result_for winner_idx idx in
      _ ← call_ (end_game player result game_state numbers);
      mret result)
    0 players.

(** [game.py:75-91]: numbers are dealt, the first mover is chosen and the
    generator is cycled to it. *)
Definition deal (fuel : nat) (first_move : option Z)
  : M (list Z * Z * option Z) :=
  numbers ← get_random_numbers fuel n_players;
  _ ← start_games numbers;
  '(first_idx, first_draw) ←
    match first_move with
    | Some first_move => mret (first_move, None)
    | None => x ← np_random_randint 0 n_players; mret (x, Some x)
    end;
  _ ← fast_forward fuel first_idx;
  mret (numbers, first_idx, first_draw).

(** [game.py:99-157], from a given point of the game loop on. *)
Definition conclude (fuel : nat) (numbers : list Z) (first_idx : Z)
    (first_draw : option Z) (total_counts : list Z)
    (game_state : GameState) (prev : option (Z * Action)) : M Z :=
  '(game_state, winner_idx) ← game_loop fuel total_counts game_state prev;
  results ← notify winner_idx game_state numbers;
  _ ← record_round (mkRound numbers first_idx first_draw total_counts
                            game_state winner_idx results);
  mret winner_idx.

(** [Game.play]. *)
Definition play (fuel : nat) (first_move : option Z) : M Z :=
  '(numbers, first_idx, first_draw) ← deal fuel first_move;
  total_counts ← lift (total_digit_counts numbers);
  conclude fuel numbers first_idx first_draw total_counts [] None.

(** The [for] loop of [Game.play_many]. *)
Fixpoint play_many_loop (fuel : nat) (n_rounds : nat) (winner_idxs : list Z)
    (last_winner_idx : option Z) : M (list Z) :=
  match n_rounds with
  | O => mret winner_idxs
  | S n_rounds =>
      winner_idx ← play fuel last_winner_idx;
      play_many_loop fuel n_rounds (winner_idxs ++ [winner_idx])
        (if winner_idx =? -1 then None else Some winner_idx)
  end.

(** [Game.play_many]. *)
Definition play_many (fuel : nat) (n_rounds : Z) : M (list Z) :=
  play_many_loop fuel (Z.to_nat n_rounds) [] None.

(** The player who moved first in a round: the head of its log. *)
Definition first_mover (r : Round) : option Z :=
  (fun m : MoveRecord => m.1.1) <$> head (game_state r).

(** The state of the game loop between two turns: nothing is logged and
    there is no previous bet, or the last move logged is the previous bet,
    made by one of the players. *)
Definition in_play (game_state : GameState) (prev : option (Z * Action)) : Prop :=
  match prev with
  | None => game_state = []
  | Some (prev_idx, prev_action) =>
      (exists earlier elapsed,
         game_state = earlier ++ [(prev_idx, elapsed, prev_action)]) /\
      is_bet prev_action = true /\
      0 <= prev_idx < n_players
  end.


(** How a round got its first mover: the index it was given, or a draw of
    [np.random.randint(len(players))]. *)
Definition first_mover_from (first_move : option Z) (r : Round) : Prop :=
  match first_move with
  | Some f => first_mover r = Some f /\ first_draw r = None
  | None => exists e, first_mover r = Some (randint 0 n_players e).1 /\
                      first_draw r = first_mover r
  end.


End game.
End game.
Import game.

(** ** A scripted world *)

(** A world to run the engine in: the random generator reads its draws
    from a script (reduced into the requested range; the lower bound once
    the script is used up), the timer shows nothing, and players keep no
    memory. *)
Module scripted.

Definition world : World := {|
  Ext := list Z;
  Time := unit;
  randint := fun low high script =>
    match script with
    | [] => (low, [])
    | x :: script => (low + x mod (high - low), script)
    end;
  default_timer := fun _ => tt;
  time_sub := fun _ _ => tt
|}.

Definition bet (c d : Z) : Action := mkAction false false true (Some c) (Some d).
Definition exact : Action := mkAction true false false None None.
Definition bullshit : Action := mkAction false true false None None.

(** A player who makes the same move whenever asked. *)
Definition always (a : Action) : @PlayerInterface world := {|
  setup := fun e => e;
  start_game := fun _ _ _ e => e;
  make_move := fun _ e => (a, e);
  end_game := fun _ _ _ e => e
|}.

(** A player who raises the count of the last bet by one, on digit 7
    (and opens with one 7). *)
Definition raiser : @PlayerInterface world := {|
  setup := fun e => e;
  start_game := fun _ _ _ e => e;
  make_move := fun state e =>
    match last state with
    | Some (_, _, a) => (bet (default 0 (count a) + 1) 7, e)
    | None => (bet 1 7, e)
    end;
  end_game := fun _ _ _ e => e
|}.

Definition init (script : list Z) : @State world := @mkState world 0 script [].

(** Two players: the first always bets six 7s, the second always answers
    with a terminal claim. *)
Definition duel : list (@PlayerInterface world) := [always (bet 6 7); always exact].
Definition challenge : list (@PlayerInterface world) :=
  [always (bet 6 7); always bullshit].

(** The game loop after the first player's bet. *)
Definition log_after_bet : @GameState world := [(0, tt, bet 6 7)].
Definition state_after_bet : @State world := @mkState world 1 [] [].

(** Totals with five 7s, and with six. *)
Definition five_sevens : list Z := [11; 0; 0; 0; 0; 0; 0; 5; 0; 0].
Definition six_sevens : list Z := [10; 0; 0; 0; 0; 0; 0; 6; 0; 0].

(** The draws of three rounds: two numbers and, when no first mover is
    given, the first mover. *)
Definition three_rounds : list Z := [77777000; 0; 0; 77777700; 0; 1; 2; 0].

Definition after (r : result (Z * @State world)) : @State world :=
  match r with
  | Ret (_, s) => s
  | _ => init []
  end.

Definition after_many (r : result (list Z * @State world)) : @State world :=
  match r with
  | Ret (_, s) => s
  | _ => init []
  end.

(** Two players of whom the first opens with a terminal claim. *)
Definition opening : list (@PlayerInterface world) := [always exact; always (bet 6 7)].

(** A player who makes the same move whenever asked, and whose [end_game]
    writes the result it is given at the end of the script. *)
Definition recorder (a : Action) : @PlayerInterface world :=
  @Build_PlayerInterface world
    (fun e => e)
    (fun _ _ _ e => e)
    (fun _ e => (a, e))
    (fun result _ _ (script : list Z) => script ++ [result]).

Definition recorders : list (@PlayerInterface world) :=
  [recorder (bet 6 7); recorder exact].

(** The states in which the runs used below end. *)
Definition duel_end : @State world :=
  Eval vm_compute in after (play duel 10 None (init [77777000; 0; 0])).
Definition recorders_end : @State world :=
  Eval vm_compute in after (play recorders 10 None (init [77777000; 0; 0])).
Definition three_rounds_end : @State world :=
  Eval vm_compute in after_many (play_many duel 10 3 (init three_rounds)).

End scripted.

(** ** Reading digits and logs *)

(** The number a list of decimal digits stands for, most significant
    first. *)
Definition decimal_value (ds : list Z) : Z :=
  foldl (fun acc d => 10 * acc + d) 0 ds.

(** How often [d] occurs in [ds]. *)
Definition occurrences (d : Z) (ds : list Z) : Z :=
  Z.of_nat (length (filter (fun x => x = d) ds)).

Module log.
Section log.
Context `{World}.

(** The player and the claim of an entry of the log. *)
Definition mover (m : MoveRecord) : Z := m.1.1.
Definition claim (m : MoveRecord) : Action := m.2.

(** Every entry of [log] passed [ensure_valid_raise] against the entry
    before it, the first one against [prev]. *)
Fixpoint raises_from (prev : option Action) (log : GameState) : Prop :=
  match log with
  | [] => True
  | m :: log =>
      returns (ensure_valid_raise (claim m) prev) /\ raises_from (Some (claim m)) log
  end.

End log.
End log.
Import log.

(** ** naive_player.py *)

Module naive_player.
Import PrimFloat.

(** The exceptions that can leave a method of [NaivePlayer]. *)
Inductive error : Type :=
  | AttributeError      (* an attribute is read before it was assigned *)
  | OverflowError       (* int too large to convert to float *)
  | SleepLength         (* time.sleep of a negative length, or of NaN *)
  | EmptySequence       (* np.random.choice of an empty sequence *)
  | Raised (e : exn).   (* raised by action.py or number.py, or by Python itself *)

Inductive outcome (A : Type) : Type :=
  | Done (a : A)
  | Fails (e : error)
  | NoFuel.
Arguments Done {A} a.
Arguments Fails {A} e.
Arguments NoFuel {A}.

(** The attributes of a [NaivePlayer].  [number], [player_idx] and
    [n_players] are fields without a value ([field(init=False)]): they do
    not exist until they are assigned.  [player_idxs] is the attribute that
    [start_game] creates. *)
Record NaivePlayer : Type := mkNaivePlayer {
  name : string;
  number : option Z;
  player_idx : option Z;
  n_players : option Z;
  player_idxs : option Z
}.

(** What the generator, the clock and the process scheduler will answer,
    by the number of the request. *)
Record Oracle : Type := mkOracle {
  ints : nat -> Z;
  floats : nat -> float;
  picks : nat -> nat;
  clock : nat -> float
}.

Inductive level : Type := INFO | WARNING.

(** The outside of the engine in a game of [NaivePlayer]s: the oracle and
    the number of requests made to it, the player objects by reference, the
    records handed to the logger, and the exception that left a method, if
    one did. *)
Record Outside : Type := mkOutside {
  oracle : Oracle;
  events : nat;
  objects : nat -> NaivePlayer;
  logged : list (level * string);
  escaped : option error
}.

Definition tick (o : Outside) : Outside :=
  mkOutside (oracle o) (S (events o)) (objects o) (logged o) (escaped o).

(** [np.random.randint(low, high)] answers a value of [[low, high)];
    [default_timer()] reads the clock; readings are floats. *)
Definition world : World := {|
  Ext := Outside;
  Time := float;
  randint := fun low high o =>
    (low + ints (oracle o) (events o) mod (high - low), tick o);
  default_timer := fun o => clock (oracle o) (events o);
  time_sub := sub
|}.

Definition N (A : Type) : Type := Outside -> outcome (A * Outside).

#[global] Instance N_ret : MRet N := fun A a o => Done (a, o).
#[global] Instance N_bind : MBind N := fun A B f m o =>
  match m o with
  | Done (a, o') => f a o'
  | Fails e => Fails e
  | NoFuel => NoFuel
  end.

Definition fails {A} (e : error) : N A := fun _ => Fails e.

(** A call of a function of action.py or number.py. *)
Definition of_result {A} (r : result A) : N A := fun o =>
  match r with
  | Ret a => Done (a, o)
  | Raise e => Fails (Raised e)
  | OutOfFuel => NoFuel
  end.

(** Reading an attribute of [self]. *)
Definition getattr {A} (attribute : option A) : N A :=
  match attribute with
  | Some a => mret a
  | None => fails AttributeError
  end.

(** [np.random.random()]: a float of [[0.0, 1.0)]. *)
Definition np_random_random : N float := fun o =>
  Done (floats (oracle o) (events o), tick o).

(** [np.random.choice(a)] on a list. *)
Definition np_random_choice {A} (a : list A) : N A := fun o =>
  match a !! (picks (oracle o) (events o) mod length a)%nat with
  | Some x => Done (x, tick o)
  | None => Fails EmptySequence
  end.

(** [time.sleep(secs)], for lengths far below the range of the timer. *)
Definition time_sleep (secs : float) : N unit := fun o =>
  if (0 <=? secs)%float then Done (tt, tick o) else Fails SleepLength.

(** [LOG.info(msg)] and [LOG.warning(msg)]. *)
Definition log (lvl : level) (msg : string) : N unit := fun o =>
  Done (tt, mkOutside (oracle o) (events o) (objects o)
                      (logged o ++ [(lvl, msg)]) (escaped o)).

(** The conversion of a Python [int] to a [float], as [float * int] does
    it: to the nearest double, ties to even, with an [OverflowError] beyond
    the doubles. *)
Definition float_of_int (x : Z) : N float :=
  let f := FloatOps.SF2Prim
             (SpecFloat.binary_normalize FloatOps.prec FloatOps.emax x 0 false) in
  if is_infinity f then fails OverflowError else mret f.

(** [x * y] for a float [x] and an attribute [y] that is an [int] or
    [None]. *)
Definition float_mul (x : float) (y : option Z) : N float :=
  match y with
  | Some y => f ← float_of_int y; mret (x * f)%float
  | None => fails (Raised TypeError)
  end.

(** [x + y] for an attribute [x] that is an [int] or [None]. *)
Definition int_add (x : option Z) (y : Z) : N Z :=
  match x with
  | Some x => mret (x + y)
  | None => fails (Raised TypeError)
  end.

(** [state[-1]]. *)
Definition last_item {A} (l : list A) : N A :=
  match last l with
  | Some x => mret x
  | None => fails (Raised IndexError)
  end.

(** The double closest to 0.2, which Python reads the literal [0.2] as. *)
Definition one_fifth : float := 0x1.999999999999ap-3%float.

Definition setup (self : NaivePlayer) : N unit :=
  r ← np_random_random;
  time_sleep (r * 0.5)%float.

(** [start_game]: the object after the three assignments. *)
Definition start_game (self : NaivePlayer) (number player_idx n_players : Z)
  : NaivePlayer :=
  mkNaivePlayer (name self) (Some number) (naive_player.player_idx self)
                (Some n_players) (Some player_idx).

Definition get_random_digit (self : NaivePlayer) : N Z :=
  number ← getattr (number self);
  ch ← np_random_choice (list_ascii_of_string (to_str number));
  of_result (int_of_char ch).

Definition make_move (self : NaivePlayer) (state : @GameState world) : N Action :=
  if (length state =? 0)%nat then
    digit ← get_random_digit self;
    of_result (make_bet 1 digit)
  else
    r ← np_random_random;
    _ ← time_sleep (r * 0.5)%float;
    '(last_player, last_duration, last_action) ← last_item state;
    p_bullshit ← float_mul one_fifth (count last_action);
    r ← np_random_random;
    if (r <? p_bullshit)%float then of_result make_bullshit
    else
      count ← int_add (count last_action) 1;
      digit ← get_random_digit self;
      of_result (make_bet count digit).

Definition end_game (self : NaivePlayer) (result : Z) (state : @GameState world)
    (numbers : list Z) : N unit :=
  if result =? 1 then log INFO (name self ++ ": I won!")
  else if result =? 0 then log INFO (name self ++ ": Aww shucks!")
  else if result =? -1 then log INFO (name self ++ ": I was expecting worse!")
  else log WARNING (name self ++ ": Huh?").

(** A method called by the engine.  An exception that leaves a method of a
    player ends [play]; the engine above takes players whose methods
    return, so the exception is kept in [escaped] and the call answers
    [default] without any other effect. *)
Definition method {A} (default : A) (m : N A) (o : Outside) : A * Outside :=
  match m o with
  | Done (a, o') => (a, o')
  | Fails e => (default, mkOutside (oracle o) (events o) (objects o) (logged o)
                                   (Some e))
  | NoFuel => (default, o)
  end.

Definition setattr (ref : nat) (self : NaivePlayer) : N unit := fun o =>
  Done (tt, mkOutside (oracle o) (events o)
                      (fun r => if decide (r = ref) then self else objects o r)
                      (logged o) (escaped o)).

(** The object [ref] as a player of the engine. *)
Definition player (ref : nat) : @PlayerInterface world :=
  @Build_PlayerInterface world
    (fun o => (method tt (setup (objects o ref)) o).2)
    (fun number player_idx n_players o =>
       (method tt (setattr ref (start_game (objects o ref) number player_idx
                                           n_players)) o).2)
    (fun state o =>
       method (mkAction false true false None None)
              (make_move (objects o ref) state) o)
    (fun result state numbers o =>
       (method tt (end_game (objects o ref) result state numbers) o).2).

(** [Game(players)] with the objects 0, 1, ..., [n - 1]. *)
Definition table (n : nat) : list (@PlayerInterface world) :=
  map player (seq 0 n).

(** A float of [[0.0, 1.0)]. *)
Definition unit_interval (r : float) : Prop :=
  (0 <=? r)%float = true /\ (r <? 1)%float = true.

(** The digit of the claim of [m] occurs in the number dealt to the player
    who made it. *)
Definition own_digit (numbers : list Z) (m : @MoveRecord world) : Prop :=
  exists x d counts actual,
    numbers !! Z.to_nat (mover m) = Some x /\ digit (claim m) = Some d /\
    to_counts x = Ret counts /\ np_index counts d = Ret actual /\ 1 <= actual.

(** The outside between two moves of a round at a table of [n] players: no
    exception has left a method, the generator keeps to [[0.0, 1.0)], and
    each player holds the number dealt to it. *)
Definition seated (n : nat) (numbers : list Z) (o : Outside) : Prop :=
  escaped o = None /\
  (forall k, unit_interval (floats (oracle o) k)) /\
  forall ref, (ref < n)%nat ->
    exists x, numbers !! ref = Some x /\ 0 <= x < 10 ^ 8 /\
              number (objects o ref) = Some x.

(** What [end_game] logs for the player [ref] of a round won by
    [winner]. *)
Definition verdict (o : Outside) (winner : Z) (ref : nat) : level * string :=
  (INFO, String.append (name (objects o ref))
                        (if Z.of_nat ref =? winner then ": I won!"%string
                         else ": Aww shucks!"%string)).

(** A world to run a table in: players fresh from the constructor, a
    generator that draws 12345678 and 23456789 and then zeros, always 0.5
    from [random()], and the digits of a number in turn from [choice]. *)
Definition fresh (name : string) : NaivePlayer :=
  mkNaivePlayer name None None None None.

Definition steady : Oracle := {|
  ints := fun k => match k with 0%nat => 12345678 | 1%nat => 23456789 | _ => 0 end;
  floats := fun _ => 0.5%float;
  picks := fun k => k;
  clock := fun _ => 0%float
|}.

Definition lobby : Outside :=
  mkOutside steady 0 (fun _ => fresh "naive") [] None.

Definition start : @State world := @mkState world 0 lobby [].

End naive_player.

(** * Properties *)

Example to_str_42 : to_str 42 = "00000042"%string.
Proof. reflexivity. Qed.

Example to_counts_77777000 :
  to_counts 77777000 = Ret [3; 0; 0; 0; 0; 0; 0; 5; 0; 0].
Proof. reflexivity. Qed.

Example to_counts_negative : to_counts (-5) = Raise (ValueError InvalidLiteral).
Proof. reflexivity. Qed.

Example total_two :
  total_digit_counts [77777000; 0] = Ret [11; 0; 0; 0; 0; 0; 0; 5; 0; 0].
Proof. reflexivity. Qed.

(** ** Results *)

Lemma bind_Ret_inv {A B} (m : result A) (k : A -> result B) (b : B) :
  m ≫= k = Ret b -> exists a, m = Ret a /\ k a = Ret b.
Proof. destruct m as [a| |]; simpl; intros Hk; try discriminate. by exists a. Qed.

Lemma returns_Ret {A} (a : A) : returns (Ret a).
Proof. by exists a. Qed.

Lemma not_returns_Raise {A} (e : exn) : ~ returns (@Raise A e).
Proof. intros [a Ha]. discriminate. Qed.

Lemma not_returns_OutOfFuel {A} : ~ returns (@OutOfFuel A).
Proof. intros [a Ha]. discriminate. Qed.

(** ** Claims and the raise rule *)

Section raise_rule.

Lemma well_formed_bet_inv (a : Action) :
  well_formed_bet a ->
  exists c d, a = mkAction false false true (Some c) (Some d) /\ 1 <= c /\ 0 <= d <= 9.
Proof.
  destruct a as [[] [] [] [c|] [d|]]; unfold well_formed_bet, valid, post_init;
    simpl; intros [Hv Hb]; try discriminate.
  exists c, d. destruct (Z.leb_spec c 0); [discriminate|].
  destruct (Z.leb_spec 0 d), (Z.leb_spec d 9); simpl in Hv; try discriminate.
  repeat split; lia.
Qed.

Lemma make_bet_well_formed (c d : Z) (a : Action) :
  make_bet c d = Ret a <-> a = mkAction false false true (Some c) (Some d) /\ 1 <= c /\ 0 <= d <= 9.
Proof.
  unfold make_bet, new, post_init; simpl.
  destruct (Z.leb_spec c 0); simpl.
  { split; [discriminate | lia]. }
  destruct (Z.leb_spec 0 d), (Z.leb_spec d 9); simpl; split;
    try discriminate; try (intros (_ & _ & ?); lia).
  - intros [= <-]. repeat split; lia.
  - by intros (-> & _).
Qed.

Lemma make_bet_is_well_formed (c d : Z) (a : Action) :
  make_bet c d = Ret a -> well_formed_bet a.
Proof.
  intros (-> & Hc & Hd)%make_bet_well_formed.
  unfold well_formed_bet, valid, post_init; simpl.
  destruct (Z.leb_spec c 0); [lia|].
  destruct (Z.leb_spec 0 d), (Z.leb_spec d 9); simpl; try lia. done.
Qed.

Lemma valid_tags (a : Action) :
  valid a ->
  (is_exact a = true /\ is_bullshit a = false /\ is_bet a = false) \/
  (is_exact a = false /\ is_bullshit a = true /\ is_bet a = false) \/
  (is_exact a = false /\ is_bullshit a = false /\ is_bet a = true).
Proof.
  unfold valid, post_init.
  destruct (is_exact a), (is_bullshit a), (is_bet a); simpl; intros Hv;
    try discriminate; tauto.
Qed.

(** The raise rule on the counts and digits of two bets. *)
Lemma ensure_valid_raise_bets (c2 d2 c1 d1 : Z) (e2 b2 e1 b1 : bool) :
  ensure_valid_raise (mkAction e2 b2 true (Some c2) (Some d2))
                     (Some (mkAction e1 b1 true (Some c1) (Some d1)))
  = if (d1 <? d2) || (c1 <? c2) then Ret None else Raise (ValueError InvalidRaise).
Proof.
  unfold ensure_valid_raise; simpl.
  destruct (d1 <? d2); simpl; [done|]. by destruct (c1 <? c2).
Qed.

(** C4: on two well-formed bets [ensure_valid_raise] returns exactly when
    the digit or the count strictly increases, and raises the
    invalid-raise [ValueError] otherwise; a higher digit with a lower count
    and a higher count with a lower digit are both accepted; without a
    previous bet every well-formed bet is accepted. *)
Theorem ensure_valid_raise_spec (bet previous_bet : Action) (c2 d2 c1 d1 : Z) :
  well_formed_bet bet -> well_formed_bet previous_bet ->
  count bet = Some c2 -> digit bet = Some d2 ->
  count previous_bet = Some c1 -> digit previous_bet = Some d1 ->
  (returns (ensure_valid_raise bet (Some previous_bet)) <-> d2 > d1 \/ c2 > c1) /\
  (~ (d2 > d1 \/ c2 > c1) ->
     ensure_valid_raise bet (Some previous_bet) = Raise (ValueError InvalidRaise)) /\
  (d2 > d1 /\ c2 < c1 -> returns (ensure_valid_raise bet (Some previous_bet))) /\
  (c2 > c1 /\ d2 < d1 -> returns (ensure_valid_raise bet (Some previous_bet))) /\
  returns (ensure_valid_raise bet None).
Proof.
  intros (c & d & -> & _)%well_formed_bet_inv (c' & d' & -> & _)%well_formed_bet_inv.
  intros Hc2 Hd2 Hc1 Hd1. cbn in Hc2, Hd2, Hc1, Hd1. simplify_eq.
  rewrite ensure_valid_raise_bets.
  destruct (Z.ltb_spec d1 d2), (Z.ltb_spec c1 c2); simpl;
    repeat split; intros; try apply returns_Ret; try lia;
    try (exfalso; eapply not_returns_Raise; eassumption);
    try (exfalso; lia); try done.
  all: try (left; lia); try (right; lia).
Qed.

(** From two 3s: two 5s and one 5 are raises, two 2s is not. *)
Example raise_digit :
  ensure_valid_raise (scripted.bet 2 5) (Some (scripted.bet 2 3)) = Ret None.
Proof. reflexivity. Qed.

Example raise_digit_lower_count :
  ensure_valid_raise (scripted.bet 1 5) (Some (scripted.bet 2 3)) = Ret None.
Proof. reflexivity. Qed.

Example no_raise :
  ensure_valid_raise (scripted.bet 2 2) (Some (scripted.bet 2 3))
  = Raise (ValueError InvalidRaise).
Proof. reflexivity. Qed.

Example bet_after_terminal :
  ensure_valid_raise (scripted.bet 2 2) (Some scripted.exact)
  = Raise (ValueError ActionAfterTerminal).
Proof. reflexivity. Qed.

End raise_rule.

(** ** The digit-count model *)

Section digit_counts.

(** A set of integers of [[0, m)] has at most [m] elements. *)
Lemma size_bounded (X : gset Z) (m : Z) :
  0 <= m -> (forall x, x ∈ X -> 0 <= x < m) -> Z.of_nat (size X) <= m.
Proof.
  intros Hm HX.
  assert (X ⊆ list_to_set (seqZ 0 m)) as Hsub.
  { intros x Hx. apply elem_of_list_to_set, elem_of_seqZ. specialize (HX x Hx). lia. }
  apply subseteq_size in Hsub.
  rewrite size_list_to_set, length_seqZ in Hsub by apply NoDup_seqZ. lia.
Qed.

Lemma decimal_digits_spec (fuel : nat) :
  forall (x : Z) (acc : list Z) (k : nat),
    0 <= x < 2 ^ Z.of_nat fuel -> (1 <= fuel)%nat ->
    x < 10 ^ Z.of_nat k -> (1 <= k)%nat ->
    exists ds, decimal_digits fuel x acc = ds ++ acc /\
               Forall is_digit ds /\ (length ds <= k)%nat.
Proof.
  induction fuel as [|fuel IH]; intros x acc k Hx Hfuel Hk Hk1; [lia|].
  simpl. destruct (Z.ltb_spec x 10) as [Hlt|Hge].
  - exists [x]. repeat split; [|simpl; lia].
    constructor; [unfold is_digit; lia | constructor].
  - destruct k as [|k]; [lia|].
    rewrite Nat2Z.inj_succ, Z.pow_succ_r in Hx, Hk by lia.
    assert (k <> 0%nat) as Hk0.
    { intros ->. simpl in Hk. lia. }
    assert (fuel <> 0%nat) as Hf0.
    { intros ->. simpl in Hx. lia. }
    destruct (IH (x / 10) (x mod 10 :: acc) k) as (ds & Hds & Hdig & Hlen); try lia.
    + split; [apply Z.div_pos; lia|].
      apply Z.div_lt_upper_bound; lia.
    + apply Z.div_lt_upper_bound; lia.
    + exists (ds ++ [x mod 10]). rewrite Hds, <- app_assoc. repeat split.
      * apply Forall_app. split; [done|].
        constructor; [|constructor].
        unfold is_digit. pose proof (Z.mod_pos_bound x 10). lia.
      * rewrite length_app. simpl. lia.
Qed.

Lemma digits_of_spec (x : Z) (k : nat) :
  0 <= x < 10 ^ Z.of_nat k -> (1 <= k)%nat ->
  Forall is_digit (digits_of x) /\ (length (digits_of x) <= k)%nat.
Proof.
  intros Hx Hk. unfold digits_of.
  destruct (decimal_digits_spec (S (Z.to_nat (Z.log2 x))) x [] k) as (ds & -> & ? & ?);
    try lia.
  - rewrite Nat2Z.inj_succ, Z2Nat.id by apply Z.log2_nonneg.
    destruct (Z.eq_dec x 0) as [->|]; [simpl; lia|].
    pose proof (Z.log2_spec x). lia.
  - by rewrite app_nil_r.
Qed.

(** A number below [10 ^ 8] prints as eight digits. *)
Lemma format_0d_digits (x : Z) :
  0 <= x < 10 ^ 8 ->
  exists ds, format_0d NUM_DIGITS x = map digit_char ds /\
             Forall is_digit ds /\ length ds = 8%nat.
Proof.
  intros Hx. unfold format_0d, NUM_DIGITS.
  destruct (Z.ltb_spec x 0); [lia|]. rewrite Z.abs_eq by lia.
  destruct (digits_of_spec x 8) as [Hdig Hlen]; [done | lia |].
  exists (replicate (8 - length (digits_of x)) 0 ++ digits_of x). repeat split.
  - rewrite map_app, app_nil_l. f_equal.
    change (Z.to_nat 8 - length (@nil ascii))%nat with 8%nat.
    generalize (8 - length (digits_of x))%nat. intros m.
    induction m as [|m IHm]; simpl; [done | by rewrite <- IHm].
  - apply Forall_app. split; [|done].
    apply Forall_replicate. unfold is_digit. lia.
  - rewrite length_app, length_replicate. lia.
Qed.

Lemma int_of_digit_char (d : Z) : is_digit d -> int_of_char (digit_char d) = Ret d.
Proof.
  unfold is_digit. intros Hd.
  assert (d = 0 \/ d = 1 \/ d = 2 \/ d = 3 \/ d = 4 \/ d = 5 \/ d = 6 \/ d = 7 \/
          d = 8 \/ d = 9) as Hcases by lia.
  repeat (destruct Hcases as [-> | Hcases]; [reflexivity|]). by subst.
Qed.

Lemma sum_entries_nonneg (v : list Z) : Forall (Z.le 0) v -> 0 <= sum_entries v.
Proof. induction 1; simpl; lia. Qed.

Lemma sum_entries_lookup_le (v : list Z) (i : nat) (x : Z) :
  Forall (Z.le 0) v -> v !! i = Some x -> 0 <= x <= sum_entries v.
Proof.
  intros Hv. revert i. induction Hv as [|y v Hy Hv IH]; intros [|i] Hi;
    simplify_eq/=.
  - pose proof (sum_entries_nonneg v Hv). lia.
  - specialize (IH _ Hi). lia.
Qed.

Lemma sum_entries_insert (v : list Z) (i : nat) (x y : Z) :
  v !! i = Some x -> sum_entries (<[i := y]> v) = sum_entries v - x + y.
Proof.
  revert i. induction v as [|z v IH]; intros [|i] Hi; simplify_eq/=; [lia|].
  rewrite (IH _ Hi). lia.
Qed.

(** One pass of the loop of [to_counts] over the characters of digits. *)
Lemma count_digits_spec (ds : list Z) :
  forall counts : list Z,
    Forall is_digit ds -> length counts = 10%nat -> Forall (Z.le 0) counts ->
    sum_entries counts + Z.of_nat (length ds) < 2 ^ 8 ->
    exists v,
      foldl (fun acc ch => counts ← acc; d ← int_of_char ch; np_incr counts d)
            (Ret counts) (map digit_char ds) = Ret v /\
      length v = 10%nat /\ Forall (Z.le 0) v /\
      sum_entries v = sum_entries counts + Z.of_nat (length ds).
Proof.
  induction ds as [|d ds IH]; intros counts Hds Hlen Hpos Hsum.
  { exists counts. simpl. repeat split; try done. lia. }
  apply Forall_cons in Hds as [Hd Hds]. cbn [map foldl mbind result_bind].
  rewrite (int_of_digit_char d Hd). cbn [mbind result_bind].
  unfold is_digit in Hd.
  destruct (lookup_lt_is_Some_2 counts (Z.to_nat d)) as [c Hc]; [lia|].
  destruct (sum_entries_lookup_le counts _ _ Hpos Hc) as [Hc0 Hcs].
  unfold np_incr, np_index. rewrite Hlen.
  destruct (Z.ltb_spec d 0); [lia|].
  destruct (Z.leb_spec 0 d); [|lia].
  destruct (Z.ltb_spec d (Z.of_nat 10)); [|lia].
  cbn [andb mbind result_bind]. rewrite Hc. cbn [mbind result_bind].
  cbn [length] in Hsum.
  assert (uint8_add c 1 = c + 1) as ->.
  { unfold uint8_add. apply Z.mod_small. lia. }
  destruct (IH (<[Z.to_nat d := c + 1]> counts)) as (v & Hv & Hvlen & Hvpos & Hvsum);
    try done.
  - by rewrite length_insert.
  - apply Forall_insert; [done | lia].
  - rewrite (sum_entries_insert _ _ c) by done. lia.
  - exists v. repeat split; try done.
    rewrite Hvsum, (sum_entries_insert _ _ c) by done. cbn [length]. lia.
Qed.

Lemma to_counts_spec (x : Z) :
  0 <= x < 10 ^ 8 ->
  exists v, to_counts x = Ret v /\ length v = 10%nat /\ Forall (Z.le 0) v /\
            sum_entries v = 8.
Proof.
  intros Hx. destruct (format_0d_digits x Hx) as (ds & Hfmt & Hds & Hlen).
  unfold to_counts, to_str. rewrite list_ascii_of_string_of_list_ascii, Hfmt.
  destruct (count_digits_spec ds (replicate 10 0)) as (v & Hv & ? & ? & Hsum);
    try done.
  - by apply Forall_replicate.
  - rewrite Hlen. simpl. lia.
  - exists v. repeat split; try done. rewrite Hsum, Hlen. reflexivity.
Qed.

Lemma mapM_to_counts (numbers : list Z) :
  Forall (fun x => 0 <= x < 10 ^ 8) numbers ->
  exists rows, mapM to_counts numbers = Ret rows /\
               length rows = length numbers /\ Forall counts_of_number rows.
Proof.
  induction 1 as [|x numbers Hx _ (rows & Hrows & Hlen & Hall)].
  { exists []. by repeat split. }
  destruct (to_counts_spec x Hx) as (v & Hv & Hv').
  exists (v :: rows). cbn [mapM]. rewrite Hv. cbn [mbind result_bind].
  rewrite Hrows. cbn [mbind result_bind]. repeat split.
  - cbn [length]. by rewrite Hlen.
  - by constructor.
Qed.

Lemma zip_with_uint64_add (a : list Z) :
  forall b : list Z,
    length a = length b -> Forall (Z.le 0) a -> Forall (Z.le 0) b ->
    sum_entries a + sum_entries b < 2 ^ 64 ->
    length (zip_with uint64_add a b) = length a /\
    Forall (Z.le 0) (zip_with uint64_add a b) /\
    sum_entries (zip_with uint64_add a b) = sum_entries a + sum_entries b.
Proof.
  induction a as [|x a IH]; intros [|y b] Hlen Ha Hb Hsum; try discriminate.
  { by repeat split. }
  apply Forall_cons in Ha as [Hx Ha]. apply Forall_cons in Hb as [Hy Hb].
  pose proof (sum_entries_nonneg a Ha). pose proof (sum_entries_nonneg b Hb).
  cbn [sum_entries foldr] in Hsum. fold (sum_entries a) (sum_entries b) in Hsum.
  destruct (IH b) as (Hl & Hp & Hs); try done.
  { by injection Hlen. }
  { lia. }
  cbn [zip_with length sum_entries foldr].
  fold (sum_entries a) (sum_entries b) (sum_entries (zip_with uint64_add a b)).
  assert (uint64_add x y = x + y) as ->.
  { unfold uint64_add. apply Z.mod_small. lia. }
  repeat split.
  - by rewrite Hl.
  - constructor; [lia | done].
  - rewrite Hs. lia.
Qed.

Lemma foldl_zip_with_uint64_add (rows : list (list Z)) :
  forall acc : list Z,
    length acc = 10%nat -> Forall (Z.le 0) acc -> Forall counts_of_number rows ->
    sum_entries acc + 8 * Z.of_nat (length rows) < 2 ^ 64 ->
    sum_entries (foldl (zip_with uint64_add) acc rows)
    = sum_entries acc + 8 * Z.of_nat (length rows).
Proof.
  induction rows as [|r rows IH]; intros acc Hlen Hpos Hrows Hsum.
  { cbn [foldl length]. lia. }
  apply Forall_cons in Hrows as [(Hr1 & Hr2 & Hr3) Hrows].
  cbn [length] in Hsum. cbn [foldl length].
  destruct (zip_with_uint64_add acc r) as (Hl & Hp & Hs); try done; try lia.
  rewrite IH; try done; try lia.
Qed.

Lemma np_sum_axis0_sum (rows : list (list Z)) :
  Forall counts_of_number rows -> 8 * Z.of_nat (length rows) < 2 ^ 64 ->
  sum_entries (np_sum_axis0 rows) = 8 * Z.of_nat (length rows).
Proof.
  destruct rows as [|r rows]; [done|]. intros Hrows Hsum.
  apply Forall_cons in Hrows as [(Hr1 & Hr2 & Hr3) Hrows].
  cbn [length] in Hsum. cbn [np_sum_axis0 length].
  rewrite foldl_zip_with_uint64_add; try done; lia.
Qed.

Lemma foldl_zip_with_length (rows : list (list Z)) :
  forall acc : list Z,
    length acc = 10%nat -> Forall counts_of_number rows ->
    length (foldl (zip_with uint64_add) acc rows) = 10%nat.
Proof.
  induction rows as [|r rows IH]; intros acc Hlen Hrows; [done|].
  apply Forall_cons in Hrows as [(Hr & _) Hrows]. cbn [foldl].
  apply IH; [|done]. rewrite length_zip_with. lia.
Qed.

(** The total over the numbers of a round can be indexed by any digit. *)
Lemma total_digit_counts_returns (numbers : list Z) (d : Z) :
  Forall (fun x => 0 <= x < 10 ^ 8) numbers -> numbers <> [] -> is_digit d ->
  exists total actual,
    total_digit_counts numbers = Ret total /\ np_index total d = Ret actual.
Proof.
  intros Hnumbers Hne Hd.
  destruct (mapM_to_counts numbers Hnumbers) as (rows & Hrows & Hlen & Hall).
  unfold total_digit_counts. rewrite Hrows. cbn [mbind result_bind].
  destruct rows as [|r rows]; [by destruct numbers|].
  apply Forall_cons in Hall as [(Hr & _) Hall].
  pose proof (foldl_zip_with_length rows r Hr Hall) as Htotal.
  cbn [np_sum_axis0]. unfold is_digit in Hd.
  destruct (lookup_lt_is_Some_2 (foldl (zip_with uint64_add) r rows) (Z.to_nat d))
    as [actual Hactual]; [lia|].
  exists (foldl (zip_with uint64_add) r rows), actual. split; [done|].
  unfold np_index. rewrite Htotal.
  destruct (Z.ltb_spec d 0); [lia|].
  destruct (Z.leb_spec 0 d); [|lia].
  destruct (Z.ltb_spec d (Z.of_nat 10)); [|lia].
  cbn [andb]. by rewrite Hactual.
Qed.

(** Distinct numbers below [10 ^ 8] are few enough for the accumulator. *)
Lemma distinct_numbers_fit (numbers : list Z) :
  NoDup numbers -> Forall (fun x => 0 <= x < 10 ^ 8) numbers ->
  8 * Z.of_nat (length numbers) < 2 ^ 64.
Proof.
  intros Hnodup Hnumbers.
  rewrite <- (size_list_to_set (C := gset Z)) by done.
  assert (Z.of_nat (size (list_to_set (C := gset Z) numbers)) <= 10 ^ 8); [|lia].
  apply size_bounded; [done|].
  intros x Hx%elem_of_list_to_set. by rewrite Forall_forall in Hnumbers; apply Hnumbers.
Qed.

(** C7: the digit counts of a number below [10 ^ 8] sum to 8, and the
    entries of the elementwise total over [n] such numbers sum to [8 * n]
    (the total is accumulated in 64 bits, which [8 * n] must fit). *)
Theorem digit_counts_sum (x : Z) (numbers : list Z) :
  0 <= x < 10 ^ 8 ->
  Forall (fun x => 0 <= x < 10 ^ 8) numbers ->
  8 * Z.of_nat (length numbers) < 2 ^ 64 ->
  (exists v, to_counts x = Ret v /\ sum_entries v = 8) /\
  (exists total, total_digit_counts numbers = Ret total /\
                 sum_entries total = 8 * Z.of_nat (length numbers)).
Proof.
  intros Hx Hnumbers Hfit. split.
  - destruct (to_counts_spec x Hx) as (v & Hv & _ & _ & Hsum). by exists v.
  - destruct (mapM_to_counts numbers Hnumbers) as (rows & Hrows & Hlen & Hall).
    exists (np_sum_axis0 rows). unfold total_digit_counts.
    rewrite Hrows. cbn [mbind result_bind]. split; [done|].
    rewrite <- Hlen in *. by apply np_sum_axis0_sum.
Qed.

Lemma digit_counts_sum_witness :
  (exists v, to_counts 77777000 = Ret v /\ sum_entries v = 8) /\
  (exists total, total_digit_counts [77777000; 0] = Ret total /\
                 sum_entries total = 8 * Z.of_nat (length [77777000; 0])).
Proof.
  apply (digit_counts_sum 77777000 [77777000; 0]).
  - lia.
  - repeat constructor; lia.
  - vm_compute. reflexivity.
Defined.

End digit_counts.

(** ** The engine *)


Section engine.
Context `{World}.

Lemma M_bind_eq {A B} (m : M A) (k : A -> M B) (s : State) :
  (m ≫= k) s = match m s with
               | Ret (a, s') => k a s'
               | Raise e => Raise e
               | OutOfFuel => OutOfFuel
               end.
Proof. reflexivity. Qed.

Lemma M_bind_Ret_inv {A B} (m : M A) (k : A -> M B) (s s' : State) (b : B) :
  (m ≫= k) s = Ret (b, s') ->
  exists a s1, m s = Ret (a, s1) /\ k a s1 = Ret (b, s').
Proof.
  rewrite M_bind_eq. destruct (m s) as [[a s1]| |]; try discriminate.
  intros Hk. by exists a, s1.
Qed.

Lemma lift_Ret_inv {A} (r : result A) (s s' : State) (a : A) :
  lift r s = Ret (a, s') -> r = Ret a /\ s' = s.
Proof. destruct r; simpl; intros Hr; by simplify_eq. Qed.

(** *** Unique numbers *)

Section draws_in_range.
Hypothesis randint_range : forall low high e,
  low < high -> low <= (randint low high e).1 < high.

Lemma get_random_number_range (s : State) :
  exists x s', get_random_number s = Ret (x, s') /\ 0 <= x < 10 ^ 8.
Proof.
  unfold get_random_number, np_random_randint, NUM_DIGITS.
  destruct (Z.ltb_spec 0 (10 ^ 8)) as [Hlt|]; [|lia].
  unfold call. pose proof (randint_range 0 (10 ^ 8) (ext s) Hlt) as Hr.
  destruct (randint 0 (10 ^ 8) (ext s)) as [x e]. by eexists _, _.
Qed.

(** Beyond the size of the number space the loop never stops. *)
Lemma get_random_numbers_loop_diverges (n : Z) (fuel : nat) :
  10 ^ 8 < n ->
  forall (numbers : gset Z) (s : State),
    (forall x, x ∈ numbers -> 0 <= x < 10 ^ 8) ->
    get_random_numbers_loop fuel n numbers s = OutOfFuel.
Proof.
  intros Hn. induction fuel as [|fuel IH]; intros numbers s Hnumbers; [done|].
  cbn [get_random_numbers_loop].
  assert (0 <= 10 ^ 8) as H108 by done.
  pose proof (size_bounded numbers _ H108 Hnumbers).
  destruct (Z.ltb_spec (Z.of_nat (size numbers)) n); [|lia].
  rewrite M_bind_eq.
  destruct (get_random_number_range s) as (x & s' & -> & Hx).
  apply IH. intros y [->%elem_of_singleton|Hy]%elem_of_union; auto.
Qed.

(** What the loop returns was drawn, or was there before. *)
Lemma get_random_numbers_loop_in_range (m : Z) (fuel : nat) :
  forall (numbers numbers' : gset Z) (s s' : State),
    (forall x, x ∈ numbers -> 0 <= x < 10 ^ 8) ->
    get_random_numbers_loop fuel m numbers s = Ret (numbers', s') ->
    forall x, x ∈ numbers' -> 0 <= x < 10 ^ 8.
Proof.
  induction fuel as [|fuel IH]; intros numbers numbers' s s' Hnumbers; [done|].
  cbn [get_random_numbers_loop].
  destruct (Z.of_nat (size numbers) <? m); [|by intros [= <- <-]].
  rewrite M_bind_eq.
  destruct (get_random_number_range s) as (x & s1 & -> & Hx).
  apply IH. intros y [->%elem_of_singleton|Hy]%elem_of_union; auto.
Qed.

Lemma get_random_numbers_in_range (m : Z) (fuel : nat) (l : list Z) (s s' : State) :
  get_random_numbers fuel m s = Ret (l, s') ->
  Forall (fun x => 0 <= x < 10 ^ 8) l.
Proof.
  unfold get_random_numbers.
  intros (numbers & s1 & Hloop & [= <- <-])%M_bind_Ret_inv.
  apply Forall_forall. intros x Hx%elem_of_elements.
  eapply get_random_numbers_loop_in_range; [|exact Hloop|exact Hx].
  intros y Hy. by apply not_elem_of_empty in Hy.
Qed.

End draws_in_range.

(** When the loop stops, the set holds at least [n] numbers. *)
Lemma get_random_numbers_loop_size (n : Z) (fuel : nat) :
  forall (numbers numbers' : gset Z) (s s' : State),
    get_random_numbers_loop fuel n numbers s = Ret (numbers', s') ->
    n <= Z.of_nat (size numbers') /\ gen s' = gen s /\ rounds s' = rounds s.
Proof.
  induction fuel as [|fuel IH]; intros numbers numbers' s s'; [done|].
  cbn [get_random_numbers_loop].
  destruct (Z.ltb_spec (Z.of_nat (size numbers)) n).
  - intros (x & s1 & Hx & Hloop)%M_bind_Ret_inv.
    apply IH in Hloop as (? & -> & ->). split; [done|].
    unfold get_random_number, np_random_randint in Hx.
    destruct (0 <? 10 ^ NUM_DIGITS); [|done].
    unfold call in Hx. destruct (randint _ _ _). by simplify_eq.
  - intros [= <- <-]. done.
Qed.

Lemma get_random_numbers_length (n : Z) (fuel : nat) (l : list Z) (s s' : State) :
  get_random_numbers fuel n s = Ret (l, s') ->
  n <= Z.of_nat (length l) /\ NoDup l /\ gen s' = gen s /\ rounds s' = rounds s.
Proof.
  unfold get_random_numbers.
  intros (numbers & s1 & Hloop & [= <- <-])%M_bind_Ret_inv.
  apply get_random_numbers_loop_size in Hloop as (Hn & ? & ?).
  repeat split; try done. apply NoDup_elements.
Qed.

(** The loop never raises. *)
Lemma get_random_numbers_loop_no_raise (n : Z) (fuel : nat) :
  forall (numbers : gset Z) (s : State) (e : exn),
    get_random_numbers_loop fuel n numbers s <> Raise e.
Proof.
  induction fuel as [|fuel IH]; intros numbers s e; [done|].
  cbn [get_random_numbers_loop].
  destruct (Z.of_nat (size numbers) <? n); [|done].
  rewrite M_bind_eq. unfold get_random_number, np_random_randint.
  change (0 <? 10 ^ NUM_DIGITS) with true. cbv iota.
  unfold call. destruct (randint _ _ _). apply IH.
Qed.

(** *** Turn order *)

Variable players : list PlayerInterface.

Local Abbreviation n := (n_players players).

Lemma next_player_inv (s s' : State) (idx : Z) (player : PlayerInterface) :
  next_player players s = Ret ((idx, player), s') ->
  idx = Z.of_nat (gen s mod length players) /\ 0 <= idx < n /\
  players !! (gen s mod length players)%nat = Some player /\
  s' = mkState (S (gen s)) (ext s) (rounds s).
Proof.
  unfold next_player.
  destruct (players !! (gen s mod length players)%nat) as [p|] eqn:Hp; [|done].
  intros [= <- <- <-]. repeat split; try done; try lia.
  apply lookup_lt_Some in Hp. unfold n_players. lia.
Qed.

Lemma next_player_nonempty (s : State) :
  players <> [] ->
  exists player,
    next_player players s
    = Ret ((Z.of_nat (gen s mod length players), player),
           mkState (S (gen s)) (ext s) (rounds s)).
Proof.
  intros Hne. unfold next_player.
  destruct (lookup_lt_is_Some_2 players (gen s mod length players)) as [p ->].
  - apply Nat.mod_upper_bound. by destruct players.
  - by exists p.
Qed.

Lemma next_player_empty (s : State) :
  players = [] -> next_player players s = Raise StopIteration.
Proof. intros Hnil. unfold next_player. by rewrite Hnil. Qed.

(** The index after [Z.of_nat (g mod length players)] in the cycle. *)
Lemma succ_mod (g : nat) :
  players <> [] ->
  (Z.of_nat (g mod length players) + 1) mod n = Z.of_nat (S g mod length players).
Proof.
  intros Hne. unfold n_players.
  assert (length players <> 0%nat) by by destruct players.
  rewrite !Nat2Z.inj_mod, Nat2Z.inj_succ, Z.add_mod_idemp_l by lia.
  f_equal; lia.
Qed.

(** When the fast-forward loop exits, the first mover is a player and is
    the next one the generator yields; nothing else has changed. *)
Lemma fast_forward_inv (fuel : nat) (first_idx : Z) :
  forall s s' : State,
    fast_forward players fuel first_idx s = Ret (tt, s') ->
    0 <= first_idx < n /\
    Z.of_nat (gen s' mod length players) = first_idx /\
    ext s' = ext s /\ rounds s' = rounds s.
Proof.
  induction fuel as [|fuel IH]; intros s s'; [done|].
  cbn [fast_forward]. intros ([idx p] & s1 & Hnext & Hrest)%M_bind_Ret_inv.
  apply next_player_inv in Hnext as (-> & Hidx & Hp & ->).
  assert (players <> []) as Hne by (intros Hnil; by rewrite Hnil in Hp).
  rewrite succ_mod in Hrest by done.
  destruct (Z.eqb_spec (Z.of_nat (S (gen s) mod length players)) first_idx) as [Heq|].
  - injection Hrest as <-. cbn [gen ext rounds]. repeat split; try done; subst first_idx.
    + lia.
    + unfold n_players. apply inj_lt, Nat.mod_upper_bound. by destruct players.
  - apply IH in Hrest as (? & ? & ? & ?). done.
Qed.

(** With a first mover that is no player's index the loop never exits. *)
Lemma fast_forward_diverges (first_idx : Z) (fuel : nat) :
  players <> [] -> ~ (0 <= first_idx < n) ->
  forall s : State, fast_forward players fuel first_idx s = OutOfFuel.
Proof.
  intros Hne Hout. induction fuel as [|fuel IH]; intros s; [done|].
  cbn [fast_forward]. rewrite M_bind_eq.
  destruct (next_player_nonempty s Hne) as [p ->].
  rewrite succ_mod by done.
  destruct (Z.eqb_spec (Z.of_nat (S (gen s) mod length players)) first_idx) as [Heq|].
  - exfalso. apply Hout. subst first_idx. split; [lia|].
    unfold n_players. apply inj_lt, Nat.mod_upper_bound. by destruct players.
  - apply IH.
Qed.

(** With a player's index it exits within one cycle. *)
Lemma fast_forward_terminates (first_idx : Z) (fuel : nat) :
  0 <= first_idx < n ->
  forall s : State,
    ((Z.to_nat first_idx + length players - S (gen s) mod length players)
       mod length players < fuel)%nat ->
    exists s', fast_forward players fuel first_idx s = Ret (tt, s').
Proof.
  intros Hin. assert (players <> []) as Hne.
  { intros Hnil. unfold n_players in Hin. rewrite Hnil in Hin. simpl in Hin. lia. }
  assert (length players <> 0%nat) as Hlen by by destruct players.
  induction fuel as [|fuel IH]; intros s Hdist; [lia|].
  cbn [fast_forward]. rewrite M_bind_eq.
  destruct (next_player_nonempty s Hne) as [p ->].
  rewrite succ_mod by done.
  destruct (Z.eqb_spec (Z.of_nat (S (gen s) mod length players)) first_idx) as [Heq|Hneq].
  { by eexists. }
  apply IH. cbn [gen].
  pose proof (Nat.mod_upper_bound (S (gen s)) (length players) Hlen) as Hb.
  unfold n_players in Hin.
  set (f := Z.to_nat first_idx) in *. set (L := length players) in *.
  set (g1 := (S (gen s) mod L)%nat) in *.
  assert (g1 <> f) as Hgf by (unfold f; lia).
  assert ((f < L)%nat) as HfL by (unfold f; lia).
  assert (S (S (gen s)) mod L = (S g1) mod L)%nat as ->.
  { change (S (S (gen s))) with (1 + S (gen s))%nat. change (S g1) with (1 + g1)%nat.
    unfold g1. by rewrite Nat.Div0.add_mod_idemp_r. }
  destruct (decide (S g1 = L)) as [Hwrap|Hnowrap].
  - rewrite Hwrap, Nat.Div0.mod_same, Nat.sub_0_r.
    replace (f + L)%nat with (f + 1 * L)%nat by lia.
    rewrite Nat.Div0.mod_add, Nat.mod_small by lia.
    destruct (decide (f < g1)%nat).
    + rewrite (Nat.mod_small (f + L - g1)) in Hdist by lia. lia.
    + assert (f + L - g1 = (f - g1) + 1 * L)%nat as Heq' by lia.
      rewrite Heq', Nat.Div0.mod_add, Nat.mod_small in Hdist by lia. lia.
  - rewrite (Nat.mod_small (S g1)) by lia.
    destruct (decide (f < g1)%nat).
    + rewrite (Nat.mod_small (f + L - g1)) in Hdist by lia.
      rewrite Nat.mod_small by lia. lia.
    + assert (f + L - g1 = (f - g1) + 1 * L)%nat as Heq' by lia.
      rewrite Heq', Nat.Div0.mod_add, Nat.mod_small in Hdist by lia.
      assert (f + L - S g1 = (f - S g1) + 1 * L)%nat as Heq'' by lia.
      rewrite Heq'', Nat.Div0.mod_add, Nat.mod_small by lia. lia.
Qed.

(** *** Calls to the players *)

Lemma call_eq {A} (f : Ext -> A * Ext) (s : State) :
  call f s = Ret ((f (ext s)).1, mkState (gen s) (f (ext s)).2 (rounds s)).
Proof. unfold call. by destruct (f (ext s)). Qed.

Lemma call__eq (f : Ext -> Ext) (s : State) :
  call_ f s = Ret (tt, mkState (gen s) (f (ext s)) (rounds s)).
Proof. unfold call_. by rewrite call_eq. Qed.

(** A loop over the players that only calls them reaches its end, with one
    answer for each player, in order. *)
Lemma for_enumerate_call {A B} (g : Z -> A -> Ext -> Ext) (h : Z -> B) (l : list A) :
  forall (i : Z) (s : State),
    exists s',
      for_enumerate (fun idx x => _ ← call_ (g idx x); mret (h idx)) i l s
      = Ret (map h (seqZ i (Z.of_nat (length l))), s') /\
      gen s' = gen s /\ rounds s' = rounds s.
Proof.
  induction l as [|x l IH]; intros i s.
  { exists s. by repeat split. }
  cbn [for_enumerate length]. rewrite !M_bind_eq, call__eq. cbn [mret M_ret].
  rewrite M_bind_eq.
  destruct (IH (i + 1) (mkState (gen s) (g i x (ext s)) (rounds s)))
    as (s' & -> & Hgen & Hrounds).
  exists s'. rewrite (seqZ_cons i) by lia. cbn [map].
  replace (Z.pred (Z.of_nat (S (length l)))) with (Z.of_nat (length l)) by lia.
  by repeat split.
Qed.

Lemma notify_eq (winner_idx : Z) (game_state : GameState) (numbers : list Z)
    (s : State) :
  exists s',
    notify players winner_idx game_state numbers s
    = Ret (map (result_for winner_idx) (seqZ 0 n), s') /\
    gen s' = gen s /\ rounds s' = rounds s.
Proof.
  unfold notify, n_players.
  apply (for_enumerate_call
           (fun idx player => end_game player (result_for winner_idx idx)
                                game_state numbers)
           (result_for winner_idx)).
Qed.

(** The outside after such a loop: the calls were made in the order of the
    list, each on the outside that the call before it left. *)
Lemma for_enumerate_call_ext {A B} (g : B -> A -> Ext -> Ext) (h : Z -> B)
    (l : list A) :
  forall (i : Z) (s s' : State) (bs : list B),
    for_enumerate (fun idx x => _ ← call_ (g (h idx) x); mret (h idx)) i l s
    = Ret (bs, s') ->
    bs = map h (seqZ i (Z.of_nat (length l))) /\
    ext s' = foldl (fun e bx => g bx.1 bx.2 e) (ext s) (zip bs l).
Proof.
  induction l as [|x l IH]; intros i s s' bs.
  { cbn [for_enumerate]. unfold mret, M_ret. by intros [= <- <-]. }
  cbn [for_enumerate length]. rewrite !M_bind_eq, call__eq. cbn [mret M_ret].
  rewrite M_bind_eq.
  destruct (for_enumerate _ (i + 1) l _) as [[bs' s2]| |] eqn:Hloop; try done.
  unfold mret, M_ret. intros [= <- <-].
  apply IH in Hloop as [-> Hext]. cbn [ext] in Hext.
  rewrite (seqZ_cons i) by lia. cbn [map zip zip_with foldl fst snd].
  replace (Z.pred (Z.of_nat (S (length l)))) with (Z.of_nat (length l)) by lia.
  by replace (Z.succ i) with (i + 1) by lia.
Qed.

(** [game.py:144-155]: [end_game] is called on every player, in the order
    of the list, with the result computed for its index. *)
Lemma notify_ext (winner_idx : Z) (game_state : GameState) (numbers : list Z)
    (s s' : State) (results : list Z) :
  notify players winner_idx game_state numbers s = Ret (results, s') ->
  results = map (result_for winner_idx) (seqZ 0 n) /\
  gen s' = gen s /\ rounds s' = rounds s /\
  ext s' = foldl (fun e notice => end_game notice.2 notice.1 game_state numbers e)
                 (ext s) (zip results players).
Proof.
  intros Hnotify.
  destruct (notify_eq winner_idx game_state numbers s) as (s2 & Heq & Hgen & Hrounds).
  rewrite Hnotify in Heq. injection Heq as -> <-.
  split; [done|]. split; [done|]. split; [done|].
  unfold notify in Hnotify.
  by apply (for_enumerate_call_ext
              (fun result player => end_game player result game_state numbers)
              (result_for winner_idx)) in Hnotify as [_ Hext].
Qed.

Lemma notify_results_lookup (winner_idx : Z) (i : nat) :
  (i < length players)%nat ->
  map (result_for winner_idx) (seqZ 0 n) !! i
  = Some (result_for winner_idx (Z.of_nat i)).
Proof.
  intros Hi. rewrite list_lookup_fmap, lookup_seqZ_lt; [done|].
  unfold n_players. lia.
Qed.

Lemma start_games_loop (numbers : list Z) (l : list PlayerInterface) :
  forall (i : Z) (s : State),
    0 <= i -> i + Z.of_nat (length l) <= Z.of_nat (length numbers) ->
    exists us s',
      for_enumerate (fun idx player =>
          number ← lift (py_index numbers idx);
          call_ (start_game player number idx n)) i l s = Ret (us, s') /\
      gen s' = gen s /\ rounds s' = rounds s.
Proof.
  induction l as [|x l IH]; intros i s Hi Hlen.
  { exists [], s. by repeat split. }
  cbn [for_enumerate length] in *. rewrite !M_bind_eq.
  destruct (lookup_lt_is_Some_2 numbers (Z.to_nat i)) as [number Hnumber]; [lia|].
  assert (py_index numbers i = Ret number) as ->.
  { unfold py_index. by rewrite Hnumber. }
  cbn [lift]. rewrite call__eq.
  destruct (IH (i + 1) (mkState (gen s) (start_game x number i n (ext s)) (rounds s)))
    as (us & s' & Hus & Hgen & Hrounds); [lia | lia |].
  rewrite M_bind_eq, Hus. by exists (tt :: us), s'.
Qed.

Lemma start_games_returns (numbers : list Z) (s : State) :
  n <= Z.of_nat (length numbers) ->
  exists us s', start_games players numbers s = Ret (us, s') /\
                gen s' = gen s /\ rounds s' = rounds s.
Proof.
  intros Hlen. apply start_games_loop; [done|]. unfold n_players in Hlen. lia.
Qed.

(** *** The game loop *)

Lemma timed_call_eq {A} (f : Ext -> A * Ext) (s : State) :
  timed (call f) s
  = Ret ((time_sub (default_timer (f (ext s)).2) (default_timer (ext s)),
          (f (ext s)).1),
         mkState (gen s) (f (ext s)).2 (rounds s)).
Proof. unfold timed. by rewrite call_eq. Qed.

Lemma next_move_inv (game_state : GameState) (s s' : State) (idx : Z)
    (elapsed : Time) (action : Action) :
  next_move players game_state s = Ret ((idx, elapsed, action), s') ->
  idx = Z.of_nat (gen s mod length players) /\ 0 <= idx < n /\
  gen s' = S (gen s) /\ rounds s' = rounds s.
Proof.
  unfold next_move. intros ([i p] & s1 & Hnext & Hmove)%M_bind_Ret_inv.
  apply next_player_inv in Hnext as (-> & Hi & Hp & ->).
  rewrite M_bind_eq, timed_call_eq in Hmove. unfold mret, M_ret in Hmove.
  by simplify_eq/=.
Qed.

Lemma next_move_empty (game_state : GameState) (s : State) :
  players = [] -> next_move players game_state s = Raise StopIteration.
Proof.
  intros Hnil. unfold next_move. by rewrite M_bind_eq, next_player_empty.
Qed.

(** A valid raise keeps the loop going, with the bet as the previous bet. *)
Lemma game_loop_bet (fuel : nat) (total : list Z) (game_state : GameState)
    (prev : option (Z * Action)) (s s1 : State) (idx : Z) (elapsed : Time)
    (action : Action) :
  next_move players game_state s = Ret ((idx, elapsed, action), s1) ->
  is_bet action = true ->
  returns (ensure_valid_raise action (snd <$> prev)) ->
  game_loop players (S fuel) total game_state prev s
  = game_loop players fuel total (game_state ++ [(idx, elapsed, action)])
      (Some (idx, action)) s1.
Proof.
  intros Hmove Hbet [v Hv]. cbn [game_loop].
  rewrite M_bind_eq, Hmove, Hbet, M_bind_eq, Hv. done.
Qed.

Lemma in_play_bet (game_state : GameState) (s s1 : State) (idx : Z)
    (elapsed : Time) (action : Action) :
  next_move players game_state s = Ret ((idx, elapsed, action), s1) ->
  is_bet action = true ->
  in_play players (game_state ++ [(idx, elapsed, action)]) (Some (idx, action)).
Proof.
  intros (_ & Hidx & _)%next_move_inv Hbet. repeat split; try done; try lia.
  by exists game_state, elapsed.
Qed.

(** A round cannot open with a terminal claim. *)
Lemma game_loop_first_not_bet (fuel : nat) (total : list Z)
    (game_state : GameState) (s s1 : State) (idx : Z) (elapsed : Time)
    (action : Action) :
  next_move players game_state s = Ret ((idx, elapsed, action), s1) ->
  is_bet action = false ->
  game_loop players (S fuel) total game_state None s
  = Raise (RuntimeError FirstMoveNotBet).
Proof.
  intros Hmove Hbet. cbn [game_loop]. by rewrite M_bind_eq, Hmove, Hbet.
Qed.

Lemma game_loop_exact (fuel : nat) (total : list Z) (game_state : GameState)
    (prev_idx : Z) (prev_action : Action) (s s1 : State) (idx : Z)
    (elapsed : Time) (action : Action) (right : bool) :
  next_move players game_state s = Ret ((idx, elapsed, action), s1) ->
  is_bet action = false -> is_exact action = true ->
  exact_is_right total prev_action = Ret right ->
  game_loop players (S fuel) total game_state (Some (prev_idx, prev_action)) s
  = Ret ((game_state ++ [(idx, elapsed, action)],
          if right then -1 else prev_idx), s1).
Proof.
  intros Hmove Hbet Hexact Hright. cbn [game_loop].
  by rewrite M_bind_eq, Hmove, Hbet, Hexact, M_bind_eq, Hright.
Qed.

Lemma game_loop_bullshit (fuel : nat) (total : list Z) (game_state : GameState)
    (prev_idx : Z) (prev_action : Action) (s s1 : State) (idx : Z)
    (elapsed : Time) (action : Action) (right : bool) :
  next_move players game_state s = Ret ((idx, elapsed, action), s1) ->
  is_bet action = false -> is_exact action = false ->
  bullshit_is_right total prev_action = Ret right ->
  game_loop players (S fuel) total game_state (Some (prev_idx, prev_action)) s
  = Ret ((game_state ++ [(idx, elapsed, action)],
          if right then idx else prev_idx), s1).
Proof.
  intros Hmove Hbet Hexact Hright. cbn [game_loop].
  by rewrite M_bind_eq, Hmove, Hbet, Hexact, M_bind_eq, Hright.
Qed.

(** What the loop answers when it ends: the tie sentinel or a player's
    index, and a log that goes on from the one it started with, the first
    new move being made by the player the generator yields next. *)
Lemma game_loop_inv (total : list Z) (fuel : nat) :
  forall (game_state : GameState) (prev : option (Z * Action)) (s s' : State)
         (game_state' : GameState) (winner : Z),
    game_loop players fuel total game_state prev s
    = Ret ((game_state', winner), s') ->
    match prev with Some (prev_idx, _) => 0 <= prev_idx < n | None => True end ->
    (winner = -1 \/ 0 <= winner < n) /\
    rounds s' = rounds s /\
    exists elapsed action rest,
      game_state'
      = game_state ++ (Z.of_nat (gen s mod length players), elapsed, action) :: rest.
Proof.
  induction fuel as [|fuel IH]; intros gs prev s s' gs' w; [done|].
  cbn [game_loop].
  intros ([[idx t] a] & s1 & Hmove & Hrest)%M_bind_Ret_inv Hprev.
  apply next_move_inv in Hmove as (-> & Hidx & Hgen & Hrounds).
  destruct (is_bet a).
  - apply M_bind_Ret_inv in Hrest as (v & s2 & [_ ->]%lift_Ret_inv & Hloop).
    apply IH in Hloop as (Hw & Hr & (t' & a' & rest & ->)); [|done].
    repeat split; [done | congruence |].
    rewrite <- app_assoc. by eexists _, _, _.
  - destruct prev as [[prev_idx prev_action]|]; [|done].
    destruct (is_exact a).
    + apply M_bind_Ret_inv in Hrest as (b & s2 & [_ ->]%lift_Ret_inv & [= <- <- <-]).
      repeat split; [destruct b; lia | done | by eexists _, _, []].
    + apply M_bind_Ret_inv in Hrest as (b & s2 & [_ ->]%lift_Ret_inv & [= <- <- <-]).
      repeat split; [destruct b; lia | done | by eexists _, _, []].
Qed.

Lemma in_play_start : in_play players [] None.
Proof. done. Qed.

(** *** The end of a round *)

Lemma conclude_Ret (fuel : nat) (numbers : list Z) (first_idx : Z)
    (first_draw : option Z) (total : list Z) (game_state : GameState)
    (prev : option (Z * Action)) (s s1 : State) (game_state' : GameState)
    (winner : Z) :
  game_loop players fuel total game_state prev s = Ret ((game_state', winner), s1) ->
  exists s',
    conclude players fuel numbers first_idx first_draw total game_state prev s
    = Ret (winner, s') /\
    gen s' = gen s1 /\
    rounds s' = rounds s1 ++ [mkRound numbers first_idx first_draw total game_state'
                                winner (map (result_for winner) (seqZ 0 n))].
Proof.
  intros Hloop. unfold conclude. rewrite M_bind_eq, Hloop, M_bind_eq.
  destruct (notify_eq winner game_state' numbers s1) as (s2 & -> & Hgen & Hrounds).
  rewrite M_bind_eq. unfold record_round. cbn [mret M_ret].
  eexists. split; [done|]. cbn [gen rounds]. by rewrite Hgen, Hrounds.
Qed.

Lemma conclude_Raise (fuel : nat) (numbers : list Z) (first_idx : Z)
    (first_draw : option Z) (total : list Z) (game_state : GameState)
    (prev : option (Z * Action)) (s : State) (e : exn) :
  game_loop players fuel total game_state prev s = Raise e ->
  conclude players fuel numbers first_idx first_draw total game_state prev s
  = Raise e.
Proof. intros Hloop. unfold conclude. by rewrite M_bind_eq, Hloop. Qed.

Lemma conclude_inv (fuel : nat) (numbers : list Z) (first_idx : Z)
    (first_draw : option Z) (total : list Z) (game_state : GameState)
    (prev : option (Z * Action)) (s s' : State) (winner : Z) :
  conclude players fuel numbers first_idx first_draw total game_state prev s
  = Ret (winner, s') ->
  exists game_state' s1,
    game_loop players fuel total game_state prev s = Ret ((game_state', winner), s1) /\
    gen s' = gen s1 /\
    rounds s' = rounds s1 ++ [mkRound numbers first_idx first_draw total game_state'
                                winner (map (result_for winner) (seqZ 0 n))].
Proof.
  intros Hc.
  destruct (game_loop players fuel total game_state prev s) as [[[gs' w] s1]| |] eqn:Hloop.
  - destruct (conclude_Ret fuel numbers first_idx first_draw total _ _ _ _ _ _ Hloop)
      as (s2 & Hc' & Hgen & Hrounds).
    rewrite Hc in Hc'. injection Hc' as <- <-. by exists gs', s1.
  - by rewrite (conclude_Raise _ _ _ _ _ _ _ _ _ Hloop) in Hc.
  - unfold conclude in Hc. by rewrite M_bind_eq, Hloop in Hc.
Qed.

(** The end of a round that returned: the game loop returned, every player
    was then sent its result, and the round was recorded. *)
Lemma conclude_notified (fuel : nat) (numbers : list Z) (first_idx : Z)
    (first_draw : option Z) (total : list Z) (game_state : GameState)
    (prev : option (Z * Action)) (s s' : State) (winner : Z) :
  conclude players fuel numbers first_idx first_draw total game_state prev s
  = Ret (winner, s') ->
  exists game_state' s1,
    game_loop players fuel total game_state prev s = Ret ((game_state', winner), s1) /\
    rounds s' = rounds s1 ++ [mkRound numbers first_idx first_draw total game_state'
                                winner (map (result_for winner) (seqZ 0 n))] /\
    ext s' = foldl (fun e notice => end_game notice.2 notice.1 game_state' numbers e)
                   (ext s1) (zip (map (result_for winner) (seqZ 0 n)) players).
Proof.
  unfold conclude.
  intros ([gs' w] & s1 & Hloop & Hrest)%M_bind_Ret_inv.
  apply M_bind_Ret_inv in Hrest as (results & s2 & Hnotify & Hrest).
  apply M_bind_Ret_inv in Hrest as ([] & s3 & Hrecord & Hret).
  unfold mret, M_ret in Hret. injection Hret as -> <-.
  unfold record_round in Hrecord. injection Hrecord as <-.
  apply notify_ext in Hnotify as (-> & _ & Hrounds & Hext).
  exists gs', s1. cbn [rounds ext]. by rewrite Hrounds.
Qed.

(** A round is a deal, bets, and a terminal claim: [play] enters the loop
    with an empty log, and every valid raise hands the loop on. *)
Lemma play_after_deal (fuel : nat) (first_move : option Z) (s s1 : State)
    (numbers : list Z) (first_idx : Z) (first_draw : option Z) (total : list Z) :
  deal players fuel first_move s = Ret ((numbers, first_idx, first_draw), s1) ->
  total_digit_counts numbers = Ret total ->
  play players fuel first_move s
  = conclude players fuel numbers first_idx first_draw total [] None s1.
Proof.
  intros Hdeal Htotal. unfold play. by rewrite M_bind_eq, Hdeal, M_bind_eq, Htotal.
Qed.

Lemma conclude_bet (fuel : nat) (numbers : list Z) (first_idx : Z)
    (first_draw : option Z) (total : list Z) (game_state : GameState)
    (prev : option (Z * Action)) (s s1 : State) (idx : Z) (elapsed : Time)
    (action : Action) :
  next_move players game_state s = Ret ((idx, elapsed, action), s1) ->
  is_bet action = true ->
  returns (ensure_valid_raise action (snd <$> prev)) ->
  conclude players (S fuel) numbers first_idx first_draw total game_state prev s
  = conclude players fuel numbers first_idx first_draw total
      (game_state ++ [(idx, elapsed, action)]) (Some (idx, action)) s1.
Proof.
  intros Hmove Hbet Hraise. unfold conclude.
  by rewrite !M_bind_eq, (game_loop_bet _ _ _ _ _ _ _ _ _ Hmove Hbet Hraise).
Qed.

(** *** Resolution of the terminal claims *)

Lemma exact_is_right_eq (total : list Z) (prev_action : Action) (c d actual : Z) :
  count prev_action = Some c -> digit prev_action = Some d ->
  np_index total d = Ret actual ->
  exact_is_right total prev_action = Ret (c =? actual).
Proof.
  intros Hc Hd Hactual. unfold exact_is_right, actual_count.
  by rewrite Hd, Hactual, Hc.
Qed.

Lemma bullshit_is_right_eq (total : list Z) (prev_action : Action) (c d actual : Z) :
  count prev_action = Some c -> digit prev_action = Some d ->
  np_index total d = Ret actual ->
  bullshit_is_right total prev_action = Ret (actual <? c).
Proof.
  intros Hc Hd Hactual. unfold bullshit_is_right, actual_count.
  by rewrite Hd, Hactual, Hc.
Qed.

(** The notifications of a round without a winner, and of a round won by a
    player. *)
Lemma results_tie (i : nat) :
  (i < length players)%nat ->
  map (result_for (-1)) (seqZ 0 n) !! i = Some Tie.
Proof. intros Hi. by rewrite notify_results_lookup. Qed.

Lemma results_winner (winner : Z) (i : nat) :
  0 <= winner -> (i < length players)%nat ->
  map (result_for winner) (seqZ 0 n) !! i
  = Some (if Z.of_nat i =? winner then Win else Loss).
Proof.
  intros Hw Hi. rewrite notify_results_lookup by done. unfold result_for.
  destruct (Z.eqb_spec winner (-1)); [lia|].
  rewrite (Z.eqb_sym winner). done.
Qed.

Lemma results_length (winner : Z) :
  length (map (result_for winner) (seqZ 0 n)) = length players.
Proof. rewrite length_map, length_seqZ. unfold n_players. lia. Qed.

(** C1: when a player calls Exact after a bet, the round ends.  If the
    count of the previous bet equals the total count of its digit, the
    winner index is -1 and every player is notified of a tie; otherwise the
    player who made the previous bet is the winner and is notified of a win,
    and every other player of a loss. *)
Theorem exact_resolution (fuel : nat) (numbers : list Z) (first_idx : Z)
    (first_draw : option Z) (total : list Z) (game_state : GameState)
    (prev_idx : Z) (prev_action : Action) (c d actual : Z) (s s1 : State)
    (idx : Z) (elapsed : Time) (action : Action) :
  in_play players game_state (Some (prev_idx, prev_action)) ->
  count prev_action = Some c -> digit prev_action = Some d ->
  np_index total d = Ret actual ->
  next_move players game_state s = Ret ((idx, elapsed, action), s1) ->
  valid action -> is_exact action = true ->
  exists winner results s',
    conclude players (S fuel) numbers first_idx first_draw total game_state
      (Some (prev_idx, prev_action)) s = Ret (winner, s') /\
    rounds s' = rounds s ++ [mkRound numbers first_idx first_draw total
                               (game_state ++ [(idx, elapsed, action)])
                               winner results] /\
    length results = length players /\
    (c = actual ->
       winner = -1 /\
       forall i, (i < length players)%nat -> results !! i = Some Tie) /\
    (c <> actual ->
       winner = prev_idx /\
       forall i, (i < length players)%nat ->
         results !! i = Some (if Z.of_nat i =? prev_idx then Win else Loss)).
Proof.
  intros (_ & _ & Hprev) Hc Hd Hactual Hmove Hvalid Hexact.
  assert (is_bet action = false) as Hbet.
  { destruct (valid_tags action Hvalid) as [(_ & _ & ?)|[(? & _)|(? & _)]];
      congruence. }
  pose proof (exact_is_right_eq total prev_action c d actual Hc Hd Hactual) as Hright.
  pose proof (game_loop_exact fuel total game_state prev_idx prev_action s s1 idx
                elapsed action _ Hmove Hbet Hexact Hright) as Hloop.
  destruct (conclude_Ret (S fuel) numbers first_idx first_draw total _ _ _ _ _ _ Hloop)
    as (s' & Hconclude & _ & Hrounds).
  apply next_move_inv in Hmove as (_ & _ & _ & Hr1). rewrite Hr1 in Hrounds.
  eexists _, _, s'. split; [exact Hconclude|]. split; [exact Hrounds|].
  split; [apply results_length|].
  destruct (Z.eqb_spec c actual) as [Heq|Hne]; split; intros ?; try done.
  - split; [done|]. apply results_tie.
  - split; [done|]. intros i Hi. apply results_winner; [lia | done].
Qed.

(** C3: when a player calls Bullshit after a bet, the round ends.  If the
    count of the previous bet exceeds the total count of its digit, the
    caller is the winner; otherwise the player who made the previous bet
    is.  The winner is notified of a win, every other player of a loss. *)
Theorem bullshit_resolution (fuel : nat) (numbers : list Z) (first_idx : Z)
    (first_draw : option Z) (total : list Z) (game_state : GameState)
    (prev_idx : Z) (prev_action : Action) (c d actual : Z) (s s1 : State)
    (idx : Z) (elapsed : Time) (action : Action) :
  in_play players game_state (Some (prev_idx, prev_action)) ->
  count prev_action = Some c -> digit prev_action = Some d ->
  np_index total d = Ret actual ->
  next_move players game_state s = Ret ((idx, elapsed, action), s1) ->
  valid action -> is_bullshit action = true ->
  exists winner results s',
    conclude players (S fuel) numbers first_idx first_draw total game_state
      (Some (prev_idx, prev_action)) s = Ret (winner, s') /\
    rounds s' = rounds s ++ [mkRound numbers first_idx first_draw total
                               (game_state ++ [(idx, elapsed, action)])
                               winner results] /\
    length results = length players /\
    (c > actual -> winner = idx) /\
    (c <= actual -> winner = prev_idx) /\
    forall i, (i < length players)%nat ->
      results !! i = Some (if Z.of_nat i =? winner then Win else Loss).
Proof.
  intros (_ & _ & Hprev) Hc Hd Hactual Hmove Hvalid Hbullshit.
  assert (is_bet action = false /\ is_exact action = false) as [Hbet Hexact].
  { destruct (valid_tags action Hvalid) as [(_ & ? & _)|[(? & _ & ?)|(_ & ? & _)]];
      split; congruence. }
  pose proof (bullshit_is_right_eq total prev_action c d actual Hc Hd Hactual) as Hright.
  pose proof (game_loop_bullshit fuel total game_state prev_idx prev_action s s1 idx
                elapsed action _ Hmove Hbet Hexact Hright) as Hloop.
  destruct (conclude_Ret (S fuel) numbers first_idx first_draw total _ _ _ _ _ _ Hloop)
    as (s' & Hconclude & _ & Hrounds).
  apply next_move_inv in Hmove as (_ & Hidx & _ & Hr1). rewrite Hr1 in Hrounds.
  eexists _, _, s'. split; [exact Hconclude|]. split; [exact Hrounds|].
  split; [apply results_length|].
  destruct (Z.ltb_spec actual c); (split; [intros; done || lia|]);
    (split; [intros; done || lia|]); intros i Hi; apply results_winner; lia || done.
Qed.

(** C2, as the code has it: with five 7s in all and a previous bet of six
    7s, a call of Exact makes the player who made that bet the winner; that
    player is notified of a win and every other player, the caller
    included, of a loss. *)
Theorem exact_wrong_resolution (fuel : nat) (numbers : list Z) (first_idx : Z)
    (first_draw : option Z) (total : list Z) (game_state : GameState)
    (prev_idx : Z) (prev_action : Action) (s s1 : State)
    (idx : Z) (elapsed : Time) (action : Action) :
  in_play players game_state (Some (prev_idx, prev_action)) ->
  count prev_action = Some 6 -> digit prev_action = Some 7 ->
  np_index total 7 = Ret 5 ->
  next_move players game_state s = Ret ((idx, elapsed, action), s1) ->
  valid action -> is_exact action = true ->
  exists results s',
    conclude players (S fuel) numbers first_idx first_draw total game_state
      (Some (prev_idx, prev_action)) s = Ret (prev_idx, s') /\
    rounds s' = rounds s ++ [mkRound numbers first_idx first_draw total
                               (game_state ++ [(idx, elapsed, action)])
                               prev_idx results] /\
    results !! Z.to_nat prev_idx = Some Win /\
    (idx <> prev_idx -> results !! Z.to_nat idx = Some Loss) /\
    forall i, (i < length players)%nat -> Z.of_nat i <> prev_idx ->
      results !! i = Some Loss.
Proof.
  intros (_ & _ & Hprev) Hc Hd Hactual Hmove Hvalid Hexact.
  assert (is_bet action = false) as Hbet.
  { destruct (valid_tags action Hvalid) as [(_ & _ & ?)|[(? & _)|(? & _)]];
      congruence. }
  pose proof (exact_is_right_eq total prev_action 6 7 5 Hc Hd Hactual) as Hright.
  pose proof (game_loop_exact fuel total game_state prev_idx prev_action s s1 idx
                elapsed action _ Hmove Hbet Hexact Hright) as Hloop.
  destruct (conclude_Ret (S fuel) numbers first_idx first_draw total _ _ _ _ _ _ Hloop)
    as (s' & Hconclude & _ & Hrounds).
  apply next_move_inv in Hmove as (_ & Hidx & _ & Hr1). rewrite Hr1 in Hrounds.
  change (if 6 =? 5 then -1 else prev_idx) with prev_idx in *.
  unfold n_players in Hprev, Hidx.
  eexists _, s'. split; [exact Hconclude|]. split; [exact Hrounds|].
  repeat split.
  - rewrite results_winner by lia.
    rewrite Z2Nat.id, Z.eqb_refl by lia. done.
  - intros Hne. rewrite results_winner by lia.
    rewrite Z2Nat.id by lia. by destruct (Z.eqb_spec idx prev_idx).
  - intros i Hi Hne. rewrite results_winner by lia.
    by destruct (Z.eqb_spec (Z.of_nat i) prev_idx).
Qed.

(** *** A whole round *)

Lemma np_random_randint_inv (low high x : Z) (s s' : State) :
  np_random_randint low high s = Ret (x, s') ->
  x = (randint low high (ext s)).1 /\ gen s' = gen s /\ rounds s' = rounds s.
Proof.
  unfold np_random_randint. destruct (low <? high); [|done].
  rewrite call_eq. by intros [= <- <-].
Qed.

(** What holds once the numbers are dealt and the generator is cycled. *)
Lemma deal_inv (fuel : nat) (first_move : option Z) (s s1 : State)
    (numbers : list Z) (first_idx : Z) (first_draw : option Z) :
  deal players fuel first_move s = Ret ((numbers, first_idx, first_draw), s1) ->
  rounds s1 = rounds s /\
  0 <= first_idx < n /\
  Z.of_nat (gen s1 mod length players) = first_idx /\
  NoDup numbers /\ n <= Z.of_nat (length numbers) /\
  (exists fuel', fuel = S fuel') /\
  match first_move with
  | Some f => first_idx = f /\ first_draw = None
  | None => first_draw = Some first_idx /\
            exists e, first_idx = (randint 0 n e).1
  end.
Proof.
  unfold deal.
  intros (numbers' & sa & Hnumbers & Hrest)%M_bind_Ret_inv.
  apply get_random_numbers_length in Hnumbers as (Hlen & Hnodup & Hga & Hra).
  apply M_bind_Ret_inv in Hrest as (us & sb & Hstart & Hrest).
  destruct (start_games_returns numbers' sa Hlen) as (us' & sb' & Hstart' & Hgb & Hrb).
  rewrite Hstart in Hstart'. injection Hstart' as <- <-.
  apply M_bind_Ret_inv in Hrest as ([fi fd] & sc & Hfirst & Hrest).
  apply M_bind_Ret_inv in Hrest as ([] & sd & Hff & Hret).
  unfold mret, M_ret in Hret. injection Hret as <- <- <- <-.
  assert (exists fuel', fuel = S fuel') as Hfuel.
  { destruct fuel; [done | by eexists]. }
  apply fast_forward_inv in Hff as (Hin & Hgen & _ & Hrd).
  destruct first_move as [f|].
  - unfold mret, M_ret in Hfirst. injection Hfirst as <- <- <-.
    repeat split; try done; try congruence; lia.
  - apply M_bind_Ret_inv in Hfirst as (x & sx & Hdraw & Hret).
    unfold mret, M_ret in Hret. injection Hret as <- <- <-.
    apply np_random_randint_inv in Hdraw as (-> & _ & Hrx).
    repeat split; try done; try congruence; try lia. by eexists.
Qed.

(** What holds of a round that [play] brought to its end. *)
Lemma play_inv (fuel : nat) (first_move : option Z) (s s' : State) (winner : Z) :
  play players fuel first_move s = Ret (winner, s') ->
  exists r,
    rounds s' = rounds s ++ [r] /\
    winner_idx r = winner /\
    results r = map (result_for winner) (seqZ 0 n) /\
    (winner = -1 \/ 0 <= winner < n) /\
    first_mover_from players first_move r /\
    exists f, first_mover r = Some f /\ 0 <= f < n.
Proof.
  unfold play.
  intros ([[numbers fi] fd] & s1 & Hdeal & Hrest)%M_bind_Ret_inv.
  apply deal_inv in Hdeal as (Hr1 & Hfi & Hgen & _ & _ & _ & Hfirst).
  apply M_bind_Ret_inv in Hrest as (total & s2 & [_ ->]%lift_Ret_inv & Hconclude).
  apply conclude_inv in Hconclude as (gs' & s3 & Hloop & _ & Hrounds).
  apply game_loop_inv in Hloop as (Hwinner & Hr3 & (t & a & rest & Hgs)); [|done].
  eexists. split; [by rewrite Hrounds, Hr3, Hr1|].
  repeat split; try done.
  - unfold first_mover_from, first_mover. cbn [game_state first_draw].
    rewrite Hgs, Hgen. cbn.
    destruct first_move as [f|].
    + by destruct Hfirst as [-> ->].
    + destruct Hfirst as [-> [e He]]. exists e. by rewrite <- He.
  - exists fi. unfold first_mover. cbn [game_state]. rewrite Hgs, Hgen. by cbn.
Qed.

(** C5: a round that ends has no winner and notifies every player of a
    tie, or has one player as its winner, who is notified of a win while
    every other player is notified of a loss.  The notification is the
    call of [end_game] on each player in turn, after the game loop, with
    the result at the player's index: the outside in which [play] ends is
    the one these calls leave. *)
Theorem round_outcome (fuel : nat) (first_move : option Z) (s s' : State)
    (winner : Z) :
  play players fuel first_move s = Ret (winner, s') ->
  exists r s0 s1,
    rounds s' = rounds s ++ [r] /\ winner_idx r = winner /\
    deal players fuel first_move s
    = Ret ((numbers r, first_idx r, first_draw r), s0) /\
    game_loop players fuel (total_counts r) [] None s0
    = Ret ((game_state r, winner), s1) /\
    ext s' = foldl (fun e notice =>
                      end_game notice.2 notice.1 (game_state r) (numbers r) e)
                   (ext s1) (zip (results r) players) /\
    length (results r) = length players /\
    ((winner = -1 /\
      forall i, (i < length players)%nat -> results r !! i = Some Tie) \/
     (0 <= winner < n /\
      forall i, (i < length players)%nat ->
        results r !! i = Some (if Z.of_nat i =? winner then Win else Loss))).
Proof.
  unfold play.
  intros ([[ns fi] fd] & s0 & Hdeal & Hrest)%M_bind_Ret_inv.
  pose proof (deal_inv _ _ _ _ _ _ _ Hdeal) as (Hrounds0 & _).
  apply M_bind_Ret_inv in Hrest as (total & s0' & [_ ->]%lift_Ret_inv & Hconclude).
  apply conclude_notified in Hconclude as (gs' & s1 & Hloop & Hrounds & Hext).
  pose proof (game_loop_inv _ _ _ _ _ _ _ _ Hloop I) as (Hwinner & Hrounds1 & _).
  eexists _, s0, s1. split; [by rewrite Hrounds, Hrounds1, Hrounds0|].
  cbn [winner_idx numbers first_idx first_draw total_counts game_state results].
  split; [done|]. split; [done|]. split; [done|]. split; [done|].
  split; [apply results_length|].
  destruct Hwinner as [->|Hin].
  - left. split; [done|]. apply results_tie.
  - right. split; [done|]. intros i Hi. apply results_winner; [lia | done].
Qed.

(** C9: a round whose first move is Exact or Bullshit ends in the
    [RuntimeError] of [game.py:121]; [play] returns no winner. *)
Theorem first_move_not_bet (fuel : nat) (first_move : option Z) (s s1 s2 : State)
    (numbers : list Z) (first_idx : Z) (first_draw : option Z) (total : list Z)
    (idx : Z) (elapsed : Time) (action : Action) :
  deal players fuel first_move s = Ret ((numbers, first_idx, first_draw), s1) ->
  total_digit_counts numbers = Ret total ->
  next_move players [] s1 = Ret ((idx, elapsed, action), s2) ->
  valid action -> is_exact action = true \/ is_bullshit action = true ->
  play players fuel first_move s = Raise (RuntimeError FirstMoveNotBet).
Proof.
  intros Hdeal Htotal Hmove Hvalid Hterminal.
  assert (is_bet action = false) as Hbet.
  { destruct (valid_tags action Hvalid) as [(? & ? & ?)|[(? & ? & ?)|(? & ? & ?)]];
      destruct Hterminal; congruence. }
  destruct (deal_inv _ _ _ _ _ _ _ Hdeal) as (_ & _ & _ & _ & _ & [fuel' ->] & _).
  unfold play. rewrite M_bind_eq, Hdeal, M_bind_eq, Htotal. cbn [lift].
  apply conclude_Raise. by eapply game_loop_first_not_bet.
Qed.

(** *** Many rounds *)




(** *** The first mover handed to [play] *)

Lemma get_random_numbers_cases (fuel : nat) (m : Z) (s : State) :
  get_random_numbers fuel m s = OutOfFuel \/
  exists l s', get_random_numbers fuel m s = Ret (l, s') /\
               m <= Z.of_nat (length l).
Proof.
  destruct (get_random_numbers fuel m s) as [[l s']|e|] eqn:Hnumbers.
  - right. exists l, s'. split; [done|].
    by apply get_random_numbers_length in Hnumbers as (? & _).
  - exfalso. unfold get_random_numbers in Hnumbers. rewrite M_bind_eq in Hnumbers.
    destruct (get_random_numbers_loop fuel m ∅ s) as [[numbers sa]|e'|] eqn:Hloop;
      try done.
    by apply get_random_numbers_loop_no_raise in Hloop.
  - by left.
Qed.

Lemma deal_diverges (first_move : Z) (fuel : nat) (s : State) :
  players <> [] -> ~ (0 <= first_move < n) ->
  deal players fuel (Some first_move) s = OutOfFuel.
Proof.
  intros Hne Hout. unfold deal. rewrite M_bind_eq.
  destruct (get_random_numbers_cases fuel n s) as [->|(l & sa & -> & Hlen)]; [done|].
  rewrite M_bind_eq.
  destruct (start_games_returns l sa Hlen) as (us & sb & -> & _).
  rewrite M_bind_eq. unfold mret at 1, M_ret at 1. rewrite M_bind_eq.
  by rewrite fast_forward_diverges.
Qed.

(** C10: with a [first_move] that is not a player's index, the loop that
    cycles the generator never exits: at no fuel does it, or [play],
    return; with at least one player both are still running at every
    fuel.  (With no player at all the first [next] raises
    [StopIteration].) *)
Theorem first_move_precondition (first_move : Z) :
  ~ (0 <= first_move < n) ->
  (forall fuel s, ~ returns (fast_forward players fuel first_move s)) /\
  (forall fuel s, ~ returns (play players fuel (Some first_move) s)) /\
  (players <> [] ->
   forall fuel s,
     fast_forward players fuel first_move s = OutOfFuel /\
     play players fuel (Some first_move) s = OutOfFuel).
Proof.
  intros Hout. repeat split.
  - intros fuel s [[[] s'] Hret]. apply fast_forward_inv in Hret. tauto.
  - intros fuel s [[w s'] Hret]. unfold play in Hret.
    apply M_bind_Ret_inv in Hret as ([[numbers fi] fd] & s1 & Hdeal & _).
    apply deal_inv in Hdeal as (_ & Hfi & _ & _ & _ & _ & [-> _]). tauto.
  - by apply fast_forward_diverges.
  - unfold play. by rewrite M_bind_eq, deal_diverges.
Qed.

End engine.

(** *** Retries of the number generator *)

Section unbounded_retries.
Context `{World}.
Hypothesis randint_range : forall low high e,
  low < high -> low <= (randint low high e).1 < high.

(** C6, as the code has it: asked for more numbers than there are below
    [10 ^ 8], [get_random_numbers] raises nothing and returns nothing; it
    keeps drawing, whatever the number of draws allowed. *)
Theorem get_random_numbers_unbounded (m : Z) (fuel : nat) (s : State) :
  10 ^ 8 < m -> get_random_numbers fuel m s = OutOfFuel.
Proof.
  intros Hm. unfold get_random_numbers. rewrite M_bind_eq.
  rewrite (get_random_numbers_loop_diverges randint_range m fuel Hm); [done|].
  intros x Hx. by apply not_elem_of_empty in Hx.
Qed.

(** In a round that reached its game loop, the total count of every digit
    is there to settle a claim. *)
Lemma dealt_total (players : list PlayerInterface) (fuel : nat)
    (first_move : option Z) (s s1 : State) (numbers : list Z) (first_idx : Z)
    (first_draw : option Z) (d : Z) :
  deal players fuel first_move s = Ret ((numbers, first_idx, first_draw), s1) ->
  is_digit d ->
  exists total actual,
    total_digit_counts numbers = Ret total /\ np_index total d = Ret actual.
Proof.
  intros Hdeal Hd.
  destruct (deal_inv _ _ _ _ _ _ _ _ Hdeal) as (_ & Hfi & _ & _ & Hlen & _).
  unfold deal in Hdeal.
  apply M_bind_Ret_inv in Hdeal as (l & sa & Hnumbers & Hrest).
  apply M_bind_Ret_inv in Hrest as (us & sb & _ & Hrest).
  apply M_bind_Ret_inv in Hrest as ([fi fd] & sc & _ & Hrest).
  apply M_bind_Ret_inv in Hrest as ([] & sd & _ & Hret).
  unfold mret, M_ret in Hret. injection Hret as <- <- <- <-.
  apply total_digit_counts_returns; [| |done].
  2: { intros ->. cbn [length] in Hlen. lia. }
  by eapply get_random_numbers_in_range.
Qed.

End unbounded_retries.

(** ** Runs in the scripted world *)

#[local] Existing Instance scripted.world.

Lemma scripted_randint_range (low high : Z) (e : @Ext scripted.world) :
  low < high -> low <= (@randint scripted.world low high e).1 < high.
Proof.
  intros Hlt. destruct e as [|x e]; cbn; [lia|].
  pose proof (Z.mod_pos_bound x (high - low)). lia.
Qed.

Lemma duel_run :
  @play scripted.world scripted.duel 10 None (scripted.init [77777000; 0; 0])
  = Ret (0, scripted.duel_end).
Proof. vm_cast_no_check (eq_refl (Ret (0, scripted.duel_end))). Qed.

Lemma three_rounds_run :
  @play_many scripted.world scripted.duel 10 3 (scripted.init scripted.three_rounds)
  = Ret ([0; -1; 0], scripted.three_rounds_end).
Proof. vm_cast_no_check (eq_refl (Ret ([0; -1; 0], scripted.three_rounds_end))). Qed.

(** Two raises and a wrong call of Bullshit: there are six 7s in all and
    the last bet is of two, so the player who made it wins. *)
Example raisers_run :
  (r ← @play scripted.world [scripted.raiser; scripted.raiser; scripted.always scripted.bullshit]
         10 None (scripted.init [77777000; 0; 12345678; 0]);
   Ret (r.1, results <$> rounds r.2))
  = Ret (1, [[Loss; Win; Loss]]).
Proof. vm_cast_no_check (eq_refl (Ret (1, [[Loss; Win; Loss]]))). Qed.

(** A bet that raises neither the digit nor the count ends the round in
    the [ValueError] of [ensure_valid_raise]. *)
Example invalid_raise_run :
  @play scripted.world [scripted.always (scripted.bet 6 7); scripted.always (scripted.bet 6 7)]
    10 None (scripted.init [77777000; 0; 0])
  = Raise (ValueError InvalidRaise).
Proof. vm_cast_no_check (eq_refl (@Raise (Z * @State scripted.world) (ValueError InvalidRaise))). Qed.

Lemma in_play_after_bet (players : list (@PlayerInterface scripted.world)) :
  length players = 2%nat ->
  @in_play scripted.world players scripted.log_after_bet (Some (0, scripted.bet 6 7)).
Proof.
  intros Hlen. repeat split; try done.
  - by exists [], tt.
  - unfold n_players. rewrite Hlen. lia.
Qed.

Lemma ensure_valid_raise_spec_witness :
  (returns (ensure_valid_raise (scripted.bet 1 5) (Some (scripted.bet 2 3)))
   <-> 5 > 3 \/ 1 > 2) /\
  (~ (5 > 3 \/ 1 > 2) ->
     ensure_valid_raise (scripted.bet 1 5) (Some (scripted.bet 2 3))
     = Raise (ValueError InvalidRaise)) /\
  (5 > 3 /\ 1 < 2 ->
     returns (ensure_valid_raise (scripted.bet 1 5) (Some (scripted.bet 2 3)))) /\
  (1 > 2 /\ 5 < 3 ->
     returns (ensure_valid_raise (scripted.bet 1 5) (Some (scripted.bet 2 3)))) /\
  returns (ensure_valid_raise (scripted.bet 1 5) None).
Proof.
  apply (ensure_valid_raise_spec (scripted.bet 1 5) (scripted.bet 2 3) 1 5 2 3);
    try reflexivity; split; reflexivity.
Defined.

Lemma exact_resolution_witness :
  exists winner results s',
    @conclude scripted.world scripted.duel 1 [77777700; 0] 0 None
      scripted.six_sevens scripted.log_after_bet (Some (0, scripted.bet 6 7))
      scripted.state_after_bet = Ret (winner, s') /\
    rounds s' = rounds scripted.state_after_bet
                ++ [mkRound [77777700; 0] 0 None scripted.six_sevens
                      (scripted.log_after_bet ++ [(1, tt, scripted.exact)])
                      winner results] /\
    length results = length scripted.duel /\
    (6 = 6 ->
       winner = -1 /\
       forall i, (i < length scripted.duel)%nat -> results !! i = Some Tie) /\
    (6 <> 6 ->
       winner = 0 /\
       forall i, (i < length scripted.duel)%nat ->
         results !! i = Some (if Z.of_nat i =? 0 then Win else Loss)).
Proof.
  apply (@exact_resolution scripted.world scripted.duel 0 [77777700; 0] 0 None
           scripted.six_sevens scripted.log_after_bet 0 (scripted.bet 6 7) 6 7 6
           scripted.state_after_bet (@mkState scripted.world 2 [] [])
           1 tt scripted.exact); try reflexivity.
  by apply in_play_after_bet.
Defined.

Lemma bullshit_resolution_witness :
  exists winner results s',
    @conclude scripted.world scripted.challenge 1 [77777000; 0] 0 None
      scripted.five_sevens scripted.log_after_bet (Some (0, scripted.bet 6 7))
      scripted.state_after_bet = Ret (winner, s') /\
    rounds s' = rounds scripted.state_after_bet
                ++ [mkRound [77777000; 0] 0 None scripted.five_sevens
                      (scripted.log_after_bet ++ [(1, tt, scripted.bullshit)])
                      winner results] /\
    length results = length scripted.challenge /\
    (6 > 5 -> winner = 1) /\
    (6 <= 5 -> winner = 0) /\
    forall i, (i < length scripted.challenge)%nat ->
      results !! i = Some (if Z.of_nat i =? winner then Win else Loss).
Proof.
  apply (@bullshit_resolution scripted.world scripted.challenge 0 [77777000; 0] 0 None
           scripted.five_sevens scripted.log_after_bet 0 (scripted.bet 6 7) 6 7 5
           scripted.state_after_bet (@mkState scripted.world 2 [] [])
           1 tt scripted.bullshit); try reflexivity.
  by apply in_play_after_bet.
Defined.

Lemma exact_wrong_resolution_witness :
  exists results s',
    @conclude scripted.world scripted.duel 1 [77777000; 0] 0 None
      scripted.five_sevens scripted.log_after_bet (Some (0, scripted.bet 6 7))
      scripted.state_after_bet = Ret (0, s') /\
    rounds s' = rounds scripted.state_after_bet
                ++ [mkRound [77777000; 0] 0 None scripted.five_sevens
                      (scripted.log_after_bet ++ [(1, tt, scripted.exact)])
                      0 results] /\
    results !! Z.to_nat 0 = Some Win /\
    (1 <> 0 -> results !! Z.to_nat 1 = Some Loss) /\
    forall i, (i < length scripted.duel)%nat -> Z.of_nat i <> 0 ->
      results !! i = Some Loss.
Proof.
  apply (@exact_wrong_resolution scripted.world scripted.duel 0 [77777000; 0] 0 None
           scripted.five_sevens scripted.log_after_bet 0 (scripted.bet 6 7)
           scripted.state_after_bet (@mkState scripted.world 2 [] [])
           1 tt scripted.exact); try reflexivity.
  by apply in_play_after_bet.
Defined.

(** The run against C2: there are five 7s in all, player 0 bets six 7s and
    player 1 calls Exact; the winner index is 0, the player who made the
    bet, and the caller is notified of a loss. *)
Lemma exact_caller_loses :
  @total_digit_counts [77777000; 0] = Ret scripted.five_sevens /\
  @play scripted.world scripted.duel 10 None (scripted.init [77777000; 0; 0])
  = Ret (0, scripted.duel_end) /\
  rounds scripted.duel_end
  = [@mkRound scripted.world [77777000; 0] 0 (Some 0) scripted.five_sevens
       [(0, tt, scripted.bet 6 7); (1, tt, scripted.exact)] 0 [Win; Loss]].
Proof. split; [reflexivity|]. split; [apply duel_run | reflexivity]. Qed.

Lemma recorders_run :
  @play scripted.world scripted.recorders 10 None (scripted.init [77777000; 0; 0])
  = Ret (0, scripted.recorders_end).
Proof. vm_cast_no_check (eq_refl (Ret (0, scripted.recorders_end))). Qed.

Lemma round_outcome_witness :
  ext scripted.recorders_end = [Win; Loss] /\
  exists r s0 s1,
    rounds scripted.recorders_end
    = rounds (scripted.init [77777000; 0; 0]) ++ [r] /\
    winner_idx r = 0 /\
    @deal scripted.world scripted.recorders 10 None (scripted.init [77777000; 0; 0])
    = Ret ((numbers r, first_idx r, first_draw r), s0) /\
    game_loop scripted.recorders 10 (total_counts r) [] None s0
    = Ret ((game_state r, 0), s1) /\
    ext scripted.recorders_end
    = foldl (fun e notice =>
               end_game notice.2 notice.1 (game_state r) (numbers r) e)
            (ext s1) (zip (results r) scripted.recorders) /\
    length (results r) = length scripted.recorders /\
    ((0 = -1 /\
      forall i, (i < length scripted.recorders)%nat -> results r !! i = Some Tie) \/
     (0 <= 0 < n_players scripted.recorders /\
      forall i, (i < length scripted.recorders)%nat ->
        results r !! i = Some (if Z.of_nat i =? 0 then Win else Loss))).
Proof.
  split; [reflexivity|].
  exact (@round_outcome scripted.world scripted.recorders 10 None
           (scripted.init [77777000; 0; 0]) scripted.recorders_end 0 recorders_run).
Defined.


Lemma opening_deal :
  @deal scripted.world scripted.opening 10 None (scripted.init [77777000; 0; 0])
  = Ret (([77777000; 0], 0, Some 0), @mkState scripted.world 2 [] []).
Proof.
  vm_cast_no_check
    (eq_refl (Ret (([77777000; 0], 0, Some 0), @mkState scripted.world 2 [] []))).
Qed.

Lemma first_move_not_bet_witness :
  @play scripted.world scripted.opening 10 None (scripted.init [77777000; 0; 0])
  = Raise (RuntimeError FirstMoveNotBet).
Proof.
  apply (@first_move_not_bet scripted.world scripted.opening 10 None
           (scripted.init [77777000; 0; 0]) (@mkState scripted.world 2 [] [])
           (@mkState scripted.world 3 [] [])
           [77777000; 0] 0 (Some 0) scripted.five_sevens 0 tt scripted.exact).
  - apply opening_deal.
  - reflexivity.
  - reflexivity.
  - reflexivity.
  - left. reflexivity.
Defined.

Lemma first_move_precondition_witness :
  (forall fuel s, ~ returns (@fast_forward scripted.world scripted.duel fuel 2 s)) /\
  (forall fuel s, ~ returns (@play scripted.world scripted.duel fuel (Some 2) s)) /\
  (scripted.duel <> [] ->
   forall fuel s,
     @fast_forward scripted.world scripted.duel fuel 2 s = OutOfFuel /\
     @play scripted.world scripted.duel fuel (Some 2) s = OutOfFuel).
Proof.
  apply (@first_move_precondition scripted.world scripted.duel 2).
  unfold n_players. simpl. lia.
Defined.

Lemma get_random_numbers_unbounded_witness :
  @get_random_numbers scripted.world 5 (10 ^ 8 + 1) (scripted.init [])
  = OutOfFuel.
Proof.
  apply (@get_random_numbers_unbounded scripted.world scripted_randint_range).
  lia.
Defined.

(** Against C6: asked for one number more than there are, the generator is
    still drawing after any number of draws; no error is raised. *)
Lemma get_random_numbers_no_error :
  10 ^ 8 < 10 ^ 8 + 1 /\
  forall fuel : nat,
    @get_random_numbers scripted.world fuel (10 ^ 8 + 1) (scripted.init [3; 3; 5])
    = OutOfFuel.
Proof.
  split; [lia|]. intros fuel. unfold get_random_numbers. rewrite M_bind_eq.
  by rewrite (get_random_numbers_loop_diverges scripted_randint_range).
Qed.

(** * Further properties *)

(** ** The constructor of [Action] *)

Section constructor.

(** The constructor returns the record it was given exactly when one tag
    is set and, for a bet, count and digit are there with the count at least
    1 and the digit in 0..9; otherwise it raises a [ValueError].  The count
    and digit of an Exact or a Bullshit are not looked at. *)
Theorem new_returns_iff (e b t : bool) (c d : option Z) :
  let accepted :=
    Z.b2z e + Z.b2z b + Z.b2z t = 1 /\
    (t = true -> exists c' d', c = Some c' /\ d = Some d' /\ 1 <= c' /\ 0 <= d' <= 9) in
  (accepted <-> action.new e b t c d = Ret (mkAction e b t c d)) /\
  (~ accepted <-> exists m, action.new e b t c d = Raise (ValueError m)).
Proof.
  cbv zeta. unfold action.new, post_init. cbn [is_exact is_bullshit is_bet count digit].
  destruct e, b, t; cbn [Z.b2z Z.add Z.eqb Pos.eqb negb Pos.add Pos.succ];
    try (split; split; [intros [? _]; lia | discriminate | by eexists | intros _ [? _]; lia]);
    try (split; split; [done | by intros; split; [lia|] | intros []; split; [lia|done]
                        | intros [? ?]; discriminate]).
  destruct c as [c|], d as [d|];
    try (split; split;
         [intros [_ Hbet]; destruct (Hbet eq_refl) as (? & ? & ? & ? & _); discriminate
         | discriminate | by eexists
         | intros _ [_ Hbet]; destruct (Hbet eq_refl) as (? & ? & ? & ? & _); discriminate]).
  destruct (Z.leb_spec c 0).
  { split; split;
      [intros [_ Hbet]; destruct (Hbet eq_refl) as (? & ? & ? & ? & ? & _); simplify_eq; lia
      | discriminate | by eexists
      | intros _ [_ Hbet]; destruct (Hbet eq_refl) as (? & ? & ? & ? & ? & _);
        simplify_eq; lia]. }
  destruct (Z.leb_spec 0 d), (Z.leb_spec d 9); cbn [andb negb mbind result_bind];
    try (split; split;
         [intros [_ Hbet]; destruct (Hbet eq_refl) as (? & ? & ? & ? & ? & ?); simplify_eq; lia
         | discriminate | by eexists
         | intros _ [_ Hbet]; destruct (Hbet eq_refl) as (? & ? & ? & ? & ? & ?);
           simplify_eq; lia]).
  split; split.
  - done.
  - intros _. split; [done|]. intros _. exists c, d. repeat split; lia.
  - intros Hno. exfalso. apply Hno. split; [done|]. intros _. exists c, d.
    repeat split; lia.
  - intros [m Hm]. discriminate.
Qed.

(** Two well-formed bets of which one has the higher digit and the other
    the higher count are each a valid raise of the other: the raise rule is
    no order on bets. *)
Theorem mutual_raise (a b : Action) (ca da cb db : Z) :
  well_formed_bet a -> well_formed_bet b ->
  count a = Some ca -> digit a = Some da ->
  count b = Some cb -> digit b = Some db ->
  da > db -> ca < cb ->
  ensure_valid_raise a (Some b) = Ret None /\
  ensure_valid_raise b (Some a) = Ret None.
Proof.
  intros (c & d & -> & _)%well_formed_bet_inv (c' & d' & -> & _)%well_formed_bet_inv.
  intros Hca Hda Hcb Hdb. cbn in Hca, Hda, Hcb, Hdb. simplify_eq.
  intros Hd Hc. rewrite !ensure_valid_raise_bets.
  destruct (Z.ltb_spec db da); [|lia].
  destruct (Z.ltb_spec da db); [lia|].
  destruct (Z.ltb_spec ca cb); [|lia]. done.
Qed.

Lemma mutual_raise_witness :
  ensure_valid_raise (scripted.bet 1 2) (Some (scripted.bet 5 1)) = Ret None /\
  ensure_valid_raise (scripted.bet 5 1) (Some (scripted.bet 1 2)) = Ret None.
Proof.
  apply (mutual_raise (scripted.bet 1 2) (scripted.bet 5 1) 1 2 5 1);
    try reflexivity; try lia; split; reflexivity.
Defined.

End constructor.

(** ** Digits of a number *)

Section digits.

Lemma decimal_value_snoc (ds : list Z) (d : Z) :
  decimal_value (ds ++ [d]) = 10 * decimal_value ds + d.
Proof. unfold decimal_value. by rewrite foldl_snoc. Qed.

Lemma decimal_value_zeros (k : nat) (ds : list Z) :
  decimal_value (replicate k 0 ++ ds) = decimal_value ds.
Proof.
  unfold decimal_value. rewrite foldl_app. f_equal.
  induction k as [|k IH]; [done|].
  rewrite replicate_S_end, foldl_snoc, IH. done.
Qed.

Lemma decimal_digits_value (fuel : nat) :
  forall (x : Z) (acc : list Z),
    0 <= x < 2 ^ Z.of_nat fuel -> (1 <= fuel)%nat ->
    exists ds, decimal_digits fuel x acc = ds ++ acc /\
               Forall is_digit ds /\ decimal_value ds = x /\ (1 <= length ds)%nat.
Proof.
  induction fuel as [|fuel IH]; intros x acc Hx Hfuel; [lia|].
  cbn [decimal_digits]. destruct (Z.ltb_spec x 10) as [Hlt|Hge].
  - exists [x]. repeat split; try done.
    constructor; [unfold is_digit; lia | constructor].
  - rewrite Nat2Z.inj_succ, Z.pow_succ_r in Hx by lia.
    assert (fuel <> 0%nat) as Hf0.
    { intros ->. simpl in Hx. lia. }
    destruct (IH (x / 10) (x mod 10 :: acc)) as (ds & Hds & Hdig & Hval & Hlen); try lia.
    { split; [apply Z.div_pos; lia|]. apply Z.div_lt_upper_bound; lia. }
    exists (ds ++ [x mod 10]). rewrite Hds, <- app_assoc. repeat split.
    + apply Forall_app. split; [done|]. constructor; [|constructor].
      unfold is_digit. pose proof (Z.mod_pos_bound x 10). lia.
    + rewrite decimal_value_snoc, Hval. pose proof (Z.div_mod x 10). lia.
    + rewrite length_app. lia.
Qed.

Lemma digits_of_value (x : Z) :
  0 <= x ->
  Forall is_digit (digits_of x) /\ decimal_value (digits_of x) = x /\
  (1 <= length (digits_of x))%nat.
Proof.
  intros Hx. unfold digits_of.
  destruct (decimal_digits_value (S (Z.to_nat (Z.log2 x))) x []) as (ds & -> & ? & ? & ?);
    try lia.
  - rewrite Nat2Z.inj_succ, Z2Nat.id by apply Z.log2_nonneg.
    destruct (Z.eq_dec x 0) as [->|]; [simpl; lia|].
    pose proof (Z.log2_spec x). lia.
  - by rewrite app_nil_r.
Qed.

Lemma map_digit_char_zeros (k : nat) :
  replicate k "0"%char = map digit_char (replicate k 0).
Proof. induction k as [|k IH]; [done|]. cbn [replicate map]. by rewrite <- IH. Qed.

(** The characters written by [to_str] for a number that is not negative. *)
Lemma to_str_digits (x : Z) :
  0 <= x ->
  exists ds,
    list_ascii_of_string (to_str x) = map digit_char ds /\
    Forall is_digit ds /\ decimal_value ds = x /\
    (8 <= length ds)%nat /\ (x < 10 ^ 8 -> length ds = 8%nat).
Proof.
  intros Hx. destruct (digits_of_value x Hx) as (Hdig & Hval & Hlen).
  unfold to_str. rewrite list_ascii_of_string_of_list_ascii.
  unfold format_0d, NUM_DIGITS. destruct (Z.ltb_spec x 0); [lia|].
  rewrite Z.abs_eq, app_nil_l by lia.
  change (Z.to_nat 8 - length (@nil ascii))%nat with 8%nat.
  set (k := (8 - length (digits_of x))%nat).
  exists (replicate k 0 ++ digits_of x).
  rewrite map_digit_char_zeros, <- map_app. repeat split; try done.
  - apply Forall_app. split; [|done]. apply Forall_replicate. unfold is_digit. lia.
  - by rewrite decimal_value_zeros.
  - rewrite length_app, length_replicate. unfold k. lia.
  - intros Hlt. destruct (digits_of_spec x 8) as [_ Hle]; [done | lia |].
    rewrite length_app, length_replicate. unfold k. lia.
Qed.

(** [to_str] of a number that is not negative writes its decimal digits,
    most significant first, with zeros in front up to eight characters: the
    characters are digits, at least eight, exactly eight below [10 ^ 8], and
    read as a decimal number they give the number back. *)
Theorem to_str_decimal (x : Z) :
  0 <= x ->
  exists ds,
    list_ascii_of_string (to_str x) = map digit_char ds /\
    mapM int_of_char (list_ascii_of_string (to_str x)) = Ret ds /\
    Forall is_digit ds /\ decimal_value ds = x /\
    (8 <= length ds)%nat /\ (x < 10 ^ 8 -> length ds = 8%nat).
Proof.
  intros Hx. destruct (to_str_digits x Hx) as (ds & Hstr & Hall & Hval & Hlen).
  exists ds. rewrite Hstr. repeat split; try done; try apply Hlen.
  clear Hstr Hval Hlen. induction Hall as [|d ds Hd Hds IH]; [done|].
  cbn [map mapM]. rewrite (int_of_digit_char d Hd). cbn [mbind result_bind].
  by rewrite IH.
Qed.

Lemma to_str_decimal_witness :
  exists ds,
    list_ascii_of_string (to_str 42) = map digit_char ds /\
    mapM int_of_char (list_ascii_of_string (to_str 42)) = Ret ds /\
    Forall is_digit ds /\ decimal_value ds = 42 /\
    (8 <= length ds)%nat /\ (42 < 10 ^ 8 -> length ds = 8%nat).
Proof. apply (to_str_decimal 42). lia. Defined.

(** A failed step stops the loop of [to_counts]. *)
Lemma count_digits_Raise (e : exn) (chars : list ascii) :
  foldl (fun acc ch => counts ← acc; d ← int_of_char ch; np_incr counts d)
        (Raise e) chars = Raise e.
Proof. induction chars as [|ch chars IH]; [done|]. cbn [foldl]. apply IH. Qed.

(** A negative number cannot be counted: [to_str] writes a minus sign, on
    which [int] raises a [ValueError]. *)
Theorem to_counts_negative_raises (x : Z) :
  x < 0 -> to_counts x = Raise (ValueError InvalidLiteral).
Proof.
  intros Hx. unfold to_counts, to_str.
  rewrite list_ascii_of_string_of_list_ascii. unfold format_0d.
  destruct (Z.ltb_spec x 0); [|lia].
  cbn [app foldl]. apply count_digits_Raise.
Qed.

Lemma to_counts_negative_raises_witness :
  to_counts (-77777000) = Raise (ValueError InvalidLiteral).
Proof. apply to_counts_negative_raises. lia. Defined.

Lemma occurrences_cons (d x : Z) (ds : list Z) :
  occurrences d (x :: ds) = (if Z.eqb x d then 1 else 0) + occurrences d ds.
Proof.
  unfold occurrences. rewrite filter_cons.
  destruct (Z.eqb_spec x d); case_decide; try done; cbn [length]; lia.
Qed.

(** One pass of the loop of [to_counts], entry by entry. *)
Lemma count_digits_entries (ds : list Z) :
  forall counts : list Z,
    Forall is_digit ds -> length counts = 10%nat -> Forall (Z.le 0) counts ->
    sum_entries counts + Z.of_nat (length ds) < 2 ^ 8 ->
    exists v,
      foldl (fun acc ch => counts ← acc; d ← int_of_char ch; np_incr counts d)
            (Ret counts) (map digit_char ds) = Ret v /\
      forall (d : nat) (c : Z),
        counts !! d = Some c -> v !! d = Some (c + occurrences (Z.of_nat d) ds).
Proof.
  induction ds as [|x ds IH]; intros counts Hds Hlen Hpos Hsum.
  { exists counts. split; [done|]. intros d c ->. f_equal. unfold occurrences. cbn. lia. }
  apply Forall_cons in Hds as [Hx Hds]. cbn [map foldl mbind result_bind].
  rewrite (int_of_digit_char x Hx). cbn [mbind result_bind].
  unfold is_digit in Hx.
  destruct (lookup_lt_is_Some_2 counts (Z.to_nat x)) as [cx Hcx]; [lia|].
  destruct (sum_entries_lookup_le counts _ _ Hpos Hcx) as [Hc0 Hcs].
  unfold np_incr, np_index. rewrite Hlen.
  destruct (Z.ltb_spec x 0); [lia|].
  destruct (Z.leb_spec 0 x); [|lia].
  destruct (Z.ltb_spec x (Z.of_nat 10)); [|lia].
  cbn [andb mbind result_bind]. rewrite Hcx. cbn [mbind result_bind].
  cbn [length] in Hsum.
  assert (uint8_add cx 1 = cx + 1) as ->.
  { unfold uint8_add. apply Z.mod_small. lia. }
  destruct (IH (<[Z.to_nat x := cx + 1]> counts)) as (v & Hv & Hentries); try done.
  - by rewrite length_insert.
  - apply Forall_insert; [done | lia].
  - rewrite (sum_entries_insert _ _ cx) by done. lia.
  - exists v. split; [done|]. intros d c Hd. rewrite occurrences_cons.
    destruct (decide (d = Z.to_nat x)) as [->|Hne].
    + rewrite Hcx in Hd. injection Hd as <-.
      rewrite (Hentries (Z.to_nat x) (cx + 1)).
      * rewrite Z2Nat.id, Z.eqb_refl by lia. f_equal. lia.
      * apply list_lookup_insert_eq. lia.
    + rewrite (Hentries d c).
      * destruct (Z.eqb_spec x (Z.of_nat d)); [lia|]. f_equal.
      * by rewrite list_lookup_insert_ne.
Qed.

(** Entry [d] of [to_counts x] is the number of times the digit [d] is
    written in the eight digits of [x]. *)
Theorem to_counts_occurrences (x d : Z) :
  0 <= x < 10 ^ 8 -> is_digit d ->
  exists v ds,
    to_counts x = Ret v /\
    list_ascii_of_string (to_str x) = map digit_char ds /\
    decimal_value ds = x /\ length ds = 8%nat /\
    np_index v d = Ret (occurrences d ds).
Proof.
  intros Hx Hd. destruct (to_str_digits x ltac:(lia)) as (ds & Hstr & Hds & Hval & _ & Hlen).
  specialize (Hlen ltac:(lia)).
  destruct (to_counts_spec x Hx) as (v & Hv & Hvlen & _).
  destruct (count_digits_entries ds (replicate 10 0)) as (v' & Hv' & Hentries); try done.
  { by apply Forall_replicate. }
  { rewrite Hlen. simpl. lia. }
  unfold to_counts in Hv. rewrite Hstr, Hv' in Hv. injection Hv as ->.
  exists v, ds. unfold to_counts. rewrite Hstr, Hv'. repeat split; try done.
  unfold is_digit in Hd. unfold np_index. rewrite Hvlen.
  destruct (Z.ltb_spec d 0); [lia|].
  destruct (Z.leb_spec 0 d); [|lia].
  destruct (Z.ltb_spec d (Z.of_nat 10)); [|lia].
  cbn [andb]. rewrite (Hentries (Z.to_nat d) 0).
  - by rewrite Z2Nat.id by lia.
  - apply lookup_replicate. split; [done | lia].
Qed.

Lemma to_counts_occurrences_witness :
  exists v ds,
    to_counts 77777000 = Ret v /\
    list_ascii_of_string (to_str 77777000) = map digit_char ds /\
    decimal_value ds = 77777000 /\ length ds = 8%nat /\
    np_index v 7 = Ret (occurrences 7 ds).
Proof. apply (to_counts_occurrences 77777000 7); [lia | unfold is_digit; lia]. Defined.

End digits.

(** ** Totals and unique numbers *)

Section totals.

Lemma foldl_zip_with_total (rows : list (list Z)) :
  forall acc : list Z,
    length acc = 10%nat -> Forall (Z.le 0) acc -> Forall counts_of_number rows ->
    sum_entries acc + 8 * Z.of_nat (length rows) < 2 ^ 64 ->
    length (foldl (zip_with uint64_add) acc rows) = 10%nat /\
    Forall (Z.le 0) (foldl (zip_with uint64_add) acc rows) /\
    sum_entries (foldl (zip_with uint64_add) acc rows)
    = sum_entries acc + 8 * Z.of_nat (length rows).
Proof.
  induction rows as [|r rows IH]; intros acc Hlen Hpos Hrows Hsum.
  { cbn [foldl length]. repeat split; try done. lia. }
  apply Forall_cons in Hrows as [(Hr1 & Hr2 & Hr3) Hrows].
  cbn [length] in Hsum. cbn [foldl length].
  destruct (zip_with_uint64_add acc r) as (Hl & Hp & Hs); try done; try lia.
  destruct (IH (zip_with uint64_add acc r)) as (Hl' & Hp' & Hs'); try done; try lia.
  repeat split; try done. lia.
Qed.

(** The total over numbers below [10 ^ 8] is a vector of ten counts that
    are not negative and sum to eight for each number. *)
Lemma total_digit_counts_vector (numbers : list Z) :
  Forall (fun x => 0 <= x < 10 ^ 8) numbers -> numbers <> [] ->
  8 * Z.of_nat (length numbers) < 2 ^ 64 ->
  exists total,
    total_digit_counts numbers = Ret total /\ length total = 10%nat /\
    Forall (Z.le 0) total /\ sum_entries total = 8 * Z.of_nat (length numbers).
Proof.
  intros Hnumbers Hne Hfit.
  destruct (mapM_to_counts numbers Hnumbers) as (rows & Hrows & Hlen & Hall).
  unfold total_digit_counts. rewrite Hrows. cbn [mbind result_bind].
  destruct rows as [|r rows]; [by destruct numbers|].
  apply Forall_cons in Hall as [(Hr1 & Hr2 & Hr3) Hall].
  rewrite <- Hlen in *. cbn [length] in Hfit.
  destruct (foldl_zip_with_total rows r) as (Hl & Hp & Hs); try done; try lia.
  exists (foldl (zip_with uint64_add) r rows). cbn [np_sum_axis0 length].
  repeat split; try done. lia.
Qed.

(** A digit cannot occur more than [8 * n] times in [n] numbers: on a bet of
    more than that, a call of Bullshit is right and a call of Exact is
    wrong. *)
Theorem overstated_bet (numbers total : list Z) (prev_action : Action) (c d : Z) :
  Forall (fun x => 0 <= x < 10 ^ 8) numbers -> numbers <> [] ->
  8 * Z.of_nat (length numbers) < 2 ^ 64 ->
  total_digit_counts numbers = Ret total ->
  count prev_action = Some c -> digit prev_action = Some d -> is_digit d ->
  8 * Z.of_nat (length numbers) < c ->
  (exists actual, np_index total d = Ret actual /\
                  0 <= actual <= 8 * Z.of_nat (length numbers)) /\
  bullshit_is_right total prev_action = Ret true /\
  exact_is_right total prev_action = Ret false.
Proof.
  intros Hnumbers Hne Hfit Htotal Hc Hd Hdigit Hover.
  destruct (total_digit_counts_vector numbers Hnumbers Hne Hfit)
    as (total' & Htotal' & Hlen & Hpos & Hsum).
  rewrite Htotal in Htotal'. injection Htotal' as <-.
  unfold is_digit in Hdigit.
  destruct (lookup_lt_is_Some_2 total (Z.to_nat d)) as [actual Hactual]; [lia|].
  destruct (sum_entries_lookup_le total _ _ Hpos Hactual) as [H0 Hle].
  assert (np_index total d = Ret actual) as Hindex.
  { unfold np_index. rewrite Hlen.
    destruct (Z.ltb_spec d 0); [lia|].
    destruct (Z.leb_spec 0 d); [|lia].
    destruct (Z.ltb_spec d (Z.of_nat 10)); [|lia].
    cbn [andb]. by rewrite Hactual. }
  split; [exists actual; split; [done | lia]|].
  rewrite (bullshit_is_right_eq total prev_action c d actual),
          (exact_is_right_eq total prev_action c d actual) by done.
  destruct (Z.ltb_spec actual c); [|lia].
  destruct (Z.eqb_spec c actual); [lia|]. done.
Qed.

Lemma overstated_bet_witness :
  (exists actual, np_index scripted.five_sevens 7 = Ret actual /\
                  0 <= actual <= 8 * Z.of_nat (length [77777000; 0])) /\
  bullshit_is_right scripted.five_sevens (scripted.bet 17 7) = Ret true /\
  exact_is_right scripted.five_sevens (scripted.bet 17 7) = Ret false.
Proof.
  apply (overstated_bet [77777000; 0] scripted.five_sevens (scripted.bet 17 7) 17 7);
    try reflexivity; try done.
  repeat constructor; lia.
Defined.

End totals.

Lemma size_add_le (x : Z) (X : gset Z) : (size ({[x]} ∪ X) <= S (size X))%nat.
Proof.
  rewrite size_union_alt, size_singleton.
  assert (size (X ∖ {[x]}) <= size X)%nat; [|lia].
  by apply subseteq_size, subseteq_difference_l.
Qed.

Section unique_numbers.
Context `{World}.
Hypothesis randint_range : forall low high e,
  low < high -> low <= (randint low high e).1 < high.


(** The loop stops as soon as the set is large enough, not later. *)
Lemma get_random_numbers_loop_exact (m : Z) (fuel : nat) :
  forall (numbers numbers' : gset Z) (s s' : State),
    Z.of_nat (size numbers) <= Z.max 0 m ->
    get_random_numbers_loop fuel m numbers s = Ret (numbers', s') ->
    Z.of_nat (size numbers') = Z.max 0 m.
Proof.
  induction fuel as [|fuel IH]; intros numbers numbers' s s' Hsize; [done|].
  cbn [get_random_numbers_loop].
  destruct (Z.ltb_spec (Z.of_nat (size numbers)) m).
  - intros (x & s1 & _ & Hloop)%M_bind_Ret_inv.
    apply IH in Hloop; [done|]. pose proof (size_add_le x numbers). lia.
  - intros [= <- <-]. lia.
Qed.

(** When [get_random_numbers] returns, it returns as many numbers as asked
    for (none for a count that is not positive), all different and all in
    [[0, 10 ^ 8)]; asked for none, it draws nothing. *)
Theorem get_random_numbers_spec (m : Z) (fuel : nat) (s : State) :
  (forall l s',
     get_random_numbers fuel m s = Ret (l, s') ->
     NoDup l /\ Z.of_nat (length l) = Z.max 0 m /\
     Forall (fun x => 0 <= x < 10 ^ 8) l) /\
  (m <= 0 -> get_random_numbers (S fuel) m s = Ret ([], s)).
Proof.
  split.
  - intros l s' Hret. split; [|split].
    + by apply get_random_numbers_length in Hret as (_ & ? & _).
    + unfold get_random_numbers in Hret.
      apply M_bind_Ret_inv in Hret as (numbers & s1 & Hloop & [= <- <-]).
      apply get_random_numbers_loop_exact in Hloop.
      * exact Hloop.
      * rewrite size_empty. lia.
    + by eapply get_random_numbers_in_range.
  - intros Hm. unfold get_random_numbers. rewrite M_bind_eq.
    cbn [get_random_numbers_loop]. rewrite size_empty.
    destruct (Z.ltb_spec (Z.of_nat 0) m); [lia|].
    unfold mret, M_ret. by rewrite elements_empty.
Qed.

End unique_numbers.

Lemma two_numbers_run :
  @get_random_numbers scripted.world 10 2 (scripted.init [77777000; 0; 0])
  = Ret ([77777000; 0], @mkState scripted.world 0 [0] []).
Proof.
  vm_cast_no_check (eq_refl (Ret ([77777000; 0], @mkState scripted.world 0 [0] []))).
Qed.

Lemma get_random_numbers_spec_witness :
  NoDup [77777000; 0] /\ Z.of_nat (length [77777000; 0]) = Z.max 0 2 /\
  Forall (fun x => 0 <= x < 10 ^ 8) [77777000; 0].
Proof.
  exact (proj1 (@get_random_numbers_spec scripted.world scripted_randint_range 2 10
                  (scripted.init [77777000; 0; 0]))
           _ _ two_numbers_run).
Defined.

(** ** The log of a round *)

Section rounds.
Context `{World}.
Variable players : list PlayerInterface.

Local Abbreviation n := (n_players players).

Lemma next_move_nonempty (game_state : GameState) (s : State) :
  players <> [] ->
  exists player,
    players !! (gen s mod length players)%nat = Some player /\
    next_move players game_state s
    = Ret ((Z.of_nat (gen s mod length players),
            time_sub (default_timer (make_move player game_state (ext s)).2)
                     (default_timer (ext s)),
            (make_move player game_state (ext s)).1),
           mkState (S (gen s)) (make_move player game_state (ext s)).2 (rounds s)).
Proof.
  intros Hne. unfold next_move, next_player. rewrite M_bind_eq.
  destruct (lookup_lt_is_Some_2 players (gen s mod length players)) as [p Hp].
  { apply Nat.mod_upper_bound. by destruct players. }
  exists p. split; [done|]. rewrite Hp.
  by rewrite M_bind_eq, timed_call_eq.
Qed.

(** What the game loop has logged when it ends: bets, each a valid raise
    of the one before, then one terminal claim, made in the order of the
    cycle; and the winner it answers is settled by the last bet. *)
Lemma game_loop_shape (total : list Z) (fuel : nat) :
  forall (game_state : GameState) (prev : option (Z * Action)) (s s' : State)
         (game_state' : GameState) (winner : Z),
    game_loop players fuel total game_state prev s
    = Ret ((game_state', winner), s') ->
    exists bets tm,
      game_state' = game_state ++ bets ++ [tm] /\
      Forall (fun m => is_bet (claim m) = true) bets /\
      is_bet (claim tm) = false /\
      raises_from (snd <$> prev) bets /\
      (forall k m, (bets ++ [tm]) !! k = Some m ->
                   mover m = Z.of_nat ((gen s + k) mod length players)) /\
      exists prev_idx prev_action,
        match last bets with
        | Some m => Some (mover m, claim m)
        | None => prev
        end = Some (prev_idx, prev_action) /\
        ((is_exact (claim tm) = true /\
          exists right, exact_is_right total prev_action = Ret right /\
                        winner = if right : bool then -1 else prev_idx) \/
         (is_exact (claim tm) = false /\
          exists right, bullshit_is_right total prev_action = Ret right /\
                        winner = if right : bool then mover tm else prev_idx)).
Proof.
  induction fuel as [|fuel IH]; intros gs prev s s' gs' w; [done|].
  cbn [game_loop].
  intros ([[idx t] a] & s1 & Hmove & Hrest)%M_bind_Ret_inv.
  apply next_move_inv in Hmove as (-> & Hidx & Hgen & Hrounds).
  destruct (is_bet a) eqn:Hbet.
  - apply M_bind_Ret_inv in Hrest as (v & s2 & [Hraise ->]%lift_Ret_inv & Hloop).
    apply IH in Hloop
      as (bets & tm & -> & Hbets & Htm & Hraises & Horder & pi & pa & Hlast & Hw).
    exists ((Z.of_nat (gen s mod length players), t, a) :: bets), tm.
    split; [by rewrite <- app_assoc|]. split; [by constructor|]. split; [done|].
    split; [split; [by exists v | done]|]. split.
    + intros [|k] m Hk.
      * injection Hk as <-. cbn. by rewrite Nat.add_0_r.
      * rewrite (Horder k m Hk), Hgen. do 2 f_equal. lia.
    + exists pi, pa. split; [|done]. rewrite last_cons. by destruct (last bets).
  - destruct prev as [[prev_idx prev_action]|]; [|done].
    assert (forall k m,
              ([] ++ [(Z.of_nat (gen s mod length players), t, a)]) !! k = Some m ->
              mover m = Z.of_nat ((gen s + k) mod length players)) as Horder.
    { intros [|k] m Hk; [|done]. injection Hk as <-. cbn. by rewrite Nat.add_0_r. }
    destruct (is_exact a) eqn:Hexact;
      apply M_bind_Ret_inv in Hrest as (b & s2 & [Hb ->]%lift_Ret_inv & [= <- <- <-]);
      exists [], (Z.of_nat (gen s mod length players), t, a);
      (split; [done|]); (split; [done|]); (split; [done|]); (split; [done|]);
      (split; [done|]); exists prev_idx, prev_action; (split; [done|]).
    + left. split; [done|]. by exists b.
    + right. split; [done|]. by exists b.
Qed.

(** The log of a round that [play] brought to its end. *)
Lemma play_shape (fuel : nat) (first_move : option Z) (s s' : State) (winner : Z) :
  play players fuel first_move s = Ret (winner, s') ->
  exists r bets pm tm g,
    rounds s' = rounds s ++ [r] /\ winner_idx r = winner /\
    game_state r = bets ++ [pm; tm] /\
    Forall (fun m => is_bet (claim m) = true) (bets ++ [pm]) /\
    is_bet (claim tm) = false /\
    raises_from None (bets ++ [pm]) /\
    Z.of_nat (g mod length players) = first_idx r /\
    (forall k m, game_state r !! k = Some m ->
                 mover m = Z.of_nat ((g + k) mod length players)) /\
    ((is_exact (claim tm) = true /\
      exists right, exact_is_right (total_counts r) (claim pm) = Ret right /\
                    winner = if right : bool then -1 else mover pm) \/
     (is_exact (claim tm) = false /\
      exists right, bullshit_is_right (total_counts r) (claim pm) = Ret right /\
                    winner = if right : bool then mover tm else mover pm)).
Proof.
  unfold play.
  intros ([[numbers fi] fd] & s1 & Hdeal & Hrest)%M_bind_Ret_inv.
  apply deal_inv in Hdeal as (Hr1 & Hfi & Hgen & _ & _ & _ & Hfirst).
  apply M_bind_Ret_inv in Hrest as (total & s2 & [_ ->]%lift_Ret_inv & Hconclude).
  apply conclude_inv in Hconclude as (gs' & s3 & Hloop & _ & Hrounds).
  pose proof Hloop as Hinv. apply game_loop_inv in Hinv as (_ & Hr3 & _); [|done].
  apply game_loop_shape in Hloop
    as (bets & tm & -> & Hbets & Htm & Hraises & Horder & pi & pa & Hlast & Hw).
  destruct (last bets) as [pm|] eqn:Hpm; [|done].
  apply last_Some in Hpm as [bets' ->]. injection Hlast as <- <-.
  eexists _, bets', pm, tm, (gen s1).
  split; [by rewrite Hrounds, Hr3, Hr1|]. cbn [winner_idx game_state first_idx total_counts].
  rewrite app_nil_l, <- app_assoc. repeat split; try done.
  intros k m Hk. apply Horder. by rewrite <- app_assoc.
Qed.

(** The log of a round that ended is one or more bets followed by one
    claim that is no bet; each bet passed [ensure_valid_raise] against the
    bet before it, the first against no bet at all. *)
Theorem round_log_shape (fuel : nat) (first_move : option Z) (s s' : State)
    (winner : Z) :
  play players fuel first_move s = Ret (winner, s') ->
  exists r bets tm,
    rounds s' = rounds s ++ [r] /\
    game_state r = bets ++ [tm] /\ bets <> [] /\
    Forall (fun m => is_bet (claim m) = true) bets /\
    is_bet (claim tm) = false /\
    raises_from None bets.
Proof.
  intros (r & bets & pm & tm & g & Hrounds & _ & Hlog & Hbets & Htm & Hraises & _)%play_shape.
  exists r, (bets ++ [pm]), tm. rewrite Hlog, <- app_assoc.
  repeat split; try done. by destruct bets.
Qed.

(** The moves of a round that ended were made in the order of the cycle,
    from the first mover on: the move at position [k] of the log is by
    player [(first_idx + k) mod n]. *)
Theorem round_turn_order (fuel : nat) (first_move : option Z) (s s' : State)
    (winner : Z) :
  play players fuel first_move s = Ret (winner, s') ->
  exists r,
    rounds s' = rounds s ++ [r] /\
    forall (k : nat) (m : MoveRecord),
      game_state r !! k = Some m ->
      mover m = (first_idx r + Z.of_nat k) mod n.
Proof.
  intros Hplay.
  destruct (play_inv _ _ _ _ _ _ Hplay) as (_ & _ & _ & _ & _ & _ & f & _ & Hf).
  destruct (play_shape _ _ _ _ _ Hplay)
    as (r & bets & pm & tm & g & Hrounds & _ & _ & _ & _ & _ & Hg & Horder & _).
  exists r. split; [done|]. intros k m Hk.
  rewrite (Horder k m Hk), <- Hg. unfold n_players in *.
  rewrite !Nat2Z.inj_mod, Nat2Z.inj_add, Z.add_mod_idemp_l by lia. done.
Qed.

(** In a round that ended, the last two moves are a bet and the terminal
    claim (Exact or Bullshit) of the next player in the cycle.  The winner
    is one of these two players or nobody; after a call of Exact it is the
    bettor or nobody, so with two players or more the caller of Exact never
    wins. *)
Theorem round_winner (fuel : nat) (first_move : option Z) (s s' : State)
    (winner : Z) :
  play players fuel first_move s = Ret (winner, s') ->
  exists r bets pm tm,
    rounds s' = rounds s ++ [r] /\
    game_state r = bets ++ [pm; tm] /\
    is_bet (claim pm) = true /\ is_bet (claim tm) = false /\
    mover tm = (mover pm + 1) mod n /\
    (winner = -1 \/ winner = mover pm \/ winner = mover tm) /\
    (is_exact (claim tm) = true -> winner = -1 \/ winner = mover pm) /\
    (is_exact (claim tm) = true -> 2 <= n -> winner <> mover tm).
Proof.
  intros Hplay.
  destruct (play_inv _ _ _ _ _ _ Hplay) as (_ & _ & _ & _ & _ & _ & f & _ & Hf).
  assert (players <> []) as Hne.
  { intros Hnil. unfold n_players in Hf. rewrite Hnil in Hf. simpl in Hf. lia. }
  destruct (play_shape _ _ _ _ _ Hplay)
    as (r & bets & pm & tm & g & Hrounds & _ & Hlog & Hbets & Hterminal & _ & _
        & Horder & Hw).
  apply Forall_app in Hbets as [_ Hbet]. apply Forall_inv in Hbet.
  assert (mover pm = Z.of_nat ((g + length bets) mod length players)) as Hpm.
  { apply Horder. rewrite Hlog. by apply list_lookup_middle. }
  assert (mover tm = Z.of_nat (S (g + length bets) mod length players)) as Htm.
  { rewrite (Horder (S (length bets)) tm).
    - do 2 f_equal. lia.
    - rewrite Hlog. rewrite (lookup_app_r bets) by lia.
      by replace (S (length bets) - length bets)%nat with 1%nat by lia. }
  assert (mover tm = (mover pm + 1) mod n) as Hnext.
  { by rewrite Htm, Hpm, succ_mod. }
  assert (0 <= mover pm < n) as Hrange.
  { rewrite Hpm. unfold n_players. split; [lia|].
    apply inj_lt, Nat.mod_upper_bound. by destruct players. }
  assert (0 <= mover tm) as Htm0 by (rewrite Htm; lia).
  exists r, bets, pm, tm.
  split; [done|]. split; [done|]. split; [done|]. split; [done|]. split; [done|].
  split; [|split].
  - destruct Hw as [(_ & [] & _ & ->)|(_ & [] & _ & ->)]; auto.
  - intros Hexact. destruct Hw as [(_ & [] & _ & ->)|(Hno & _)]; auto. congruence.
  - intros Hexact Hn Heq.
    destruct Hw as [(_ & [] & _ & ->)|(Hno & _)]; [lia| |congruence].
    rewrite Hnext in Heq.
    destruct (decide (mover pm + 1 < n)) as [Hlt|Hge].
    + rewrite Z.mod_small in Heq by lia. lia.
    + assert (mover pm + 1 = n) as Hwrap by lia.
      rewrite Hwrap, Z.mod_same in Heq by lia. lia.
Qed.

End rounds.

Lemma round_log_shape_witness :
  exists r bets tm,
    rounds scripted.duel_end = rounds (scripted.init [77777000; 0; 0]) ++ [r] /\
    game_state r = bets ++ [tm] /\ bets <> [] /\
    Forall (fun m => is_bet (claim m) = true) bets /\
    is_bet (claim tm) = false /\
    raises_from None bets.
Proof.
  exact (@round_log_shape scripted.world scripted.duel 10 None
           (scripted.init [77777000; 0; 0]) scripted.duel_end 0 duel_run).
Defined.

Lemma round_turn_order_witness :
  exists r,
    rounds scripted.duel_end = rounds (scripted.init [77777000; 0; 0]) ++ [r] /\
    forall (k : nat) (m : MoveRecord),
      game_state r !! k = Some m ->
      mover m = (first_idx r + Z.of_nat k) mod n_players scripted.duel.
Proof.
  exact (@round_turn_order scripted.world scripted.duel 10 None
           (scripted.init [77777000; 0; 0]) scripted.duel_end 0 duel_run).
Defined.

Lemma round_winner_witness :
  exists r bets pm tm,
    rounds scripted.duel_end = rounds (scripted.init [77777000; 0; 0]) ++ [r] /\
    game_state r = bets ++ [pm; tm] /\
    is_bet (claim pm) = true /\ is_bet (claim tm) = false /\
    mover tm = (mover pm + 1) mod n_players scripted.duel /\
    (0 = -1 \/ 0 = mover pm \/ 0 = mover tm) /\
    (is_exact (claim tm) = true -> 0 = -1 \/ 0 = mover pm) /\
    (is_exact (claim tm) = true -> 2 <= n_players scripted.duel -> 0 <> mover tm).
Proof.
  exact (@round_winner scripted.world scripted.duel 10 None
           (scripted.init [77777000; 0; 0]) scripted.duel_end 0 duel_run).
Defined.

(** ** Errors of a round *)

Section errors.
Context `{World}.
Variable players : list PlayerInterface.

Local Abbreviation n := (n_players players).

Lemma M_ret_eq {A} (a : A) (s : State) : (mret a : M A) s = Ret (a, s).
Proof. reflexivity. Qed.

(** Without players no round can be played: the draw of the first mover
    raises a [ValueError], and with a first mover given the empty cycle
    raises [StopIteration]. *)
Theorem play_without_players (fuel : nat) (first_move : Z) (s : State) :
  players = [] ->
  play players (S fuel) None s = Raise (ValueError EmptyRange) /\
  play players (S fuel) (Some first_move) s = Raise StopIteration.
Proof.
  intros ->. unfold play, deal, get_random_numbers, start_games, n_players.
  cbn [length get_random_numbers_loop for_enumerate fast_forward].
  rewrite size_empty. change (Z.of_nat 0 <? Z.of_nat 0) with false. cbv iota.
  split.
  - repeat first [rewrite M_bind_eq | rewrite M_ret_eq | progress cbv beta iota].
    by rewrite elements_empty.
  - repeat first [rewrite M_bind_eq | rewrite M_ret_eq | progress cbv beta iota
                 | rewrite next_player_empty by done].
    done.
Qed.

Lemma np_index_digit (total : list Z) (d : Z) :
  length total = 10%nat -> is_digit d -> exists actual, np_index total d = Ret actual.
Proof.
  intros Hlen Hd. unfold is_digit in Hd.
  destruct (lookup_lt_is_Some_2 total (Z.to_nat d)) as [actual Hactual]; [lia|].
  exists actual. unfold np_index. rewrite Hlen.
  destruct (Z.ltb_spec d 0); [lia|].
  destruct (Z.leb_spec 0 d); [|lia].
  destruct (Z.ltb_spec d (Z.of_nat 10)); [|lia].
  cbn [andb]. by rewrite Hactual.
Qed.

(** A bet that raises neither the digit nor the count of the bet before
    it makes the game loop raise the [ValueError] of [ensure_valid_raise];
    the round ends with that exception and returns no winner. *)
Theorem invalid_raise_is_fatal (fuel : nat) (numbers : list Z) (first_idx : Z)
    (first_draw : option Z) (total : list Z) (game_state : GameState)
    (prev_idx : Z) (prev_action : Action) (c1 d1 c2 d2 : Z) (s s1 : State)
    (idx : Z) (elapsed : Time) (action : Action) :
  in_play players game_state (Some (prev_idx, prev_action)) ->
  well_formed_bet prev_action ->
  count prev_action = Some c1 -> digit prev_action = Some d1 ->
  next_move players game_state s = Ret ((idx, elapsed, action), s1) ->
  well_formed_bet action ->
  count action = Some c2 -> digit action = Some d2 ->
  d2 <= d1 -> c2 <= c1 ->
  game_loop players (S fuel) total game_state (Some (prev_idx, prev_action)) s
  = Raise (ValueError InvalidRaise) /\
  conclude players (S fuel) numbers first_idx first_draw total game_state
    (Some (prev_idx, prev_action)) s = Raise (ValueError InvalidRaise).
Proof.
  intros _ Hprev Hc1 Hd1 Hmove Haction Hc2 Hd2 Hd Hc.
  apply well_formed_bet_inv in Hprev as (c & d & -> & _).
  apply well_formed_bet_inv in Haction as (c' & d' & -> & _).
  cbn in Hc1, Hd1, Hc2, Hd2. simplify_eq.
  match goal with |- ?raised /\ _ => assert raised as Hloop end.
  { cbn [game_loop]. rewrite M_bind_eq, Hmove. cbn [is_bet].
    rewrite M_bind_eq. cbn [fmap option_fmap option_map snd].
    rewrite ensure_valid_raise_bets.
    destruct (Z.ltb_spec d1 d2); [lia|]. destruct (Z.ltb_spec c1 c2); [lia|]. done. }
  split; [done | by apply conclude_Raise].
Qed.

Lemma cycle_distance_zero (L f g1 : nat) :
  (f < L)%nat -> (g1 < L)%nat -> ((f + L - g1) mod L = 0)%nat -> g1 = f.
Proof.
  intros Hf Hg Hdist. destruct (decide (g1 <= f)%nat).
  - assert (f + L - g1 = (f - g1) + 1 * L)%nat as Heq by lia.
    rewrite Heq, Nat.Div0.mod_add, Nat.mod_small in Hdist by lia. lia.
  - rewrite Nat.mod_small in Hdist by lia. lia.
Qed.

Lemma cycle_distance_step (L f g1 : nat) :
  (f < L)%nat -> (g1 < L)%nat -> g1 <> f ->
  ((f + L - g1) mod L = S ((f + L - S g1 mod L) mod L))%nat.
Proof.
  intros Hf Hg Hne. destruct (decide (S g1 = L)) as [Hwrap|Hnowrap].
  - rewrite Hwrap, Nat.Div0.mod_same, Nat.sub_0_r.
    replace (f + L)%nat with (f + 1 * L)%nat by lia.
    rewrite Nat.Div0.mod_add, (Nat.mod_small f), Nat.mod_small by lia. lia.
  - rewrite (Nat.mod_small (S g1)) by lia.
    destruct (decide (f < g1)%nat).
    + rewrite !Nat.mod_small by lia. lia.
    + assert (f + L - g1 = (f - g1) + 1 * L)%nat as Heq by lia.
      assert (f + L - S g1 = (f - S g1) + 1 * L)%nat as Heq' by lia.
      rewrite Heq, Heq', !Nat.Div0.mod_add, !Nat.mod_small by lia. lia.
Qed.

Lemma fast_forward_exact (first_idx : Z) (fuel : nat) :
  0 <= first_idx < n ->
  forall s : State,
    let dist := ((Z.to_nat first_idx + length players - S (gen s) mod length players)
                   mod length players)%nat in
    (dist < fuel)%nat ->
    fast_forward players fuel first_idx s
    = Ret (tt, mkState (gen s + S dist) (ext s) (rounds s)).
Proof.
  intros Hin. assert (players <> []) as Hne.
  { intros Hnil. unfold n_players in Hin. rewrite Hnil in Hin. simpl in Hin. lia. }
  assert (length players <> 0%nat) as Hlen by by destruct players.
  unfold n_players in Hin.
  induction fuel as [|fuel IH]; intros s dist Hdist; [lia|].
  cbn [fast_forward]. rewrite M_bind_eq.
  destruct (next_player_nonempty players s Hne) as [p ->].
  rewrite succ_mod by done.
  pose proof (Nat.mod_upper_bound (S (gen s)) (length players) Hlen) as Hb.
  destruct (Z.eqb_spec (Z.of_nat (S (gen s) mod length players)) first_idx) as [Heq|Hneq].
  - assert (dist = 0%nat) as ->.
    { unfold dist. rewrite <- Heq, Nat2Z.id.
      replace (S (gen s) mod length players + length players
               - S (gen s) mod length players)%nat with (0 + 1 * length players)%nat by lia.
      by rewrite Nat.Div0.mod_add, Nat.Div0.mod_0_l. }
    unfold mret, M_ret. do 3 f_equal. lia.
  - rewrite (IH (mkState (S (gen s)) (ext s) (rounds s))); cbn [gen ext rounds].
    + do 3 f_equal. unfold dist.
      rewrite (cycle_distance_step (length players) (Z.to_nat first_idx)
                 (S (gen s) mod length players)) by lia.
      change (S (S (gen s))) with (1 + S (gen s))%nat.
      change (S (S (gen s) mod length players)) with (1 + S (gen s) mod length players)%nat.
      rewrite Nat.Div0.add_mod_idemp_r. lia.
    + unfold dist in Hdist.
      rewrite (cycle_distance_step (length players) (Z.to_nat first_idx)
                 (S (gen s) mod length players)) in Hdist by lia.
      change (S (S (gen s))) with (1 + S (gen s))%nat.
      change (S (S (gen s) mod length players)) with (1 + S (gen s) mod length players)%nat
        in Hdist.
      rewrite Nat.Div0.add_mod_idemp_r in Hdist. lia.
Qed.

(** With a first mover that is a player's index, the loop that cycles the
    generator exits after at least one and at most [n] items, leaving the
    first mover as the next player; the world is not touched. *)
Theorem fast_forward_reaches (first_idx : Z) (fuel : nat) (s : State) :
  0 <= first_idx < n -> (length players <= fuel)%nat ->
  exists s',
    fast_forward players fuel first_idx s = Ret (tt, s') /\
    Z.of_nat (gen s' mod length players) = first_idx /\
    (gen s < gen s' <= gen s + length players)%nat /\
    ext s' = ext s /\ rounds s' = rounds s.
Proof.
  intros Hin Hfuel.
  assert (length players <> 0%nat) as Hlen.
  { unfold n_players in Hin. lia. }
  pose proof (Nat.mod_upper_bound
                (Z.to_nat first_idx + length players - S (gen s) mod length players)
                (length players) Hlen) as Hdist.
  eexists. split; [apply (fast_forward_exact first_idx fuel Hin s); lia|].
  cbn [gen ext rounds]. split; [|split; [lia | done]].
  pose proof (fast_forward_exact first_idx fuel Hin s ltac:(lia)) as Hrun.
  by apply fast_forward_inv in Hrun as (_ & ? & _).
Qed.

End errors.

Lemma play_without_players_witness :
  @play scripted.world [] 1 None (scripted.init []) = Raise (ValueError EmptyRange) /\
  @play scripted.world [] 1 (Some 0) (scripted.init []) = Raise StopIteration.
Proof. apply (@play_without_players scripted.world [] 0 0). reflexivity. Defined.

Lemma invalid_raise_is_fatal_witness :
  @game_loop scripted.world
    [scripted.always (scripted.bet 6 7); scripted.always (scripted.bet 6 7)]
    1 scripted.five_sevens scripted.log_after_bet
    (Some (0, scripted.bet 6 7)) scripted.state_after_bet
  = Raise (ValueError InvalidRaise) /\
  @conclude scripted.world [scripted.always (scripted.bet 6 7); scripted.always (scripted.bet 6 7)]
    1 [77777000; 0] 0 None scripted.five_sevens scripted.log_after_bet
    (Some (0, scripted.bet 6 7)) scripted.state_after_bet
  = Raise (ValueError InvalidRaise).
Proof.
  apply (@invalid_raise_is_fatal scripted.world
           [scripted.always (scripted.bet 6 7); scripted.always (scripted.bet 6 7)]
           0 [77777000; 0] 0 None scripted.five_sevens scripted.log_after_bet
           0 (scripted.bet 6 7) 6 7 6 7 scripted.state_after_bet
           (@mkState scripted.world 2 [] []) 1 tt (scripted.bet 6 7));
    try reflexivity; try lia; try (split; reflexivity).
  by apply in_play_after_bet.
Defined.

Lemma fast_forward_reaches_witness :
  exists s',
    @fast_forward scripted.world scripted.duel 2 1 (scripted.init []) = Ret (tt, s') /\
    Z.of_nat (gen s' mod length scripted.duel) = 1 /\
    (gen (scripted.init []) < gen s' <= gen (scripted.init []) + length scripted.duel)%nat /\
    ext s' = ext (scripted.init []) /\ rounds s' = rounds (scripted.init []).
Proof.
  apply (@fast_forward_reaches scripted.world scripted.duel 1 2 (scripted.init [])).
  - unfold n_players. simpl. lia.
  - simpl. lia.
Defined.

(** ** What a round can raise *)

Section taxonomy.
Context `{World}.
Variable players : list PlayerInterface.
Hypothesis randint_range : forall low high e,
  low < high -> low <= (randint low high e).1 < high.
Hypothesis players_valid : forall player game_state e,
  player ∈ players -> valid (make_move player game_state e).1.

Local Abbreviation n := (n_players players).

Lemma fast_forward_Raise (fuel : nat) (first_idx : Z) :
  forall (s : State) (e : exn),
    fast_forward players fuel first_idx s = Raise e ->
    players = [] /\ e = StopIteration.
Proof.
  induction fuel as [|fuel IH]; intros s e; [done|].
  cbn [fast_forward]. rewrite M_bind_eq.
  destruct players as [|p ps] eqn:Hplayers.
  - rewrite next_player_empty by done. by intros [= <-].
  - rewrite <- Hplayers in *.
    destruct (next_player_nonempty players s) as [q ->]; [by rewrite Hplayers|].
    destruct (_ =? _); [done|]. intros Hff. apply IH in Hff as [Hnil _].
    by rewrite Hplayers in Hnil.
Qed.

Lemma deal_Raise (fuel : nat) (first_move : option Z) (s : State) (e : exn) :
  deal players fuel first_move s = Raise e ->
  players = [] /\ (e = StopIteration \/ e = ValueError EmptyRange).
Proof.
  unfold deal. rewrite M_bind_eq.
  destruct (get_random_numbers_cases fuel n s) as [->|(l & sa & -> & Hlen)]; [done|].
  rewrite M_bind_eq.
  destruct (start_games_returns players l sa Hlen) as (us & sb & -> & _).
  rewrite M_bind_eq. destruct first_move as [f|].
  - rewrite M_ret_eq, M_bind_eq.
    destruct (fast_forward players fuel f sb) as [[[] sc]|e'|] eqn:Hff; try done.
    intros [= <-]. apply fast_forward_Raise in Hff as [? ->]. auto.
  - rewrite M_bind_eq. unfold np_random_randint.
    destruct (Z.ltb_spec 0 n) as [Hn|Hn].
    + rewrite call_eq, M_ret_eq, M_bind_eq.
      destruct (fast_forward players fuel _ _) as [[[] sc]|e'|] eqn:Hff; try done.
      intros [= <-]. apply fast_forward_Raise in Hff as [? ->]. auto.
    + intros [= <-]. split; [|by right].
      unfold n_players in Hn. destruct players; [done | simpl in Hn; lia].
Qed.

Lemma dealt_numbers (fuel : nat) (first_move : option Z) (s s1 : State)
    (numbers : list Z) (first_idx : Z) (first_draw : option Z) :
  deal players fuel first_move s = Ret ((numbers, first_idx, first_draw), s1) ->
  players <> [] /\ numbers <> [] /\ NoDup numbers /\
  Forall (fun x => 0 <= x < 10 ^ 8) numbers.
Proof.
  intros Hdeal.
  destruct (deal_inv _ _ _ _ _ _ _ _ Hdeal) as (_ & Hfi & _ & Hnodup & Hlen & _).
  assert (players <> []) as Hne.
  { intros Hnil. unfold n_players in Hfi. rewrite Hnil in Hfi. simpl in Hfi. lia. }
  repeat split; try done.
  - intros ->. unfold n_players in *. cbn [length] in Hlen. lia.
  - unfold deal in Hdeal.
    apply M_bind_Ret_inv in Hdeal as (l & sa & Hnumbers & Hrest).
    apply M_bind_Ret_inv in Hrest as (us & sb & _ & Hrest).
    apply M_bind_Ret_inv in Hrest as ([fi fd] & sc & _ & Hrest).
    apply M_bind_Ret_inv in Hrest as ([] & sd & _ & Hret).
    unfold mret, M_ret in Hret. injection Hret as <- <- <- <-.
    by eapply get_random_numbers_in_range.
Qed.

(** Among players who return validated actions, the game loop raises
    nothing but the two errors of the rules. *)
Lemma game_loop_Raise (total : list Z) (fuel : nat) :
  players <> [] -> length total = 10%nat ->
  forall (game_state : GameState) (prev : option (Z * Action)) (s : State) (e : exn),
    (forall prev_idx prev_action,
       prev = Some (prev_idx, prev_action) -> well_formed_bet prev_action) ->
    game_loop players fuel total game_state prev s = Raise e ->
    e = ValueError InvalidRaise \/ e = RuntimeError FirstMoveNotBet.
Proof.
  intros Hne Htotal.
  induction fuel as [|fuel IH]; intros gs prev s e Hprev; [done|].
  cbn [game_loop]. rewrite M_bind_eq.
  destruct (next_move_nonempty players gs s Hne) as (p & Hp & ->).
  assert (valid (make_move p gs (ext s)).1) as Hvalid.
  { apply players_valid. by eapply list_elem_of_lookup_2. }
  set (a := (make_move p gs (ext s)).1) in *.
  destruct (is_bet a) eqn:Hbet.
  - rewrite M_bind_eq.
    assert (well_formed_bet a) as Hwf by done.
    destruct prev as [[pi pa]|]; cbn [fmap option_fmap option_map snd].
    + destruct (well_formed_bet_inv pa (Hprev _ _ eq_refl)) as (c & d & -> & _).
      destruct (well_formed_bet_inv a Hwf) as (c' & d' & Ha & _). rewrite Ha.
      rewrite ensure_valid_raise_bets.
      destruct (_ || _); cbn [lift].
      * rewrite <- Ha. apply IH. by intros ? ? [= <- <-].
      * intros [= <-]. by left.
    + cbn [ensure_valid_raise lift]. apply IH. by intros ? ? [= <- <-].
  - destruct prev as [[pi pa]|]; [|intros [= <-]; by right].
    destruct (well_formed_bet_inv pa (Hprev _ _ eq_refl)) as (c & d & -> & _ & Hd).
    destruct (np_index_digit total d Htotal Hd) as [actual Hactual].
    destruct (is_exact a); rewrite M_bind_eq.
    + by rewrite (exact_is_right_eq total _ c d actual).
    + by rewrite (bullshit_is_right_eq total _ c d actual).
Qed.

(** With draws in range and players who return validated actions, [play]
    raises nothing but: the [ValueError] of an invalid raise, the
    [RuntimeError] of a first move that is no bet, and, when there is no
    player at all, [StopIteration] or the [ValueError] of the draw. *)
Theorem play_errors (fuel : nat) (first_move : option Z) (s : State) (e : exn) :
  play players fuel first_move s = Raise e ->
  (players <> [] /\
   (e = ValueError InvalidRaise \/ e = RuntimeError FirstMoveNotBet)) \/
  (players = [] /\ (e = StopIteration \/ e = ValueError EmptyRange)).
Proof.
  unfold play. rewrite M_bind_eq.
  destruct (deal players fuel first_move s) as [[[[numbers fi] fd] s1]|e'|] eqn:Hdeal;
    [| intros [= <-]; right; by eapply deal_Raise | done].
  destruct (dealt_numbers _ _ _ _ _ _ _ Hdeal) as (Hne & Hnumbers & Hnodup & Hrange).
  destruct (total_digit_counts_vector numbers Hrange Hnumbers
              (distinct_numbers_fit numbers Hnodup Hrange))
    as (total & Htotal & Hlen & _).
  rewrite M_bind_eq, Htotal. cbn [lift]. intros Hconclude. left. split; [done|].
  destruct (game_loop players fuel total [] None s1) as [[[gs w] s2]|e'|] eqn:Hloop.
  - destruct (conclude_Ret players fuel numbers fi fd total _ _ _ _ _ _ Hloop)
      as (s3 & Hret & _).
    by rewrite Hret in Hconclude.
  - rewrite (conclude_Raise _ _ _ _ _ _ _ _ _ _ Hloop) in Hconclude.
    injection Hconclude as <-.
    by apply (game_loop_Raise total fuel Hne Hlen [] None s1 e').
  - unfold conclude in Hconclude. by rewrite M_bind_eq, Hloop in Hconclude.
Qed.

End taxonomy.

Lemma scripted_always_valid (a b : Action) player game_state e :
  valid a -> valid b ->
  player ∈ [scripted.always a; scripted.always b] ->
  valid (make_move player game_state e).1.
Proof.
  intros Ha Hb Hin. apply list_elem_of_In in Hin.
  destruct Hin as [<-|[<-|[]]]; done.
Qed.

Lemma play_errors_witness :
  (scripted.opening <> [] /\
   (RuntimeError FirstMoveNotBet = ValueError InvalidRaise \/
    RuntimeError FirstMoveNotBet = RuntimeError FirstMoveNotBet)) \/
  (scripted.opening = [] /\
   (RuntimeError FirstMoveNotBet = StopIteration \/
    RuntimeError FirstMoveNotBet = ValueError EmptyRange)).
Proof.
  apply (@play_errors scripted.world scripted.opening scripted_randint_range
           (fun player game_state e =>
              scripted_always_valid scripted.exact (scripted.bet 6 7)
                player game_state e eq_refl eq_refl)
           10 None (scripted.init [77777000; 0; 0])).
  vm_cast_no_check (eq_refl (@Raise (Z * @State scripted.world) (RuntimeError FirstMoveNotBet))).
Defined.

(** ** Rounds without end, and many rounds *)

Section endless.
Context `{World}.
Variables p0 p1 : PlayerInterface.
Variables a b : Action.
Variables ca da cb db : Z.
Hypothesis p0_bets : forall game_state e, (make_move p0 game_state e).1 = a.
Hypothesis p1_bets : forall game_state e, (make_move p1 game_state e).1 = b.
Hypothesis a_bet : well_formed_bet a.
Hypothesis b_bet : well_formed_bet b.
Hypothesis a_count : count a = Some ca.
Hypothesis a_digit : digit a = Some da.
Hypothesis b_count : count b = Some cb.
Hypothesis b_digit : digit b = Some db.
Hypothesis higher_digit : da > db.
Hypothesis lower_count : ca < cb.

Lemma raise_a_over_b : ensure_valid_raise a (Some b) = Ret None.
Proof.
  destruct (well_formed_bet_inv a a_bet) as (c & d & Ha & _).
  destruct (well_formed_bet_inv b b_bet) as (c' & d' & Hb & _).
  rewrite Ha, Hb in *. cbn in a_count, a_digit, b_count, b_digit. simplify_eq.
  rewrite ensure_valid_raise_bets. destruct (Z.ltb_spec db da); [done | lia].
Qed.

Lemma raise_b_over_a : ensure_valid_raise b (Some a) = Ret None.
Proof.
  destruct (well_formed_bet_inv a a_bet) as (c & d & Ha & _).
  destruct (well_formed_bet_inv b b_bet) as (c' & d' & Hb & _).
  rewrite Ha, Hb in *. cbn in a_count, a_digit, b_count, b_digit. simplify_eq.
  rewrite ensure_valid_raise_bets.
  destruct (Z.ltb_spec da db); [lia|]. destruct (Z.ltb_spec ca cb); [done | lia].
Qed.

Lemma succ_mod_2 (g : nat) :
  (S g mod 2 = if g mod 2 =? 0 then 1 else 0)%nat.
Proof.
  pose proof (Nat.mod_upper_bound g 2 ltac:(lia)) as Hg.
  change (S g) with (1 + g)%nat. rewrite <- Nat.Div0.add_mod_idemp_r.
  destruct (g mod 2)%nat as [|[|k]]; [done | done | lia].
Qed.

Lemma alternating_bets_loop (total : list Z) (fuel : nat) :
  forall (game_state : GameState) (prev : option (Z * Action)) (s : State),
    match prev with
    | None => True
    | Some (_, prev_action) => prev_action = if (gen s mod 2 =? 0)%nat then b else a
    end ->
    game_loop [p0; p1] fuel total game_state prev s = OutOfFuel.
Proof.
  induction fuel as [|fuel IH]; intros gs prev s Hprev; [done|].
  cbn [game_loop]. rewrite M_bind_eq.
  destruct (next_move_nonempty [p0; p1] gs s) as (p & Hp & ->); [done|].
  cbn [length] in Hp.
  pose proof (Nat.mod_upper_bound (gen s) 2 ltac:(lia)) as Hg.
  destruct (gen s mod 2)%nat as [|[|k]] eqn:Hmod; [| |lia].
  - injection Hp as <-. rewrite p0_bets. destruct a_bet as [_ ->].
    rewrite M_bind_eq.
    assert (returns (ensure_valid_raise a (snd <$> prev))) as [v ->].
    { destruct prev as [[pi pa]|]; [|by eexists].
      cbn in Hprev. subst pa. cbn [fmap option_fmap option_map snd].
      rewrite raise_a_over_b. by eexists. }
    cbn [lift]. apply IH. cbn [gen]. by rewrite succ_mod_2, Hmod.
  - injection Hp as <-. rewrite p1_bets. destruct b_bet as [_ ->].
    rewrite M_bind_eq.
    assert (returns (ensure_valid_raise b (snd <$> prev))) as [v ->].
    { destruct prev as [[pi pa]|]; [|by eexists].
      cbn in Hprev. subst pa. cbn [fmap option_fmap option_map snd].
      rewrite raise_b_over_a. by eexists. }
    cbn [lift]. apply IH. cbn [gen]. by rewrite succ_mod_2, Hmod.
Qed.

(** The engine sets no bound on the moves of a round.  Two players who
    keep answering with two bets of which one has the higher digit and the
    other the higher count raise each other for ever: the game loop is
    still running at every fuel, and [play] never returns a winner. *)
Theorem alternating_bets_never_end :
  (forall fuel total s, game_loop [p0; p1] fuel total [] None s = OutOfFuel) /\
  (forall fuel first_move s, ~ returns (play [p0; p1] fuel first_move s)).
Proof.
  split.
  - intros fuel total s. by apply alternating_bets_loop.
  - intros fuel first_move s [[w s'] Hplay]. unfold play in Hplay.
    apply M_bind_Ret_inv in Hplay as ([[numbers fi] fd] & s1 & _ & Hrest).
    apply M_bind_Ret_inv in Hrest as (total & s2 & _ & Hconclude).
    apply conclude_inv in Hconclude as (gs' & s3 & Hloop & _).
    by rewrite alternating_bets_loop in Hloop.
Qed.

End endless.

Lemma alternating_bets_never_end_witness :
  (forall fuel total s,
     @game_loop scripted.world
       [scripted.always (scripted.bet 1 2); scripted.always (scripted.bet 5 1)]
       fuel total [] None s = OutOfFuel) /\
  (forall fuel first_move s,
     ~ returns (@play scripted.world
                  [scripted.always (scripted.bet 1 2); scripted.always (scripted.bet 5 1)]
                  fuel first_move s)).
Proof.
  apply (@alternating_bets_never_end scripted.world
           (scripted.always (scripted.bet 1 2)) (scripted.always (scripted.bet 5 1))
           (scripted.bet 1 2) (scripted.bet 5 1) 1 2 5 1);
    try reflexivity; try lia; split; reflexivity.
Defined.

Section many_rounds.
Context `{World}.
Variable players : list PlayerInterface.

Lemma play_many_loop_result (fuel : nat) (k : nat) :
  forall (winner_idxs : list Z) (last : option Z) (s s' : State) (ws : list Z),
    play_many_loop players fuel k winner_idxs last s = Ret (ws, s') ->
    exists new,
      ws = winner_idxs ++ new /\ length new = k /\
      Forall (fun w => w = -1 \/ 0 <= w < n_players players) new /\
      length (rounds s') = (length (rounds s) + k)%nat.
Proof.
  induction k as [|k IH]; intros acc last s s' ws.
  { intros [= <- <-]. exists []. rewrite app_nil_r. repeat split; [done | lia]. }
  cbn [play_many_loop]. intros (w & s1 & Hplay & Hrest)%M_bind_Ret_inv.
  apply play_inv in Hplay as (r & Hr & _ & _ & Hw & _).
  apply IH in Hrest as (new & -> & Hlen & Hall & Hrounds).
  exists (w :: new). rewrite <- app_assoc. repeat split; try done.
  - cbn [length]. by rewrite Hlen.
  - by constructor.
  - rewrite Hrounds, Hr, length_app. cbn [length]. lia.
Qed.

(** An exception of the loop is the exception of one call of [play]: the
    rounds before it returned, and it got the first mover they left. *)
Lemma play_many_loop_Raise (fuel : nat) (k : nat) :
  forall (winner_idxs : list Z) (first_move : option Z) (s : State) (e : exn),
    play_many_loop players fuel k winner_idxs first_move s = Raise e ->
    exists (j : nat) (ws : list Z) (s0 : State),
      (j < k)%nat /\ length ws = j /\
      play_many_loop players fuel j winner_idxs first_move s
      = Ret (winner_idxs ++ ws, s0) /\
      play players fuel
        (match last ws with
         | Some w => if w =? -1 then None else Some w
         | None => first_move
         end) s0 = Raise e.
Proof.
  induction k as [|k IH]; intros acc first_move s e; [done|].
  cbn [play_many_loop]. rewrite M_bind_eq.
  destruct (play players fuel first_move s) as [[w s1]|e'|] eqn:Hplay; [| |done].
  - intros (j & ws & s0 & Hj & Hlen & Hloop & Hraise)%IH.
    exists (S j), (w :: ws), s0. split; [lia|]. split; [by cbn; rewrite Hlen|].
    split.
    + cbn [play_many_loop]. rewrite M_bind_eq, Hplay, Hloop. by rewrite <- app_assoc.
    + rewrite last_cons. by destruct (last ws).
  - intros [= <-]. exists 0%nat, [], s. split; [lia|]. split; [done|].
    split; [|done]. cbn [play_many_loop]. unfold mret, M_ret. by rewrite app_nil_r.
Qed.

(** [play_many] answers one entry for each round asked for, each the tie
    sentinel or a player's index, and plays that many rounds; asked for no
    round, or for a negative number of rounds, it plays none; and what it
    raises is raised by one of its rounds: the rounds before that one
    returned, and [play] raises it in the state they left, called with the
    winner of the round before as first mover ([None] for the first round
    and after a tie). *)
Theorem play_many_result (fuel : nat) (n_rounds : Z) (s : State) :
  (forall winner_idxs s',
     play_many players fuel n_rounds s = Ret (winner_idxs, s') ->
     Z.of_nat (length winner_idxs) = Z.max 0 n_rounds /\
     Forall (fun w => w = -1 \/ 0 <= w < n_players players) winner_idxs /\
     Z.of_nat (length (rounds s')) = Z.of_nat (length (rounds s)) + Z.max 0 n_rounds) /\
  (n_rounds <= 0 -> play_many players fuel n_rounds s = Ret ([], s)) /\
  (forall e,
     play_many players fuel n_rounds s = Raise e ->
     exists (j : Z) (ws : list Z) (s0 : State),
       0 <= j < n_rounds /\ Z.of_nat (length ws) = j /\
       play_many players fuel j s = Ret (ws, s0) /\
       play players fuel
         (match last ws with
          | Some w => if w =? -1 then None else Some w
          | None => None
          end) s0 = Raise e).
Proof.
  unfold play_many. split; [|split].
  - intros ws s' (new & -> & Hlen & Hall & Hrounds)%play_many_loop_result.
    cbn [app]. repeat split; [lia | done | lia].
  - intros Hk. by replace (Z.to_nat n_rounds) with 0%nat by lia.
  - intros e (j & ws & s0 & Hj & Hlen & Hloop & Hraise)%play_many_loop_Raise.
    exists (Z.of_nat j), ws, s0. rewrite Nat2Z.id.
    split; [lia|]. split; [lia|]. by split.
Qed.

End many_rounds.

Lemma tie_then_raise_run :
  @play_many scripted.world scripted.duel 10 2
    (scripted.init [77777700; 0; 0; 1; 2; 1])
  = Raise (RuntimeError FirstMoveNotBet).
Proof. vm_cast_no_check (eq_refl (@Raise (list Z * @State scripted.world)
                                         (RuntimeError FirstMoveNotBet))). Qed.

Lemma play_many_result_witness :
  (Z.of_nat (length [0; -1; 0]) = Z.max 0 3 /\
   Forall (fun w => w = -1 \/ 0 <= w < n_players scripted.duel) [0; -1; 0] /\
   Z.of_nat (length (rounds scripted.three_rounds_end))
   = Z.of_nat (length (rounds (scripted.init scripted.three_rounds))) + Z.max 0 3) /\
  exists (j : Z) (ws : list Z) (s0 : State),
    0 <= j < 2 /\ Z.of_nat (length ws) = j /\
    @play_many scripted.world scripted.duel 10 j
      (scripted.init [77777700; 0; 0; 1; 2; 1]) = Ret (ws, s0) /\
    play scripted.duel 10
      (match last ws with
       | Some w => if w =? -1 then None else Some w
       | None => None
       end) s0 = Raise (RuntimeError FirstMoveNotBet).
Proof.
  split.
  - exact (proj1 (@play_many_result scripted.world scripted.duel 10 3
                    (scripted.init scripted.three_rounds))
             _ _ three_rounds_run).
  - exact (proj2 (proj2 (@play_many_result scripted.world scripted.duel 10 2
                           (scripted.init [77777700; 0; 0; 1; 2; 1])))
             _ tie_then_raise_run).
Defined.

(** ** Bets within one's own number *)

Section own_number.

(** Adding two vectors of counts adds their entries, below the width of
    the accumulator. *)
Lemma zip_with_uint64_add_lookup (a b : list Z) (d : nat) (x y : Z) :
  Forall (Z.le 0) a -> Forall (Z.le 0) b ->
  sum_entries a + sum_entries b < 2 ^ 64 ->
  a !! d = Some x -> b !! d = Some y ->
  zip_with uint64_add a b !! d = Some (x + y).
Proof.
  intros Ha Hb Hsum Hx Hy. rewrite lookup_zip_with, Hx, Hy. cbn.
  pose proof (sum_entries_lookup_le a d x Ha Hx).
  pose proof (sum_entries_lookup_le b d y Hb Hy).
  unfold uint64_add. by rewrite Z.mod_small by lia.
Qed.

(** Every entry of the total is at least the entry of the vector it starts
    from, and at least the same entry of each vector added. *)
Lemma foldl_zip_with_lookup (rows : list (list Z)) :
  forall (acc : list Z) (d : nat) (x : Z),
    length acc = 10%nat -> Forall (Z.le 0) acc -> Forall counts_of_number rows ->
    sum_entries acc + 8 * Z.of_nat (length rows) < 2 ^ 64 ->
    acc !! d = Some x ->
    exists t, foldl (zip_with uint64_add) acc rows !! d = Some t /\ x <= t /\
              forall i row y, rows !! i = Some row -> row !! d = Some y -> y <= t.
Proof.
  induction rows as [|r rows IH]; intros acc d x Hlen Hpos Hrows Hsum Hx.
  { exists x. cbn [foldl]. repeat split; [done | lia | done]. }
  apply Forall_cons in Hrows as [(Hr1 & Hr2 & Hr3) Hrows].
  cbn [length] in Hsum. cbn [foldl].
  destruct (zip_with_uint64_add acc r) as (Hl & Hp & Hs); try done; try lia.
  assert (d < length r)%nat as Hd.
  { rewrite Hr1, <- Hlen. by eapply lookup_lt_Some. }
  destruct (lookup_lt_is_Some_2 r d Hd) as [y Hy].
  pose proof (zip_with_uint64_add_lookup acc r d x y Hpos Hr2 ltac:(lia) Hx Hy) as Hxy.
  destruct (IH (zip_with uint64_add acc r) d (x + y)) as (t & Ht & Hle & Hrest);
    try done; try lia.
  pose proof (proj1 (Forall_lookup _ _) Hr2 d y Hy) as Hy0. cbn in Hy0.
  pose proof (proj1 (Forall_lookup _ _) Hpos d x Hx) as Hx0. cbn in Hx0.
  exists t. split; [done|]. split; [lia|].
  intros [|i] row y' Hrow Hy'; cbn in Hrow.
  - injection Hrow as <-. rewrite Hy in Hy'. injection Hy' as <-. lia.
  - by eapply Hrest.
Qed.

Lemma mapM_Ret_lookup {A B} (f : A -> result B) (l : list A) :
  forall (rows : list B) (i : nat) (x : A),
    mapM f l = Ret rows -> l !! i = Some x ->
    exists y, f x = Ret y /\ rows !! i = Some y.
Proof.
  induction l as [|a l IH]; intros rows i x Hrows Hx; [done|].
  cbn [mapM] in Hrows. destruct (f a) as [b| |] eqn:Hb; try done.
  cbn [mbind result_bind] in Hrows.
  destruct (mapM f l) as [bs| |] eqn:Hbs; try done.
  cbn [mbind result_bind] in Hrows. injection Hrows as <-.
  destruct i as [|i]; cbn in Hx |- *.
  - injection Hx as <-. by exists b.
  - by apply (IH bs i x).
Qed.

(** The total count of a digit is at least its count in each number. *)
Lemma total_at_least_own (numbers : list Z) (total counts : list Z) (i : nat)
    (x d actual : Z) :
  Forall (fun x => 0 <= x < 10 ^ 8) numbers ->
  8 * Z.of_nat (length numbers) < 2 ^ 64 ->
  total_digit_counts numbers = Ret total ->
  numbers !! i = Some x -> to_counts x = Ret counts ->
  np_index counts d = Ret actual ->
  exists t, np_index total d = Ret t /\ actual <= t.
Proof.
  intros Hrange Hfit Htotal Hx Hcounts Hactual.
  destruct (mapM_to_counts numbers Hrange) as (rows & Hrows & Hlen & Hall).
  unfold total_digit_counts in Htotal. rewrite Hrows in Htotal.
  cbn [mbind result_bind] in Htotal. injection Htotal as <-.
  destruct (mapM_Ret_lookup to_counts numbers rows i x Hrows Hx) as (row & Hrow & Hi).
  rewrite Hcounts in Hrow. injection Hrow as <-.
  assert (Forall (fun v => length v = 10%nat /\ Forall (Z.le 0) v) rows) as Hshape.
  { eapply Forall_impl; [exact Hall|]. by intros v (? & ? & _). }
  destruct (proj1 (Forall_lookup _ _) Hshape i counts Hi) as [Hclen Hcpos].
  unfold np_index in Hactual |- *. rewrite Hclen in Hactual.
  set (j := if d <? 0 then d + Z.of_nat 10 else d) in *.
  destruct ((0 <=? j) && (j <? Z.of_nat 10)) eqn:Hj; [|done].
  destruct (counts !! Z.to_nat j) as [y|] eqn:Hy; [|done]. injection Hactual as ->.
  destruct rows as [|r rows]; [done|]. cbn [np_sum_axis0].
  apply Forall_cons in Hall as [(Hr1 & Hr2 & Hr3) Hall].
  assert (Z.to_nat j < length r)%nat as Hlt.
  { rewrite Hr1. apply andb_prop in Hj as [? ?%Z.ltb_lt]. lia. }
  destruct (lookup_lt_is_Some_2 r _ Hlt) as [y0 Hy0].
  cbn [length] in Hlen.
  destruct (foldl_zip_with_lookup rows r (Z.to_nat j) y0 Hr1 Hr2 Hall ltac:(lia) Hy0)
    as (t & Ht & Hle & Hrest).
  destruct (foldl_zip_with_total rows r Hr1 Hr2 Hall ltac:(lia)) as (Htlen & _).
  rewrite Htlen. fold j. rewrite Hj, Ht. exists t. split; [done|].
  destruct i as [|i]; cbn in Hi.
  - injection Hi as ->. rewrite Hy in Hy0. by injection Hy0 as ->.
  - by eapply Hrest.
Qed.

(** A bet is safe from a call of Bullshit when one of the numbers of the
    round alone holds the digit as often as the bet says: the total count
    is at least the count in that number, so the test [count > total] of
    the engine is false, and the test [count == total] of an Exact call
    compares the count with that total. *)
Theorem bet_within_own_number (numbers total counts : list Z) (i : nat)
    (x c d actual : Z) :
  Forall (fun x => 0 <= x < 10 ^ 8) numbers ->
  8 * Z.of_nat (length numbers) < 2 ^ 64 ->
  total_digit_counts numbers = Ret total ->
  numbers !! i = Some x -> to_counts x = Ret counts ->
  np_index counts d = Ret actual -> c <= actual ->
  bullshit_is_right total (mkAction false false true (Some c) (Some d)) = Ret false /\
  exists t, np_index total d = Ret t /\ actual <= t /\
            exact_is_right total (mkAction false false true (Some c) (Some d))
            = Ret (c =? t).
Proof.
  intros Hrange Hfit Htotal Hx Hcounts Hactual Hc.
  destruct (total_at_least_own numbers total counts i x d actual)
    as (t & Ht & Hle); try done.
  rewrite (bullshit_is_right_eq total (mkAction false false true (Some c) (Some d))
             c d t eq_refl eq_refl Ht).
  rewrite (exact_is_right_eq total (mkAction false false true (Some c) (Some d))
             c d t eq_refl eq_refl Ht).
  split; [|by exists t]. f_equal. apply Z.ltb_ge. lia.
Qed.

End own_number.

Lemma bet_within_own_number_witness :
  bullshit_is_right [11; 0; 0; 0; 0; 0; 0; 5; 0; 0]
    (mkAction false false true (Some 5) (Some 7)) = Ret false /\
  exists t, np_index [11; 0; 0; 0; 0; 0; 0; 5; 0; 0] 7 = Ret t /\ 5 <= t /\
            exact_is_right [11; 0; 0; 0; 0; 0; 0; 5; 0; 0]
              (mkAction false false true (Some 5) (Some 7)) = Ret (5 =? t).
Proof.
  apply (bet_within_own_number [77777000; 0] [11; 0; 0; 0; 0; 0; 0; 5; 0; 0]
           [3; 0; 0; 0; 0; 0; 0; 5; 0; 0] 0 77777000 5 7 5).
  - repeat constructor; lia.
  - simpl. lia.
  - reflexivity.
  - reflexivity.
  - reflexivity.
  - reflexivity.
  - lia.
Defined.

(** ** Doubles *)

(** Python's floats are IEEE 754 doubles, the primitive floats of Rocq;
    the facts below are read off their specification in [SpecFloat]. *)

Section doubles.
Import PrimFloat SpecFloat FloatOps FloatAxioms.

Lemma digits2_pos_size (p : positive) : digits2_pos p = Pos.size p.
Proof. induction p as [p IH|p IH|]; cbn; by rewrite ?IH. Qed.

(** A positive number of [d] binary digits lies in [[2 ^ (d - 1), 2 ^ d)]. *)
Lemma digits2_bounds (p : positive) :
  2 ^ (Z.pos (digits2_pos p) - 1) <= Z.pos p < 2 ^ Z.pos (digits2_pos p).
Proof.
  rewrite digits2_pos_size.
  pose proof (Pos.size_gt p) as Hgt. pose proof (Pos.size_le p) as Hle.
  apply Pos2Z.pos_lt_pos in Hgt. apply Pos2Z.pos_le_pos in Hle.
  rewrite Pos2Z.inj_pow in Hgt, Hle.
  change (Z.pos p~0) with (2 * Z.pos p) in Hle.
  split; [|done].
  assert (2 ^ Z.pos (Pos.size p) = 2 * 2 ^ (Z.pos (Pos.size p) - 1)) as Hpow.
  { rewrite <- Z.pow_succ_r by lia. f_equal. lia. }
  lia.
Qed.

Lemma digits2_unique (p : positive) (d : Z) :
  2 ^ (d - 1) <= Z.pos p < 2 ^ d -> Z.pos (digits2_pos p) = d.
Proof.
  intros [Hle Hlt]. pose proof (digits2_bounds p) as [Hle' Hlt'].
  assert (0 < d).
  { destruct (Z.lt_ge_cases 0 d); [done|].
    assert (2 ^ d <= 2 ^ 0) by (apply Z.pow_le_mono_r; lia). simpl in *. lia. }
  destruct (Z.lt_trichotomy (Z.pos (digits2_pos p)) d) as [Hc|[Hc|Hc]]; [|done|].
  - assert (2 ^ Z.pos (digits2_pos p) <= 2 ^ (d - 1)) by (apply Z.pow_le_mono_r; lia).
    lia.
  - assert (2 ^ d <= 2 ^ (Z.pos (digits2_pos p) - 1)) by (apply Z.pow_le_mono_r; lia).
    lia.
Qed.

(** Shifting a mantissa that is not negative to the right halves it. *)
Lemma shr_1_div (mrs : shr_record) :
  0 <= shr_m mrs -> shr_m (shr_1 mrs) = shr_m mrs / 2.
Proof.
  destruct mrs as [[|[p|p|]|p] r s]; cbn [shr_m shr_1]; intros Hm; try lia; try done.
  - rewrite Pos2Z.inj_xI. apply Z.div_unique with 1; lia.
  - rewrite Pos2Z.inj_xO. apply Z.div_unique with 0; lia.
Qed.

Lemma iter_pos_shr_1_div (p : positive) :
  forall mrs, 0 <= shr_m mrs ->
    shr_m (iter_pos shr_1 p mrs) = shr_m mrs / 2 ^ Z.pos p.
Proof.
  induction p as [p IH|p IH|]; intros mrs Hm; cbn [iter_pos].
  - assert (0 <= shr_m (shr_1 mrs)) as H1
      by (rewrite shr_1_div by done; by apply Z.div_pos).
    assert (0 <= shr_m (iter_pos shr_1 p (shr_1 mrs))) as H2.
    { rewrite IH by done. apply Z.div_pos; [done|]. by apply Z.pow_pos_nonneg. }
    rewrite IH, IH, shr_1_div by done.
    rewrite !Z.div_div by (try lia; by apply Z.pow_pos_nonneg).
    f_equal. assert (Z.pos p~1 = 1 + Z.pos p + Z.pos p) as -> by lia.
    rewrite !Z.pow_add_r by lia. lia.
  - assert (0 <= shr_m (iter_pos shr_1 p mrs)) as H2.
    { rewrite IH by done. apply Z.div_pos; [done|]. by apply Z.pow_pos_nonneg. }
    rewrite IH, IH by done.
    rewrite !Z.div_div by (try lia; by apply Z.pow_pos_nonneg).
    f_equal. assert (Z.pos p~0 = Z.pos p + Z.pos p) as -> by lia.
    by rewrite Z.pow_add_r by lia.
  - by rewrite shr_1_div.
Qed.

Lemma iter_pos_shr_1_nonneg (p : positive) (mrs : shr_record) :
  0 <= shr_m mrs -> 0 <= shr_m (iter_pos shr_1 p mrs).
Proof.
  intros Hm. rewrite iter_pos_shr_1_div by done.
  apply Z.div_pos; [done|]. by apply Z.pow_pos_nonneg.
Qed.

Lemma shr_fexp_nonneg (m e : Z) (l : location) :
  0 <= m -> 0 <= shr_m (shr_fexp prec emax m e l).1.
Proof.
  intros Hm. unfold shr_fexp, shr.
  assert (0 <= shr_m (shr_record_of_loc m l)) as H0 by by destruct l as [|[]].
  destruct (fexp prec emax (Zdigits2 m + e) - e); cbn [fst]; try done.
  by apply iter_pos_shr_1_nonneg.
Qed.

Lemma round_nearest_even_nonneg (m : Z) (l : location) :
  0 <= m -> 0 <= round_nearest_even m l.
Proof. intros Hm. destruct l as [|[]]; cbn; try lia. destruct (Z.even m); lia. Qed.

(** Rounding a magnitude that is not negative gives a zero, a finite
    number or an infinity of the sign asked for, never a NaN. *)
Lemma binary_round_aux_sign (s : bool) (m e : Z) (l : location) :
  0 <= m ->
  match binary_round_aux prec emax s m e l with
  | S754_zero s' | S754_infinity s' | S754_finite s' _ _ => s' = s
  | S754_nan => False
  end.
Proof.
  intros Hm. unfold binary_round_aux.
  pose proof (shr_fexp_nonneg m e l Hm) as H1.
  destruct (shr_fexp prec emax m e l) as [mrs' e']. cbn [fst] in H1.
  pose proof (shr_fexp_nonneg _ e' loc_Exact
                (round_nearest_even_nonneg _ (loc_of_shr_record mrs') H1)) as H2.
  destruct (shr_fexp prec emax _ e' loc_Exact) as [mrs'' e'']. cbn [fst] in H2.
  destruct (shr_m mrs''); [done| |lia].
  by destruct (e'' <=? emax - prec).
Qed.

(** Half of a float of [[0.0, 1.0)] is a length [time.sleep] accepts. *)
Lemma half_sleep (r : float) :
  naive_player.unit_interval r -> (0 <=? r * 0.5)%float = true.
Proof.
  intros [Hge Hlt]. rewrite leb_spec in *. rewrite ltb_spec in Hlt.
  rewrite mul_spec.
  change (Prim2SF 0%float) with (S754_zero false) in *.
  change (Prim2SF 0.5%float) with (S754_finite false 4503599627370496 (-53)).
  destruct (Prim2SF r) as [s|s| |s m e]; try done.
  - by destruct s.
  - destruct s; [done|]. unfold SF64mul, SFmul. cbn [xorb].
    pose proof (binary_round_aux_sign false (Z.pos (m * 4503599627370496))
                  (e + -53) loc_Exact ltac:(lia)) as Hs.
    destruct (binary_round_aux _ _ _ _ _ _) as [s'|s'| |s' m' e']; try done;
      by subst s'.
Qed.

Lemma shl_align_value (p : positive) (e e' : Z) :
  e' <= e ->
  exists m, shl_align p e e' = (m, e') /\ Z.pos m = Z.pos p * 2 ^ (e - e').
Proof.
  intros Hle. unfold shl_align.
  destruct (e' - e) as [|q|q] eqn:Hsub; try lia.
  - assert (e' = e) as -> by lia. exists p. rewrite Z.sub_diag. split; [done | lia].
  - exists (Pos.iter xO p q). split; [done|].
    change (Pos.iter xO p q) with (shift_pos q p). rewrite shift_pos_correct.
    assert (e - e' = Z.pos q) as -> by lia.
    rewrite Z.mul_comm. f_equal.
Qed.

(** Rounding leaves a mantissa of 53 digits as it is. *)
Lemma binary_round_aux_canonical (m : positive) (e : Z) :
  Z.pos (digits2_pos m) = 53 -> -1074 <= e <= 971 ->
  binary_round_aux prec emax false (Z.pos m) e loc_Exact = S754_finite false m e.
Proof.
  intros Hdigits He.
  assert (shr_fexp prec emax (Z.pos m) e loc_Exact
          = (Build_shr_record (Z.pos m) false false, e)) as Hshr.
  { unfold shr_fexp, shr, fexp, Zdigits2, SpecFloat.emin, prec, emax.
    rewrite Hdigits.
    by replace (Z.max (53 + e - 53) (3 - 1024 - 53) - e) with 0 by lia. }
  unfold binary_round_aux. rewrite Hshr.
  cbn [shr_m loc_of_shr_record round_nearest_even].
  rewrite Hshr. cbn [shr_m]. unfold prec, emax.
  destruct (Z.leb_spec e (1024 - 53)); [done | lia].
Qed.

(** An integer from 1 to [2 ^ 53 - 1] is a double. *)
Lemma binary_normalize_exact (c : Z) :
  1 <= c < 2 ^ 53 ->
  exists m e,
    binary_normalize prec emax c 0 false = S754_finite false m e /\
    valid_binary (S754_finite false m e) = true /\
    -52 <= e <= 0 /\ Z.pos m = c * 2 ^ (- e).
Proof.
  intros Hc. destruct c as [|p|p]; try lia.
  pose proof (digits2_bounds p) as Hp.
  set (d := Z.pos (digits2_pos p)) in *.
  assert (1 <= d <= 53) as Hd.
  { split; [lia|]. destruct (Z.le_gt_cases d 53); [done|].
    assert (2 ^ 53 <= 2 ^ (d - 1)) by (apply Z.pow_le_mono_r; lia). lia. }
  cbn [binary_normalize]. unfold binary_round.
  assert (fexp prec emax (d + 0) = d - 53) as Hfexp.
  { unfold fexp, SpecFloat.emin, prec, emax. lia. }
  fold d. rewrite Hfexp.
  destruct (shl_align_value p 0 (d - 53) ltac:(lia)) as (m & -> & Hm).
  replace (0 - (d - 53)) with (53 - d) in Hm by lia.
  assert (Z.pos (digits2_pos m) = 53) as Hdigits.
  { apply digits2_unique. rewrite Hm.
    assert (2 ^ (53 - 1) = 2 ^ (d - 1) * 2 ^ (53 - d)) as ->.
    { rewrite <- Z.pow_add_r by lia. f_equal. lia. }
    assert (2 ^ 53 = 2 ^ d * 2 ^ (53 - d)) as ->.
    { rewrite <- Z.pow_add_r by lia. f_equal. lia. }
    assert (0 < 2 ^ (53 - d)) by (apply Z.pow_pos_nonneg; lia). nia. }
  exists m, (d - 53). rewrite binary_round_aux_canonical by (done || lia).
  split; [done|]. split.
  - cbn [valid_binary].
    unfold bounded, canonical_mantissa, fexp, SpecFloat.emin, prec, emax.
    rewrite Hdigits. apply andb_true_intro.
    split; [apply Z.eqb_eq | apply Z.leb_le]; lia.
  - split; [lia|]. rewrite Hm. do 2 f_equal. lia.
Qed.

(** One step of normalisation of a positive mantissa above the subnormal
    range: the mantissa stays positive, and the exponent rises to where the
    mantissa has at most 53 digits. *)
Lemma shr_fexp_positive (p : positive) (e : Z) (l : location) :
  -1074 <= Z.pos (digits2_pos p) + e - 53 ->
  0 < shr_m (shr_fexp prec emax (Z.pos p) e l).1 /\
  (shr_fexp prec emax (Z.pos p) e l).2 = Z.max e (e + Z.pos (digits2_pos p) - 53).
Proof.
  intros He. pose proof (digits2_bounds p) as [Hlow _].
  set (d := Z.pos (digits2_pos p)) in *.
  assert (shr_m (shr_record_of_loc (Z.pos p) l) = Z.pos p) as Hm
    by by destruct l as [|[]].
  unfold shr_fexp, shr, fexp, Zdigits2, SpecFloat.emin, prec, emax. fold d.
  replace (Z.max (d + e - 53) (3 - 1024 - 53) - e) with (d - 53) by lia.
  destruct (d - 53) as [|q|q] eqn:Hq; cbn [fst snd].
  - rewrite Hm. lia.
  - rewrite iter_pos_shr_1_div, Hm by lia. split; [|lia].
    apply Z.div_str_pos. split; [by apply Z.pow_pos_nonneg|].
    assert (2 ^ Z.pos q <= 2 ^ (d - 1)) by (apply Z.pow_le_mono_r; lia). lia.
  - rewrite Hm. lia.
Qed.

(** Rounding a positive magnitude of at least 1 gives a double whose
    exponent is at least -52, or the positive infinity. *)
Lemma binary_round_aux_lower (p : positive) (e : Z) :
  -52 <= e + Z.pos (digits2_pos p) - 53 ->
  binary_round_aux prec emax false (Z.pos p) e loc_Exact = S754_infinity false \/
  exists m' e', binary_round_aux prec emax false (Z.pos p) e loc_Exact
                = S754_finite false m' e' /\ -52 <= e'.
Proof.
  intros He. unfold binary_round_aux.
  destruct (shr_fexp_positive p e loc_Exact ltac:(lia)) as [Hm1 He1].
  destruct (shr_fexp prec emax (Z.pos p) e loc_Exact) as [mrs1 e1].
  cbn [fst snd] in Hm1, He1.
  assert (0 < round_nearest_even (shr_m mrs1) (loc_of_shr_record mrs1)) as Hm2.
  { destruct (loc_of_shr_record mrs1) as [|[]]; cbn; try lia.
    destruct (Z.even _); lia. }
  destruct (round_nearest_even _ _) as [|p2|p2]; try lia.
  destruct (shr_fexp_positive p2 e1 loc_Exact ltac:(lia)) as [Hm3 He3].
  destruct (shr_fexp prec emax (Z.pos p2) e1 loc_Exact) as [mrs3 e3].
  cbn [fst snd] in Hm3, He3.
  destruct (shr_m mrs3) as [|p3|p3]; try lia.
  destruct (e3 <=? emax - prec); [right | by left].
  exists p3, e3. split; [done | lia].
Qed.

(** A double below 1.0 is below every positive double of exponent -52 or
    more, and below the positive infinity. *)
Lemma below_one (r : spec_float) (m : positive) (e : Z) :
  valid_binary r = true ->
  SFltb r (S754_finite false 4503599627370496 (-52)) = true ->
  -52 <= e ->
  SFltb r (S754_finite false m e) = true /\ SFltb r (S754_infinity false) = true.
Proof.
  intros Hvalid Hlt He. destruct r as [s|s| |s mr er]; try done.
  - by destruct s.
  - destruct s; [done|]. unfold SFltb, SFcompare in Hlt |- *.
    cbn [valid_binary] in Hvalid. unfold bounded, canonical_mantissa in Hvalid.
    apply andb_prop in Hvalid as [Hcanon _]. apply Z.eqb_eq in Hcanon.
    unfold fexp, SpecFloat.emin, prec, emax in Hcanon.
    pose proof (digits2_bounds mr) as [Hlow _].
    destruct (Z.compare_spec er (-52)) as [->|Hlt'|Hgt]; try done.
    + assert (Z.pos (digits2_pos mr) = 53) as Hd by lia. rewrite Hd in Hlow.
      rewrite Pos.compare_cont_spec in Hlt. cbn [Pos.switch_Eq] in Hlt.
      destruct (Pos.compare_spec mr 4503599627370496) as [?|Hlt'|?]; try done.
      apply Pos2Z.pos_lt_pos in Hlt'. simpl in Hlow. lia.
    + split; [|done]. destruct (Z.compare_spec er e); done || lia.
Qed.

(** A count from 1 to [2 ^ 53 - 1] is converted without rounding. *)
Lemma float_of_int_exact (c : Z) :
  1 <= c < 2 ^ 53 ->
  exists f m e,
    (forall o, naive_player.float_of_int c o = naive_player.Done (f, o)) /\
    Prim2SF f = S754_finite false m e /\ -52 <= e <= 0 /\ Z.pos m = c * 2 ^ (- e).
Proof.
  intros Hc.
  destruct (binary_normalize_exact c Hc) as (m & e & Hnorm & Hvalid & He & Hm).
  exists (SF2Prim (S754_finite false m e)), m, e.
  pose proof (Prim2SF_SF2Prim _ Hvalid) as Hprim.
  split; [|done]. intros o. unfold naive_player.float_of_int. rewrite Hnorm.
  unfold is_infinity. by rewrite eqb_spec, abs_spec, Hprim.
Qed.

(** A fifth of a count of five or more is at least 1.0, and so above every
    float of [[0.0, 1.0)]. *)
Lemma fifth_of_five (c : Z) (f r : float) (m : positive) (e : Z) :
  Prim2SF f = S754_finite false m e -> -52 <= e <= 0 -> Z.pos m = c * 2 ^ (- e) ->
  5 <= c -> naive_player.unit_interval r ->
  (r <? naive_player.one_fifth * f)%float = true.
Proof.
  intros Hf He Hm Hc [_ Hr].
  rewrite ltb_spec in Hr |- *. rewrite mul_spec, Hf.
  change (Prim2SF 1%float) with (S754_finite false 4503599627370496 (-52)) in Hr.
  change (Prim2SF naive_player.one_fifth)
    with (S754_finite false 7205759403792794 (-55)).
  unfold SF64mul, SFmul. cbn [xorb].
  pose proof (digits2_bounds (7205759403792794 * m)) as [_ Hdigits].
  assert (2 ^ (55 - e) <= Z.pos (7205759403792794 * m)) as Hlow.
  { rewrite Pos2Z.inj_mul, Hm.
    assert (2 ^ (55 - e) = 2 ^ 55 * 2 ^ (- e)) as ->.
    { rewrite <- Z.pow_add_r by lia. by f_equal. }
    assert (0 < 2 ^ (- e)) by (apply Z.pow_pos_nonneg; lia).
    change (2 ^ 55) with 36028797018963968. nia. }
  assert (55 - e < Z.pos (digits2_pos (7205759403792794 * m))) as Hd.
  { apply (Z.pow_lt_mono_r_iff 2); lia. }
  destruct (binary_round_aux_lower (7205759403792794 * m) (-55 + e) ltac:(lia))
    as [-> | (m' & e' & -> & He')];
    by apply (below_one (Prim2SF r) 1 0 (Prim2SF_valid r) Hr) ||
       apply (below_one (Prim2SF r) m' e' (Prim2SF_valid r) Hr).
Qed.

End doubles.

(** ** The moves of a [NaivePlayer] *)

Lemma occurrences_elem (d : Z) (ds : list Z) : d ∈ ds -> 1 <= occurrences d ds.
Proof.
  intros Hd. unfold occurrences.
  assert (d ∈ filter (fun x => x = d) ds) as Hin by by apply list_elem_of_filter.
  destruct (filter _ ds); [by apply elem_of_nil in Hin | cbn; lia].
Qed.

Section moves.
Import naive_player.

Variable self : NaivePlayer.

Lemma float_of_int_cases (c : Z) :
  (forall o, float_of_int c o = Fails OverflowError) \/
  (exists f, forall o, float_of_int c o = Done (f, o)).
Proof.
  unfold float_of_int.
  destruct (PrimFloat.is_infinity _); [by left | right; by eexists].
Qed.

(** The move after a claim with a count: two draws of the generator and a
    sleep, then Bullshit or a raise of the count by one. *)
Lemma make_move_after (state : @GameState world) (last_player : Z)
    (last_duration : PrimFloat.float) (a : Action) (c : Z) (f : PrimFloat.float)
    (o : Outside) :
  last state = Some (last_player, last_duration, a) -> count a = Some c ->
  unit_interval (floats (oracle o) (events o)) ->
  (forall o', float_of_int c o' = Done (f, o')) ->
  make_move self state o
  = if PrimFloat.ltb (floats (oracle o) (S (S (events o))))
                     (PrimFloat.mul one_fifth f)
    then Done (mkAction false true false None None, tick (tick (tick o)))
    else match get_random_digit self (tick (tick (tick o))) with
         | Done (d, o') => of_result (make_bet (c + 1) d) o'
         | Fails e => Fails e
         | NoFuel => NoFuel
         end.
Proof.
  intros Hlast Hcount Hr Hf. unfold make_move.
  assert ((length state =? 0)%nat = false) as ->.
  { destruct state; [done | by apply Nat.eqb_neq]. }
  unfold mbind, N_bind, np_random_random at 1, time_sleep.
  rewrite (half_sleep _ Hr). unfold last_item. rewrite Hlast.
  unfold mret, N_ret. rewrite Hcount. cbn [float_mul]. unfold mbind, N_bind.
  rewrite Hf. unfold mret, N_ret, np_random_random. cbn [tick oracle events].
  by destruct (PrimFloat.ltb _ _).
Qed.

(** A count beyond the doubles. *)
Lemma make_move_overflow (state : @GameState world) (last_player : Z)
    (last_duration : PrimFloat.float) (a : Action) (c : Z) (o : Outside) :
  last state = Some (last_player, last_duration, a) -> count a = Some c ->
  unit_interval (floats (oracle o) (events o)) ->
  (forall o', float_of_int c o' = Fails OverflowError) ->
  make_move self state o = Fails OverflowError.
Proof.
  intros Hlast Hcount Hr Hf. unfold make_move.
  assert ((length state =? 0)%nat = false) as ->.
  { destruct state; [done | by apply Nat.eqb_neq]. }
  unfold mbind, N_bind, np_random_random at 1, time_sleep.
  rewrite (half_sleep _ Hr). unfold last_item. rewrite Hlast.
  unfold mret, N_ret. rewrite Hcount. cbn [float_mul]. unfold mbind, N_bind.
  by rewrite Hf.
Qed.

(** A last claim without a count, as Exact and Bullshit are. *)
Lemma make_move_no_count (state : @GameState world) (last_player : Z)
    (last_duration : PrimFloat.float) (a : Action) (o : Outside) :
  last state = Some (last_player, last_duration, a) -> count a = None ->
  unit_interval (floats (oracle o) (events o)) ->
  make_move self state o = Fails (Raised TypeError).
Proof.
  intros Hlast Hcount Hr. unfold make_move.
  assert ((length state =? 0)%nat = false) as ->.
  { destruct state; [done | by apply Nat.eqb_neq]. }
  unfold mbind, N_bind, np_random_random at 1, time_sleep.
  rewrite (half_sleep _ Hr). unfold last_item. rewrite Hlast.
  unfold mret, N_ret. by rewrite Hcount.
Qed.

Variable x : Z.
Hypothesis number_set : number self = Some x.
Hypothesis number_range : 0 <= x < 10 ^ 8.

(** The digit drawn is one of the eight digits of the player's number. *)
Lemma get_random_digit_own (o : Outside) :
  exists d actual,
    get_random_digit self o = Done (d, tick o) /\ is_digit d /\
    exists counts, to_counts x = Ret counts /\ np_index counts d = Ret actual /\
                   1 <= actual.
Proof.
  destruct (to_str_digits x ltac:(lia)) as (ds & Hstr & Hds & _ & _ & Hlen).
  specialize (Hlen ltac:(lia)).
  destruct (count_digits_entries ds (replicate 10 0)) as (v & Hv & Hentries);
    try done.
  { by apply Forall_replicate. }
  { rewrite Hlen. simpl. lia. }
  set (i := (picks (oracle o) (events o) mod 8)%nat).
  assert (i < length ds)%nat as Hi.
  { rewrite Hlen. apply Nat.mod_upper_bound. lia. }
  destruct (lookup_lt_is_Some_2 ds i Hi) as [d Hd].
  assert (is_digit d) as Hdigit by by eapply Forall_lookup_1.
  exists d, (occurrences d ds). split; [|split; [done|]].
  - unfold get_random_digit. rewrite number_set. cbn [getattr].
    unfold mbind, N_bind, mret, N_ret, np_random_choice at 1.
    rewrite Hstr, length_map, Hlen. fold i.
    rewrite list_lookup_fmap, Hd. cbn [fmap option_fmap option_map].
    unfold of_result. by rewrite int_of_digit_char.
  - exists v. unfold to_counts. rewrite Hstr. split; [done|]. split.
    + unfold is_digit in Hdigit. unfold np_index.
      assert (length v = 10%nat) as Hvlen.
      { destruct (to_counts_spec x number_range) as (v' & Hv' & Hlen' & _).
        unfold to_counts in Hv'. rewrite Hstr, Hv in Hv'. by injection Hv' as ->. }
      rewrite Hvlen.
      destruct (Z.ltb_spec d 0); [lia|].
      destruct (Z.leb_spec 0 d); [|lia].
      destruct (Z.ltb_spec d (Z.of_nat 10)); [|lia].
      cbn [andb]. rewrite (Hentries (Z.to_nat d) 0).
      * by rewrite Z2Nat.id by lia.
      * apply lookup_replicate. split; [done | lia].
    + apply occurrences_elem. by eapply list_elem_of_lookup_2.
Qed.

(** The opening move: a bet of one digit of the player's own number. *)
Lemma make_move_opening (o : Outside) :
  exists d actual,
    make_move self [] o
    = Done (mkAction false false true (Some 1) (Some d), tick o) /\
    is_digit d /\
    exists counts, to_counts x = Ret counts /\ np_index counts d = Ret actual /\
                   1 <= actual.
Proof.
  destruct (get_random_digit_own o) as (d & actual & Hdraw & Hd & Hown).
  exists d, actual. split; [|done].
  unfold make_move. cbn [length Nat.eqb]. unfold mbind, N_bind at 1.
  rewrite Hdraw. unfold of_result.
  by rewrite (proj2 (make_bet_well_formed 1 d _))
    by (unfold is_digit in Hd; repeat split; lia).
Qed.

(** The answer to a bet: Bullshit, or the count raised by one on a digit
    of the player's own number. *)
Lemma make_move_reply (state : @GameState world) (last_player : Z)
    (last_duration : PrimFloat.float) (a : Action) (c : Z) (f : PrimFloat.float)
    (o : Outside) :
  last state = Some (last_player, last_duration, a) -> count a = Some c ->
  0 <= c ->
  unit_interval (floats (oracle o) (events o)) ->
  (forall o', float_of_int c o' = Done (f, o')) ->
  if PrimFloat.ltb (floats (oracle o) (S (S (events o)))) (PrimFloat.mul one_fifth f)
  then make_move self state o
       = Done (mkAction false true false None None, tick (tick (tick o)))
  else exists d actual,
         make_move self state o
         = Done (mkAction false false true (Some (c + 1)) (Some d),
                 tick (tick (tick (tick o)))) /\
         is_digit d /\
         exists counts, to_counts x = Ret counts /\
                        np_index counts d = Ret actual /\ 1 <= actual.
Proof.
  intros Hlast Hcount Hc Hr Hf.
  rewrite (make_move_after state last_player last_duration a c f o Hlast Hcount Hr Hf).
  destruct (PrimFloat.ltb _ _); [done|].
  destruct (get_random_digit_own (tick (tick (tick o))))
    as (d & actual & Hdraw & Hd & Hown).
  exists d, actual. split; [|done].
  rewrite Hdraw. unfold of_result.
  by rewrite (proj2 (make_bet_well_formed (c + 1) d _))
    by (unfold is_digit in Hd; repeat split; lia).
Qed.

End moves.

(** Before [start_game] a [NaivePlayer] cannot open: reading its number
    raises an AttributeError.  After [start_game] its opening move is a bet
    of one on a digit drawn from the eight digits of its own number, so
    on a digit that occurs in it. *)
Theorem naive_opening_bet (self : naive_player.NaivePlayer)
    (o : naive_player.Outside) :
  (naive_player.number self = None ->
   naive_player.make_move self [] o = naive_player.Fails naive_player.AttributeError) /\
  forall x player_idx n_players,
    0 <= x < 10 ^ 8 ->
    exists d counts actual,
      naive_player.make_move
        (naive_player.start_game self x player_idx n_players) [] o
      = naive_player.Done (mkAction false false true (Some 1) (Some d),
                           naive_player.tick o) /\
      is_digit d /\ to_counts x = Ret counts /\ np_index counts d = Ret actual /\
      1 <= actual.
Proof.
  split.
  - intros Hnone. unfold naive_player.make_move, naive_player.get_random_digit.
    cbn [length Nat.eqb]. by rewrite Hnone.
  - intros x player_idx n_players Hx.
    destruct (make_move_opening
                (naive_player.start_game self x player_idx n_players) x eq_refl Hx o)
      as (d & actual & Hmove & Hd & counts & Hcounts & Hactual & Hpos).
    by exists d, counts, actual.
Qed.

(** The answer of a [NaivePlayer] to the last claim of the log.  After a
    claim without a count (an Exact or a Bullshit) it raises a TypeError.
    After a well-formed bet of a count below [2 ^ 53] it returns Bullshit,
    or the bet of one more on a digit of its own number, which
    [ensure_valid_raise] accepts: it never answers with Exact or with an
    invalid raise. *)
Theorem naive_reply (self : naive_player.NaivePlayer)
    (state : @GameState naive_player.world) (last_player : Z)
    (last_duration : PrimFloat.float) (a : Action) (o : naive_player.Outside) :
  last state = Some (last_player, last_duration, a) ->
  naive_player.unit_interval
    (naive_player.floats (naive_player.oracle o) (naive_player.events o)) ->
  (count a = None ->
   naive_player.make_move self state o
   = naive_player.Fails (naive_player.Raised TypeError)) /\
  forall c x,
    well_formed_bet a -> count a = Some c -> c < 2 ^ 53 ->
    naive_player.number self = Some x -> 0 <= x < 10 ^ 8 ->
    naive_player.make_move self state o
    = naive_player.Done
        (mkAction false true false None None,
         naive_player.tick (naive_player.tick (naive_player.tick o))) \/
    exists d counts actual,
      naive_player.make_move self state o
      = naive_player.Done
          (mkAction false false true (Some (c + 1)) (Some d),
           naive_player.tick
             (naive_player.tick (naive_player.tick (naive_player.tick o)))) /\
      is_digit d /\ to_counts x = Ret counts /\ np_index counts d = Ret actual /\
      1 <= actual /\
      ensure_valid_raise (mkAction false false true (Some (c + 1)) (Some d)) (Some a)
      = Ret None.
Proof.
  intros Hlast Hr. split.
  - intros Hcount. by eapply make_move_no_count.
  - intros c x Ha Hcount Hc Hnum Hx.
    destruct (well_formed_bet_inv a Ha) as (c' & dd & -> & Hc' & Hdd).
    cbn [count] in Hcount. injection Hcount as ->.
    destruct (float_of_int_exact c ltac:(lia)) as (f & _ & _ & Hf & _).
    pose proof (make_move_reply self x Hnum Hx state last_player last_duration
                  _ c f o Hlast eq_refl ltac:(lia) Hr Hf) as Hmove.
    destruct (PrimFloat.ltb _ _); [by left | right].
    destruct Hmove as (d & actual & Hmove & Hd & counts & Hcounts & Hactual & Hpos).
    exists d, counts, actual. repeat split; try done; try apply Hd.
    rewrite ensure_valid_raise_bets.
    destruct (Z.ltb_spec c (c + 1)); [|lia]. by rewrite orb_true_r.
Qed.

Lemma naive_reply_witness :
  (count (mkAction false false true (Some 1) (Some 7)) = None ->
   naive_player.make_move
     (naive_player.start_game (naive_player.fresh "naive") 12345678 0 2)
     [(0, PrimFloat.zero, mkAction false false true (Some 1) (Some 7))]
     naive_player.lobby
   = naive_player.Fails (naive_player.Raised TypeError)) /\
  forall c x,
    well_formed_bet (mkAction false false true (Some 1) (Some 7)) ->
    count (mkAction false false true (Some 1) (Some 7)) = Some c -> c < 2 ^ 53 ->
    naive_player.number
      (naive_player.start_game (naive_player.fresh "naive") 12345678 0 2) = Some x ->
    0 <= x < 10 ^ 8 ->
    naive_player.make_move
      (naive_player.start_game (naive_player.fresh "naive") 12345678 0 2)
      [(0, PrimFloat.zero, mkAction false false true (Some 1) (Some 7))]
      naive_player.lobby
    = naive_player.Done
        (mkAction false true false None None,
         naive_player.tick (naive_player.tick (naive_player.tick naive_player.lobby))) \/
    exists d counts actual,
      naive_player.make_move
        (naive_player.start_game (naive_player.fresh "naive") 12345678 0 2)
        [(0, PrimFloat.zero, mkAction false false true (Some 1) (Some 7))]
        naive_player.lobby
      = naive_player.Done
          (mkAction false false true (Some (c + 1)) (Some d),
           naive_player.tick
             (naive_player.tick
                (naive_player.tick (naive_player.tick naive_player.lobby)))) /\
      is_digit d /\ to_counts x = Ret counts /\ np_index counts d = Ret actual /\
      1 <= actual /\
      ensure_valid_raise (mkAction false false true (Some (c + 1)) (Some d))
        (Some (mkAction false false true (Some 1) (Some 7)))
      = Ret None.
Proof.
  apply (naive_reply
           (naive_player.start_game (naive_player.fresh "naive") 12345678 0 2)
           [(0, PrimFloat.zero, mkAction false false true (Some 1) (Some 7))]
           0 PrimFloat.zero (mkAction false false true (Some 1) (Some 7))
           naive_player.lobby).
  - reflexivity.
  - split; reflexivity.
Defined.

(** A [NaivePlayer] answers every claim of a count from 5 to [2 ^ 53 - 1]
    with Bullshit, whatever the generator draws in [[0.0, 1.0)]: a fifth
    of the count is 1.0 or more.  The player need not have been given a
    number. *)
Theorem naive_calls_bullshit (self : naive_player.NaivePlayer)
    (state : @GameState naive_player.world) (last_player : Z)
    (last_duration : PrimFloat.float) (a : Action) (c : Z)
    (o : naive_player.Outside) :
  last state = Some (last_player, last_duration, a) -> count a = Some c ->
  5 <= c < 2 ^ 53 ->
  (forall k, naive_player.unit_interval
               (naive_player.floats (naive_player.oracle o) k)) ->
  naive_player.make_move self state o
  = naive_player.Done
      (mkAction false true false None None,
       naive_player.tick (naive_player.tick (naive_player.tick o))).
Proof.
  intros Hlast Hcount Hc Hfloats.
  destruct (float_of_int_exact c ltac:(lia)) as (f & m & e & Hf & Hprim & He & Hm).
  rewrite (make_move_after self state last_player last_duration a c f o Hlast Hcount
             (Hfloats _) Hf).
  by rewrite (fifth_of_five c f _ m e Hprim He Hm ltac:(lia) (Hfloats _)).
Qed.

Lemma naive_calls_bullshit_witness :
  naive_player.make_move (naive_player.fresh "naive")
    [(0, PrimFloat.zero, mkAction false false true (Some 5) (Some 7))]
    naive_player.lobby
  = naive_player.Done
      (mkAction false true false None None,
       naive_player.tick (naive_player.tick (naive_player.tick naive_player.lobby))).
Proof.
  apply (naive_calls_bullshit (naive_player.fresh "naive")
           [(0, PrimFloat.zero, mkAction false false true (Some 5) (Some 7))]
           0 PrimFloat.zero (mkAction false false true (Some 5) (Some 7)) 5).
  - reflexivity.
  - reflexivity.
  - lia.
  - intros k. split; reflexivity.
Defined.

(** ** A table of [NaivePlayer]s *)

#[local] Existing Instance naive_player.world.

Lemma naive_randint_range (low high : Z) (o : naive_player.Outside) :
  low < high -> low <= (randint low high o).1 < high.
Proof.
  intros Hlt. cbn.
  pose proof (Z.mod_pos_bound (naive_player.ints (naive_player.oracle o)
                                 (naive_player.events o)) (high - low)).
  lia.
Qed.

Section table.
Import naive_player.

Variable n : nat.
Local Abbreviation players := (table n).

Lemma table_length : length players = n.
Proof. unfold table. by rewrite length_map, length_seq. Qed.

Lemma table_lookup (ref : nat) : (ref < n)%nat -> players !! ref = Some (player ref).
Proof.
  intros Hlt. unfold table. rewrite list_lookup_fmap, lookup_seq_lt by done. done.
Qed.

Variable numbers : list Z.

(** The opening move of a seated player. *)
Lemma player_opening (ref : nat) (o : Outside) :
  seated n numbers o -> (ref < n)%nat ->
  exists d o',
    player_interface.make_move (player ref) [] o
    = (mkAction false false true (Some 1) (Some d), o') /\
    seated n numbers o' /\ logged o' = logged o /\ objects o' = objects o /\
    is_digit d /\
    forall elapsed,
      own_digit numbers (Z.of_nat ref, elapsed,
                         mkAction false false true (Some 1) (Some d)).
Proof.
  intros Hseated Hlt. pose proof Hseated as (Hesc & Hfloats & Hobjects).
  destruct (Hobjects ref Hlt) as (x & Hx & Hrange & Hnum).
  destruct (make_move_opening _ x Hnum Hrange o) as (d & actual & Hmove & Hd & counts & Hown).
  exists d, (tick o). cbn [player_interface.make_move player]. unfold method.
  rewrite Hmove. split; [done|]. split; [exact Hseated|].
  split; [done|]. split; [done|]. split; [done|].
  intros elapsed. exists x, d, counts, actual. unfold mover, claim. cbn.
  by rewrite Nat2Z.id.
Qed.

(** The answer of a seated player to a bet of at most five. *)
Lemma player_reply (ref : nat) (state : @GameState world) (last_player : Z)
    (last_duration : PrimFloat.float) (c dd : Z) (o : Outside) :
  seated n numbers o -> (ref < n)%nat ->
  last state = Some (last_player, last_duration,
                     mkAction false false true (Some c) (Some dd)) ->
  1 <= c <= 5 ->
  exists a o',
    player_interface.make_move (player ref) state o = (a, o') /\
    seated n numbers o' /\ logged o' = logged o /\ objects o' = objects o /\
    (a = mkAction false true false None None \/
     c < 5 /\ exists d,
       a = mkAction false false true (Some (c + 1)) (Some d) /\ is_digit d /\
       forall elapsed, own_digit numbers (Z.of_nat ref, elapsed, a)).
Proof.
  intros Hseated Hlt Hlast Hc.
  pose proof Hseated as (Hesc & Hfloats & Hobjects).
  destruct (Hobjects ref Hlt) as (x & Hx & Hrange & Hnum).
  destruct (float_of_int_exact c ltac:(lia)) as (f & m & e & Hf & Hprim & He & Hm).
  pose proof (make_move_reply _ x Hnum Hrange state last_player last_duration
                _ c f o Hlast eq_refl ltac:(lia) (Hfloats _) Hf) as Hmove.
  cbn [player_interface.make_move player]. unfold method.
  destruct (PrimFloat.ltb _ _) eqn:Hcmp.
  - rewrite Hmove. eexists _, _. split; [done|].
    split; [exact Hseated|]. split; [done|]. split; [done|]. by left.
  - destruct Hmove as (d & actual & -> & Hd & counts & Hown).
    eexists _, _. split; [done|].
    split; [exact Hseated|]. split; [done|]. split; [done|]. right.
    split.
    + destruct (Z.lt_ge_cases c 5) as [|Hfive]; [done|].
      rewrite (fifth_of_five c f _ m e Hprim He Hm Hfive (Hfloats _)) in Hcmp.
      done.
    + exists d. repeat split; try done; [apply Hd..|].
      intros elapsed. exists x, d, counts, actual. unfold mover, claim. cbn.
      by rewrite Nat2Z.id.
Qed.

Hypothesis some_player : (0 < n)%nat.

Lemma table_nonempty : players <> [].
Proof. intros Hnil. pose proof table_length as Hlen. rewrite Hnil in Hlen. cbn in Hlen. lia. Qed.

(** The turn of the next player of the table. *)
Lemma table_next_move (state : @GameState world) (s : State) :
  let ref := (gen s mod n)%nat in
  let o := ext s in
  (ref < n)%nat /\
  next_move players state s
  = Ret ((Z.of_nat ref,
          time_sub (default_timer (player_interface.make_move (player ref) state o).2)
                   (default_timer o),
          (player_interface.make_move (player ref) state o).1),
         mkState (S (gen s)) (player_interface.make_move (player ref) state o).2
                 (rounds s)).
Proof.
  intros ref o.
  assert (ref < n)%nat as Hlt by (apply Nat.mod_upper_bound; lia).
  split; [done|].
  destruct (next_move_nonempty players state s table_nonempty) as (p & Hp & ->).
  rewrite table_length in Hp |- *. fold ref in Hp |- *.
  rewrite (table_lookup ref Hlt) in Hp. by injection Hp as <-.
Qed.

(** From a bet of at most five on, the round ends within six moves less
    the count of the bet, on a call of Bullshit. *)
Lemma table_loop (total : list Z) :
  length total = 10%nat ->
  forall (k fuel : nat) (state : @GameState world) (prev_idx : Z)
         (last_duration : PrimFloat.float) (c dd : Z) (s : State),
    Z.of_nat k = 5 - c -> 1 <= c -> (k < fuel)%nat -> is_digit dd ->
    0 <= prev_idx < Z.of_nat n ->
    last state = Some (prev_idx, last_duration,
                       mkAction false false true (Some c) (Some dd)) ->
    seated n numbers (ext s) ->
    exists bets tm winner s',
      game_loop players fuel total state
        (Some (prev_idx, mkAction false false true (Some c) (Some dd))) s
      = Ret ((state ++ bets ++ [tm], winner), s') /\
      (length bets <= k)%nat /\
      claim tm = mkAction false true false None None /\
      (forall j m, bets !! j = Some m ->
                   is_bet (claim m) = true /\
                   count (claim m) = Some (c + 1 + Z.of_nat j) /\
                   own_digit numbers m) /\
      seated n numbers (ext s') /\ logged (ext s') = logged (ext s) /\
      objects (ext s') = objects (ext s) /\ rounds s' = rounds s /\
      0 <= winner < Z.of_nat n.
Proof.
  intros Htotal k.
  induction k as [|k IH];
    intros fuel state prev_idx last_duration c dd s Hk Hc Hfuel Hdd Hprev Hlast
           Hseated;
    (destruct fuel as [|fuel]; [lia|]);
    destruct (table_next_move state s) as (Href & Hnext);
    destruct (player_reply (gen s mod n) state prev_idx last_duration c dd (ext s)
                Hseated Href Hlast ltac:(lia))
      as (a & o' & Hmove & Hseated' & Hlogged & Hobjects & Ha);
    rewrite Hmove in Hnext; cbn [fst snd] in Hnext;
    destruct (np_index_digit total dd Htotal Hdd) as (actual & Hactual).
  all: destruct Ha as [-> | (Hlt & d & -> & Hd & Hown)]; [|try lia].
  1, 2: eexists [], _, _, _; split;
    [ cbn [game_loop]; rewrite M_bind_eq, Hnext; cbn [is_bet is_exact];
      rewrite M_bind_eq;
      rewrite (bullshit_is_right_eq total
                 (mkAction false false true (Some c) (Some dd)) c dd actual
                 eq_refl eq_refl Hactual);
      cbn [lift]; rewrite M_ret_eq; reflexivity
    | cbn [ext rounds length]; split; [lia|]; split; [done|]; split; [done|];
      split; [exact Hseated'|]; split; [done|]; split; [done|]; split; [done|];
      destruct (actual <? c); lia ].
  assert (returns (ensure_valid_raise
                     (mkAction false false true (Some (c + 1)) (Some d))
                     (snd <$> Some (prev_idx,
                                    mkAction false false true (Some c) (Some dd)))))
    as Hraise.
  { cbn [fmap option_fmap option_map snd]. rewrite ensure_valid_raise_bets.
    destruct (Z.ltb_spec c (c + 1)); [|lia]. rewrite orb_true_r. by eexists. }
  rewrite (game_loop_bet players fuel total state _ s _ _ _ _ Hnext eq_refl Hraise).
  edestruct (IH fuel (state ++ [(Z.of_nat (gen s mod n),
                                 time_sub (default_timer o') (default_timer (ext s)),
                                 mkAction false false true (Some (c + 1)) (Some d))])
               (Z.of_nat (gen s mod n))
               (time_sub (default_timer o') (default_timer (ext s))) (c + 1) d
               (mkState (S (gen s)) o' (rounds s)))
    as (bets & tm & winner & s' & Hloop & Hlen & Htm & Hbets & Hs' & Hlog' & Hobj' & Hrounds & Hwinner);
    try done; try lia.
  { by rewrite last_snoc. }
  eexists (_ :: bets), tm, winner, s'. split.
  { rewrite Hloop. by rewrite <- app_assoc. }
  cbn [ext rounds] in *.
  split; [cbn [length]; lia|]. split; [done|]. split.
  { intros [|j] m Hm; cbn in Hm.
    - injection Hm as <-. repeat split; [|apply Hown]. cbn. f_equal. lia.
    - apply Hbets in Hm as (? & -> & ?). repeat split; [done| |done]. f_equal. lia. }
  split; [done|]. split; [congruence|]. split; [congruence|]. by split.
Qed.

(** A whole game loop at the table: between one and five bets, of counts
    1, 2, ..., each on a digit of the bettor's own number, then a call of
    Bullshit. *)
Lemma table_game_loop (total : list Z) (fuel : nat) (s : State) :
  length total = 10%nat -> (6 <= fuel)%nat -> seated n numbers (ext s) ->
  exists bets tm winner s',
    game_loop players fuel total [] None s = Ret ((bets ++ [tm], winner), s') /\
    (1 <= length bets <= 5)%nat /\
    claim tm = mkAction false true false None None /\
    (forall j m, bets !! j = Some m ->
                 is_bet (claim m) = true /\
                 count (claim m) = Some (1 + Z.of_nat j) /\
                 own_digit numbers m) /\
    seated n numbers (ext s') /\ logged (ext s') = logged (ext s) /\
    objects (ext s') = objects (ext s) /\ rounds s' = rounds s /\
    0 <= winner < Z.of_nat n.
Proof.
  intros Htotal Hfuel Hseated. destruct fuel as [|fuel]; [lia|].
  destruct (table_next_move [] s) as (Href & Hnext).
  destruct (player_opening (gen s mod n) (ext s) Hseated Href)
    as (d & o' & Hmove & Hseated' & Hlogged & Hobjects & Hd & Hown).
  rewrite Hmove in Hnext. cbn [fst snd] in Hnext.
  rewrite (game_loop_bet players fuel total [] None s _ _ _ _ Hnext eq_refl)
    by by eexists.
  edestruct (table_loop total Htotal 4 fuel
               ([] ++ [(Z.of_nat (gen s mod n),
                        time_sub (default_timer o') (default_timer (ext s)),
                        mkAction false false true (Some 1) (Some d))])
               (Z.of_nat (gen s mod n))
               (time_sub (default_timer o') (default_timer (ext s))) 1 d
               (mkState (S (gen s)) o' (rounds s)))
    as (bets & tm & winner & s' & Hloop & Hlen & Htm & Hbets & Hs' & Hlog' & Hobj' & Hrounds & Hwinner);
    try done; try lia.
  eexists (_ :: bets), tm, winner, s'. split; [exact Hloop|].
  cbn [ext rounds] in *.
  split; [cbn [length]; lia|]. split; [done|]. split.
  { intros [|j] m Hm; cbn in Hm.
    - injection Hm as <-. repeat split. apply Hown.
    - apply Hbets in Hm as (? & -> & ?). repeat split; [done| |done]. f_equal. lia. }
  split; [done|]. split; [congruence|]. split; [congruence|]. by split.
Qed.

End table.

Section seating.
Import naive_player.

(** Drawing numbers leaves the players, the log and the oracle alone. *)
Lemma draws_frame (m : Z) (fuel : nat) :
  forall (acc acc' : gset Z) (s s' : State),
    get_random_numbers_loop fuel m acc s = Ret (acc', s') ->
    oracle (ext s') = oracle (ext s) /\ objects (ext s') = objects (ext s) /\
    logged (ext s') = logged (ext s) /\ escaped (ext s') = escaped (ext s).
Proof.
  induction fuel as [|fuel IH]; intros acc acc' s s'; [done|].
  cbn [get_random_numbers_loop].
  destruct (Z.of_nat (size acc) <? m).
  - intros (x & s1 & Hdraw & Hloop)%M_bind_Ret_inv.
    apply IH in Hloop as (-> & -> & -> & ->).
    unfold get_random_number, np_random_randint in Hdraw.
    destruct (0 <? 10 ^ NUM_DIGITS); [|done].
    rewrite call_eq in Hdraw. by injection Hdraw as _ <-.
  - by intros [= _ <-].
Qed.

Variable n : nat.
Local Abbreviation players := (table n).

(** [start_game] is called on every player, with the number at its index. *)
Lemma table_start_games (numbers : list Z) (len : nat) :
  forall (a : nat) (s : State),
    (a + len <= length numbers)%nat ->
    exists us s',
      for_enumerate (fun idx p =>
          number ← lift (py_index numbers idx);
          call_ (player_interface.start_game p number idx (Z.of_nat n)))
        (Z.of_nat a) (map player (seq a len)) s = Ret (us, s') /\
      gen s' = gen s /\ rounds s' = rounds s /\
      oracle (ext s') = oracle (ext s) /\ logged (ext s') = logged (ext s) /\
      escaped (ext s') = escaped (ext s) /\
      forall ref,
        name (objects (ext s') ref) = name (objects (ext s) ref) /\
        ((ref < a)%nat -> objects (ext s') ref = objects (ext s) ref) /\
        ((a <= ref < a + len)%nat ->
         exists x, numbers !! ref = Some x /\ number (objects (ext s') ref) = Some x).
Proof.
  induction len as [|len IH]; intros a s Hlen.
  { exists [], s. cbn [seq map for_enumerate]. rewrite M_ret_eq.
    repeat split; try done. lia. }
  destruct (lookup_lt_is_Some_2 numbers a ltac:(lia)) as [x Hx].
  assert (py_index numbers (Z.of_nat a) = Ret x) as Hidx.
  { unfold py_index. by rewrite Nat2Z.id, Hx. }
  cbn [seq map for_enumerate]. rewrite !M_bind_eq, Hidx. cbn [lift].
  rewrite call__eq.
  set (s1 := mkState _ _ _).
  destruct (IH (S a) s1 ltac:(lia)) as (us & s' & Hloop & Hgen & Hrounds & Horacle & Hlogged & Hescaped & Hobjects).
  replace (Z.of_nat a + 1) with (Z.of_nat (S a)) by lia.
  rewrite M_bind_eq, Hloop, M_ret_eq. eexists _, s'. split; [done|].
  split; [done|]. split; [done|]. split; [done|]. split; [done|]. split; [done|].
  intros ref. destruct (Hobjects ref) as (Hname & Hbefore & Hafter).
  split; [|split].
  - rewrite Hname. subst s1. cbn. by destruct (decide (ref = a)) as [->|].
  - intros Hlt. rewrite Hbefore by lia. subst s1. cbn.
    destruct (decide (ref = a)); [lia | done].
  - intros Href. destruct (decide (ref = a)) as [->|Hne].
    + exists x. split; [done|]. rewrite Hbefore by lia. subst s1. cbn.
      by rewrite decide_True.
    + apply Hafter. lia.
Qed.

(** Once the numbers are dealt, every player of the table holds its
    own. *)
Lemma table_deal (fuel : nat) (first_move : option Z) (s s1 : State)
    (numbers : list Z) (first_idx : Z) (first_draw : option Z) :
  deal players fuel first_move s = Ret ((numbers, first_idx, first_draw), s1) ->
  escaped (ext s) = None ->
  (forall k, unit_interval (floats (oracle (ext s)) k)) ->
  seated n numbers (ext s1) /\ logged (ext s1) = logged (ext s) /\
  forall ref, name (objects (ext s1) ref) = name (objects (ext s) ref).
Proof.
  intros Hdeal Hescaped Hfloats. unfold deal in Hdeal.
  apply M_bind_Ret_inv in Hdeal as (numbers' & s2 & Hnumbers & Hdeal).
  apply M_bind_Ret_inv in Hdeal as (us & s3 & Hstart & Hdeal).
  apply M_bind_Ret_inv in Hdeal as ([first_idx' first_draw'] & s4 & Hfirst & Hdeal).
  apply M_bind_Ret_inv in Hdeal as ([] & s5 & Hforward & Hdeal).
  rewrite M_ret_eq in Hdeal. injection Hdeal as -> -> -> ->.
  pose proof (get_random_numbers_in_range naive_randint_range _ _ _ _ _ Hnumbers)
    as Hrange.
  pose proof (get_random_numbers_length _ _ _ _ _ Hnumbers) as (Hlen & _).
  unfold game.n_players in Hlen. rewrite (table_length n) in Hlen.
  unfold get_random_numbers in Hnumbers.
  apply M_bind_Ret_inv in Hnumbers as (acc & s2' & Hloop & Hret).
  rewrite M_ret_eq in Hret. injection Hret as <- <-.
  apply draws_frame in Hloop as (Horacle2 & Hobjects2 & Hlogged2 & Hescaped2).
  unfold start_games, game.n_players in Hstart. rewrite (table_length n) in Hstart.
  destruct (table_start_games (elements acc) n 0 s2' ltac:(lia))
    as (us' & s3' & Hstart' & _ & _ & Horacle3 & Hlogged3 & Hescaped3 & Hobjects3).
  change (Z.of_nat 0) with 0 in Hstart'. unfold table in Hstart.
  rewrite Hstart' in Hstart. injection Hstart as <- <-.
  apply fast_forward_inv in Hforward as (_ & _ & Hext & _).
  assert (oracle (ext s4) = oracle (ext s3') /\ objects (ext s4) = objects (ext s3') /\
          logged (ext s4) = logged (ext s3') /\ escaped (ext s4) = escaped (ext s3'))
    as (Horacle4 & Hobjects4 & Hlogged4 & Hescaped4).
  { destruct first_move as [f|].
    - rewrite M_ret_eq in Hfirst. by injection Hfirst as _ _ <-.
    - apply M_bind_Ret_inv in Hfirst as (i & s4' & Hdraw & Hret).
      rewrite M_ret_eq in Hret. injection Hret as _ _ <-.
      unfold np_random_randint in Hdraw. destruct (0 <? _); [|done].
      rewrite call_eq in Hdraw. by injection Hdraw as _ <-. }
  rewrite Hext. split; [|split].
  - split; [congruence|]. split.
    + intros k. rewrite Horacle4, Horacle3, Horacle2. apply Hfloats.
    + intros ref Href. destruct (Hobjects3 ref) as (_ & _ & Hnumber).
      destruct (Hnumber ltac:(lia)) as (x & Hx & Hnum). exists x.
      split; [done|]. split; [by eapply Forall_lookup_1 in Hrange|].
      by rewrite Hobjects4.
  - congruence.
  - intros ref. rewrite Hobjects4. destruct (Hobjects3 ref) as (-> & _).
    by rewrite Hobjects2.
Qed.

(** What [end_game] logs at a table, the round having a winner. *)
Lemma table_notify (winner : Z) (state : @GameState world) (numbers : list Z)
    (len : nat) :
  forall (a : nat) (s : State),
    0 <= winner ->
    exists s',
      for_enumerate (fun idx p =>
          let result := result_for winner idx in
          _ ← call_ (player_interface.end_game p result state numbers);
          mret result)
        (Z.of_nat a) (map player (seq a len)) s
      = Ret (map (result_for winner) (seqZ (Z.of_nat a) (Z.of_nat len)), s') /\
      gen s' = gen s /\ rounds s' = rounds s /\
      oracle (ext s') = oracle (ext s) /\ objects (ext s') = objects (ext s) /\
      escaped (ext s') = escaped (ext s) /\ events (ext s') = events (ext s) /\
      logged (ext s')
      = logged (ext s) ++ map (verdict (ext s) winner) (seq a len).
Proof.
  induction len as [|len IH]; intros a s Hwinner.
  { exists s. cbn [seq map for_enumerate]. rewrite M_ret_eq, app_nil_r. done. }
  cbn [seq map for_enumerate]. cbn zeta. rewrite !M_bind_eq, call__eq, M_ret_eq.
  set (s1 := mkState _ _ _).
  destruct (IH (S a) s1 Hwinner)
    as (s' & Hloop & Hgen & Hrounds & Horacle & Hobjects & Hescaped & Hevents & Hlogged).
  replace (Z.of_nat a + 1) with (Z.of_nat (S a)) by lia.
  cbn zeta in Hloop. rewrite M_bind_eq, Hloop, M_ret_eq. exists s'.
  rewrite (seqZ_cons (Z.of_nat a)) by lia.
  replace (Z.succ (Z.of_nat a)) with (Z.of_nat (S a)) by lia.
  replace (Z.pred (Z.of_nat (S len))) with (Z.of_nat len) by lia.
  split; [done|].
  assert (logged (ext s1) = logged (ext s) ++ [verdict (ext s) winner a] /\
          oracle (ext s1) = oracle (ext s) /\ objects (ext s1) = objects (ext s) /\
          escaped (ext s1) = escaped (ext s) /\ events (ext s1) = events (ext s))
    as (Hlogged1 & Horacle1 & Hobjects1 & Hescaped1 & Hevents1).
  { subst s1. cbn [ext player_interface.end_game player]. unfold method, end_game, verdict, result_for.
    destruct (Z.eqb_spec winner (-1)); [lia|].
    destruct (Z.eqb_spec winner (Z.of_nat a)) as [->|Hne].
    - rewrite !Z.eqb_refl. by cbn.
    - destruct (Z.eqb_spec (Z.of_nat a) winner); [lia|]. by cbn. }
  split; [done|]. split; [done|]. split; [congruence|]. split; [congruence|].
  split; [congruence|]. split; [congruence|].
  rewrite Hlogged, Hlogged1, <- app_assoc. cbn [app map]. do 2 f_equal.
  apply map_ext_in. intros ref _. unfold verdict. by rewrite Hobjects1.
Qed.

End seating.

(** A round at a table of [NaivePlayer]s.  Once the numbers are dealt,
    the round ends within six moves and without an exception: one to five
    bets of the counts 1, 2, ..., each on a digit of the bettor's own
    number, then a call of Bullshit.  The opening bet is true, so a call
    of Bullshit on it is wrong.  There is a winner, never a tie, and each
    player logs its verdict. *)
Theorem naive_round (n fuel : nat) (first_move : option Z) (s s1 : State)
    (numbers : list Z) (first_idx : Z) (first_draw : option Z) :
  naive_player.escaped (ext s) = None ->
  (forall k, naive_player.unit_interval
               (naive_player.floats (naive_player.oracle (ext s)) k)) ->
  deal (naive_player.table n) fuel first_move s
  = Ret ((numbers, first_idx, first_draw), s1) ->
  (6 <= fuel)%nat ->
  exists winner s' r bets tm,
    play (naive_player.table n) fuel first_move s = Ret (winner, s') /\
    rounds s' = rounds s ++ [r] /\ winner_idx r = winner /\
    game_state r = bets ++ [tm] /\ (1 <= length bets <= 5)%nat /\
    claim tm = mkAction false true false None None /\
    (forall j m, bets !! j = Some m ->
                 is_bet (claim m) = true /\
                 count (claim m) = Some (1 + Z.of_nat j) /\
                 naive_player.own_digit numbers m) /\
    (forall m, bets !! 0%nat = Some m ->
               bullshit_is_right (total_counts r) (claim m) = Ret false) /\
    0 <= winner < Z.of_nat n /\
    naive_player.escaped (ext s') = None /\
    naive_player.logged (ext s')
    = naive_player.logged (ext s)
      ++ map (naive_player.verdict (ext s) winner) (seq 0 n).
Proof.
  intros Hescaped Hfloats Hdeal Hfuel.
  destruct (table_deal n fuel first_move s s1 numbers first_idx first_draw Hdeal
              Hescaped Hfloats) as (Hseated & Hlogged1 & Hnames).
  destruct (dealt_numbers (naive_player.table n) naive_randint_range _ _ _ _ _ _ _
              Hdeal) as (_ & Hne & Hnodup & Hrange).
  pose proof (distinct_numbers_fit numbers Hnodup Hrange) as Hfit.
  destruct (total_digit_counts_vector numbers Hrange Hne Hfit)
    as (total & Htotal & Hlen & _).
  pose proof (deal_inv (naive_player.table n) _ _ _ _ _ _ _ Hdeal)
    as (Hrounds1 & Hfirst & _).
  unfold n_players in Hfirst. rewrite table_length in Hfirst.
  rewrite (play_after_deal (naive_player.table n) _ _ _ _ _ _ _ _ Hdeal Htotal).
  destruct (table_game_loop n numbers ltac:(lia) total fuel s1 Hlen Hfuel Hseated)
    as (bets & tm & winner & s2 & Hloop & Hbets & Htm & Hclaims & Hseated2 & Hlogged2
        & Hobjects2 & Hrounds2 & Hwinner).
  destruct (table_notify winner (bets ++ [tm]) numbers n 0 s2 ltac:(lia))
    as (s3 & Hnotify & _ & Hrounds3 & _ & _ & Hescaped3 & _ & Hlogged3).
  unfold conclude. rewrite M_bind_eq, Hloop. unfold notify.
  change (Z.of_nat 0) with 0 in Hnotify. cbn zeta in Hnotify.
  unfold naive_player.table at 1.
  rewrite M_bind_eq, Hnotify, M_bind_eq. unfold record_round. rewrite M_ret_eq.
  eexists winner, _, _, bets, tm. split; [done|]. cbn [rounds ext].
  split; [by rewrite Hrounds3, Hrounds2, Hrounds1|].
  split; [done|]. split; [done|]. split; [done|]. split; [done|].
  split; [done|]. split.
  { intros m Hm. cbn [total_counts].
    destruct (Hclaims 0%nat m Hm) as (_ & Hcount & x & d & counts & actual & Hx & Hd
                                      & Hcounts & Hactual & Hpos).
    destruct (total_at_least_own numbers total counts _ x d actual Hrange Hfit
                Htotal Hx Hcounts Hactual) as (t & Ht & Hle).
    rewrite (bullshit_is_right_eq total (claim m) 1 d t Hcount Hd Ht).
    f_equal. apply Z.ltb_ge. lia. }
  split; [done|].
  split; [rewrite Hescaped3; apply Hseated2|].
  rewrite Hlogged3, Hlogged2, Hlogged1. f_equal.
  apply map_ext_in. intros ref _. unfold naive_player.verdict.
  by rewrite Hobjects2, Hnames.
Qed.

Lemma naive_round_witness :
  exists winner s' r bets tm,
    play (naive_player.table 2) 6 None naive_player.start = Ret (winner, s') /\
    rounds s' = rounds naive_player.start ++ [r] /\ winner_idx r = winner /\
    game_state r = bets ++ [tm] /\ (1 <= length bets <= 5)%nat /\
    claim tm = mkAction false true false None None /\
    (forall j m, bets !! j = Some m ->
                 is_bet (claim m) = true /\
                 count (claim m) = Some (1 + Z.of_nat j) /\
                 naive_player.own_digit [23456789; 12345678] m) /\
    (forall m, bets !! 0%nat = Some m ->
               bullshit_is_right (total_counts r) (claim m) = Ret false) /\
    0 <= winner < Z.of_nat 2 /\
    naive_player.escaped (ext s') = None /\
    naive_player.logged (ext s')
    = naive_player.logged (ext naive_player.start)
      ++ map (naive_player.verdict (ext naive_player.start) winner) (seq 0 2).
Proof.
  eapply (naive_round 2 6 None naive_player.start).
  - reflexivity.
  - intros k. split; reflexivity.
  - vm_compute. reflexivity.
  - lia.
Defined.
